(** * Automation_AI_Agent: the scenario grouping parser and the code
      conformance post-processor, embedded from the JavaScript sources

    Sources embedded here:
    - [server/utils/normalizer.js]   (toPascalCase, toCamelCase, toShortFeatureName)
    - [client/utils.js]              (the browser copies of the two latter)
    - [server/utils/excelValidator.js] (validateExcelSchema)
    - [server/utils/excelParser.js]  (the grouping loop of parseExcelToJSON)
    - [server/code-generator.js]     (the post-processing part of generateCode)

    A JavaScript string is a sequence of UTF-16 code units; it is modelled
    as a list of code units ([N]).  Arrays are lists, indexed from 0. *)

From Stdlib Require Import NArith Ascii String.
From stdpp Require Import base tactics option list gmap.

Local Open Scope N_scope.
Local Open Scope nat_scope.

(** ** JavaScript strings *)

Module JS.

Abbreviation jsstr := (list N).

(** A literal of the source, written as a Rocq string of Basic Latin
    characters. *)
Definition lit (s : string) : jsstr := N_of_ascii <$> list_ascii_of_string s.

Definition ch (a : ascii) : N := N_of_ascii a.

Arguments lit s%_string.
Arguments ch a%_char.

Definition in_range (lo hi c : N) : bool := (lo <=? c)%N && (c <=? hi)%N.

Definition is_lower (c : N) : bool := in_range 97 122 c.
Definition is_upper (c : N) : bool := in_range 65 90 c.
Definition is_digit (c : N) : bool := in_range 48 57 c.

(** WhiteSpace and LineTerminator code points of ECMAScript: what
    [String.prototype.trim] strips and what [\s] matches. *)
Definition is_space (c : N) : bool :=
  in_range 9 13 c || (c =? 32)%N || (c =? 160)%N || (c =? 5760)%N
  || in_range 8192 8202 c || (c =? 8232)%N || (c =? 8233)%N
  || (c =? 8239)%N || (c =? 8287)%N || (c =? 12288)%N || (c =? 65279)%N.

(** Case conversion of a Basic Latin code unit. *)
Definition upper_unit (c : N) : N := if is_lower c then (c - 32)%N else c.
Definition lower_unit (c : N) : N := if is_upper c then (c + 32)%N else c.

(** [String.prototype.toLowerCase] and [toUpperCase] on a whole string follow
    the Unicode case mappings of the engine.  They are an interface of the
    host: the development is stated for every such pair of functions. *)
Class CaseMapping := {
  toLowerCase : jsstr → jsstr;
  toUpperCase : jsstr → jsstr
}.

(** The mapping restricted to Basic Latin, on which every engine agrees;
    code units outside it are kept.  Used to evaluate the functions on the
    Basic Latin inputs of the examples. *)
Definition BasicLatin : CaseMapping :=
  {| toLowerCase := fun s => lower_unit <$> s;
     toUpperCase := fun s => upper_unit <$> s |}.

Definition eqb (a b : jsstr) : bool := bool_decide (a = b).

(** Truthiness of a string: the empty string is falsy. *)
Definition truthy (s : jsstr) : bool :=
  match s with [] => false | _ => true end.

(** [a || b] on strings. *)
Definition or_else (a b : jsstr) : jsstr := if truthy a then a else b.

Fixpoint drop_while (p : N → bool) (s : jsstr) : jsstr :=
  match s with
  | [] => []
  | c :: t => if p c then drop_while p t else s
  end.

Definition trim (s : jsstr) : jsstr :=
  reverse (drop_while is_space (reverse (drop_while is_space s))).

(** [s.split(sep)] for a separator of one code unit: always at least one
    piece. *)
Fixpoint split (sep : N) (s : jsstr) : list jsstr :=
  match s with
  | [] => [[]]
  | c :: t =>
      if (c =? sep)%N then [] :: split sep t
      else match split sep t with
           | w :: ws => (c :: w) :: ws
           | [] => [[c]]
           end
  end.

(** [pieces.join(sep)]. *)
Fixpoint join (sep : jsstr) (pieces : list jsstr) : jsstr :=
  match pieces with
  | [] => []
  | [p] => p
  | p :: rest => p ++ sep ++ join sep rest
  end.

Fixpoint starts_with (p s : jsstr) : bool :=
  match p, s with
  | [], _ => true
  | a :: p', b :: s' => (a =? b)%N && starts_with p' s'
  | _ :: _, [] => false
  end.

Definition ends_with (p s : jsstr) : bool := starts_with (reverse p) (reverse s).

(** [s.indexOf(p)]: the least index at which [p] occurs. *)
Fixpoint index_of (p s : jsstr) : option nat :=
  if starts_with p s then Some 0
  else match s with
       | [] => None
       | _ :: t => S <$> index_of p t
       end.

Definition includes (p s : jsstr) : bool :=
  match index_of p s with Some _ => true | None => false end.

(** The replacement text of [String.prototype.replace] with a string
    pattern (GetSubstitution with no captures): [$$], [$&], [$`] and [$']
    are expanded, every other character is copied. *)
Fixpoint get_substitution (matched before after repl : jsstr) : jsstr :=
  match repl with
  | [] => []
  | c :: t =>
      if (c =? 36)%N then
        match t with
        | d :: t' =>
            if (d =? 36)%N then 36%N :: get_substitution matched before after t'
            else if (d =? 38)%N then matched ++ get_substitution matched before after t'
            else if (d =? 96)%N then before ++ get_substitution matched before after t'
            else if (d =? 39)%N then after ++ get_substitution matched before after t'
            else c :: get_substitution matched before after t
        | [] => [c]
        end
      else c :: get_substitution matched before after t
  end.

(** [s.replace(pat, repl)] with a string pattern: only the first occurrence
    of [pat] in [s] is replaced. *)
Definition replace (pat repl s : jsstr) : jsstr :=
  match index_of pat s with
  | None => s
  | Some i =>
      let before := take i s in
      let after := drop (i + length pat) s in
      before ++ get_substitution pat before after repl ++ after
  end.

(** Decimal rendering of a number, as in a template literal. *)
Fixpoint dec_digits (fuel n : nat) (acc : jsstr) : jsstr :=
  match fuel with
  | O => acc
  | S f =>
      let acc' := (48 + N.of_nat (n mod 10))%N :: acc in
      if n / 10 =? 0 then acc' else dec_digits f (n / 10) acc'
  end.
Definition of_nat (n : nat) : jsstr := dec_digits (S n) n [].

End JS.

Import JS.

(** ** server/utils/normalizer.js *)

Module Normalizer.
Section WithCaseMapping.
Context {CM : CaseMapping}.

(** The character class [[a-zA-Z0-9 ]]: what [replace(/[^a-zA-Z0-9 ]/g, '')]
    keeps. *)
Definition keeps_alnum_space (c : N) : bool :=
  is_lower c || is_upper c || is_digit c || (c =? 32)%N.

(** The character class [[a-z0-9\s]]: what [replace(/[^a-z0-9\s]/g, '')]
    keeps. *)
Definition keeps_lower_space (c : N) : bool :=
  is_lower c || is_digit c || is_space c.

(** [word.charAt(0).toUpperCase() + word.slice(1)].  The words it is applied
    to hold Basic Latin letters, digits and white space only, where the
    conversion is that of [upper_unit]. *)
Definition capitalize (word : jsstr) : jsstr :=
  match word with
  | [] => []
  | c :: rest => upper_unit c :: rest
  end.

(** [str.replace(..).split(' ').filter(Boolean).map(..).join('')] *)
Definition toPascalCase (str : jsstr) : jsstr :=
  concat (capitalize <$> filter (λ w, truthy w = true)
            (split 32 (filter (λ c, keeps_alnum_space c = true) str))).

(** [pascal.charAt(0).toLowerCase() + pascal.slice(1)] *)
Definition toCamelCase (str : jsstr) : jsstr :=
  match toPascalCase str with
  | [] => []
  | c :: rest => lower_unit c :: rest
  end.

Definition commonWords : list jsstr :=
  lit <$> [
    "a"; "an"; "the"; "of"; "in"; "on"; "at"; "for"; "with"; "and"; "or"; "but"; "is"; "are"; "was"; "were";
    "be"; "been"; "being"; "have"; "has"; "had"; "do"; "does"; "did"; "not"; "no"; "this"; "that"; "these";
    "those"; "from"; "to"; "by"; "as"; "it"; "its"; "from"; "into"; "through"; "during"; "before"; "after";
    "above"; "below"; "to"; "from"; "up"; "down"; "out"; "in"; "off"; "on"; "over"; "under"; "again"; "further";
    "then"; "once"; "here"; "there"; "when"; "where"; "why"; "how"; "all"; "any"; "both"; "each"; "few"; "more";
    "most"; "other"; "some"; "such"; "no"; "nor"; "only"; "own"; "same"; "so"; "than"; "too"; "very"; "s"; "t";
    "can"; "will"; "just"; "don"; "should"; "now";
    "verify"; "check"; "ensure"; "manage"; "test"; "scenario"; "flow"; "functionality"; "page"; "module"; "system"
  ]%string.

Definition is_common (w : jsstr) : bool := bool_decide (w ∈ commonWords).

Definition genericFeature : jsstr := lit "genericFeature".

(** The significant words of a title: lower-cased, stripped, split on the
    space, without the short and the common words. *)
Definition significant_words (scenarioTitle : jsstr) : list jsstr :=
  filter (λ word, (2 <? length word) && negb (is_common word) = true)
    (split 32 (filter (λ c, keeps_lower_space c = true) (toLowerCase scenarioTitle))).

(** The [for] loop of [toShortFeatureName] over [words], from index [i] on,
    with the value of [shortName] so far; [pascal] is the capitalisation the
    copy of the function uses. *)
Fixpoint combine_words (pascal : jsstr → jsstr) (shortName : jsstr)
    (words : list jsstr) : jsstr :=
  match words with
  | [] => shortName
  | w :: rest =>
      let nextWordPascal := pascal w in
      if length shortName + length nextWordPascal <? 25 then
        combine_words pascal (shortName ++ nextWordPascal) rest
      else if truthy shortName then shortName
      else take (length w `min` 25) w
  end.

Definition toShortFeatureName (scenarioTitle : jsstr) : jsstr :=
  let words := significant_words scenarioTitle in
  match words with
  | [] =>
      or_else (toCamelCase (take (length scenarioTitle `min` 15) scenarioTitle))
              genericFeature
  | w0 :: _ =>
      let shortName := combine_words toPascalCase [] words in
      or_else (toCamelCase shortName) (or_else (toCamelCase w0) genericFeature)
  end.

End WithCaseMapping.
End Normalizer.

(** ** client/utils.js: the copies the browser uses *)

Module Client.
Section WithCaseMapping.
Context {CM : CaseMapping}.

(** [words.map((word, index) => index === 0 ? lower-first : upper-first)] *)
Definition camel_words (words : list jsstr) : list jsstr :=
  imap (λ index word,
          match word with
          | [] => []
          | c :: rest => (if index =? 0 then lower_unit c else upper_unit c) :: rest
          end) words.

Definition toCamelCase (str : jsstr) : jsstr :=
  concat (camel_words (filter (λ w, truthy w = true)
            (split 32 (filter (λ c, Normalizer.keeps_alnum_space c = true) str)))).

(** The client's set of common words: the server's, listed in another
    order. *)
Definition commonWords : list jsstr :=
  lit <$> [
    "a"; "an"; "the"; "of"; "in"; "on"; "at"; "for"; "and"; "or"; "but"; "is"; "are"; "was"; "were"; "be";
    "been"; "being"; "have"; "has"; "had"; "do"; "does"; "did"; "not"; "no"; "this"; "that"; "these"; "those";
    "from"; "to"; "by"; "as"; "it"; "its"; "from"; "into"; "through"; "during"; "before"; "after"; "above";
    "below"; "up"; "down"; "out"; "in"; "off"; "on"; "over"; "under"; "again"; "further"; "then"; "once";
    "here"; "there"; "when"; "where"; "why"; "how"; "all"; "any"; "both"; "each"; "few"; "more"; "most";
    "other"; "some"; "such"; "no"; "nor"; "only"; "own"; "same"; "so"; "than"; "too"; "very"; "s"; "t";
    "can"; "will"; "just"; "don"; "should"; "now"; "verify"; "check"; "ensure"; "manage"; "test";
    "scenario"; "flow"; "functionality"; "page"; "module"; "system"; "with"
  ]%string.

Definition is_common (w : jsstr) : bool := bool_decide (w ∈ commonWords).

Definition significant_words (scenarioTitle : jsstr) : list jsstr :=
  filter (λ word, (2 <? length word) && negb (is_common word) = true)
    (split 32 (filter (λ c, Normalizer.keeps_lower_space c = true)
                 (toLowerCase scenarioTitle))).

Definition toShortFeatureName (scenarioTitle : jsstr) : jsstr :=
  let words := significant_words scenarioTitle in
  match words with
  | [] =>
      or_else (toCamelCase (take (length scenarioTitle `min` 15) scenarioTitle))
              Normalizer.genericFeature
  | w0 :: _ =>
      let shortName := Normalizer.combine_words Normalizer.capitalize [] words in
      or_else (toCamelCase shortName)
              (or_else (toCamelCase w0) Normalizer.genericFeature)
  end.

End WithCaseMapping.
End Client.

(** ** Cells of the sheet

    [XLSX.utils.sheet_to_json(sheet, {header: 1})] gives every row as an
    array of cell values.  The code tells strings from other values with
    [typeof], and [undefined]/[null] from the rest; a value that is neither
    is kept with the text [String(value)] gives. *)

Inductive cell :=
| Undefined
| Null
| Str (s : jsstr)
| Other (shown : jsstr).

Definition row := list cell.

(** [row[i]], where the index may be [-1] ([None]) or past the end. *)
Definition cell_at (r : row) (i : option nat) : cell :=
  match i with
  | Some n => default Undefined (r !! n)
  | None => Undefined
  end.

(** [typeof v === 'string' ? v.trim() : ''] *)
Definition trimmed_string (v : cell) : jsstr :=
  match v with
  | Str s => trim s
  | _ => []
  end.

(** [headers.map(h => typeof h === 'string' ? h.trim() : '')] *)
Definition trimHeaders (headers : row) : list jsstr := trimmed_string <$> headers.

(** [array.indexOf(x)] and [array.findIndex(h => h === x)] on strings. *)
Fixpoint array_index_of (x : jsstr) (l : list jsstr) : option nat :=
  match l with
  | [] => None
  | y :: t => if JS.eqb y x then Some 0 else S <$> array_index_of x t
  end.

Definition array_includes (x : jsstr) (l : list jsstr) : bool :=
  match array_index_of x l with Some _ => true | None => false end.

(** ** server/utils/excelValidator.js *)

Module Validator.
Section WithCaseMapping.
Context {CM : CaseMapping}.

Definition MANDATORY_HEADERS : list jsstr :=
  lit <$> [ "Test Scenario"; "Test Case Description"; "Detail Steps";
            "Test Data"; "Expected Result"; "Testcase Priority" ]%string.

(** What the function throws. *)
Inductive schema_error :=
| MissingColumn (mandatoryHeader : jsstr)
| InvalidPriority (excelRowNumber : nat) (value : jsstr)
| NoValidScenario.

(** What it writes with [console.warn]. *)
Inductive warning :=
| ScenarioEmpty (excelRowNumber : nat)
| RowIncomplete (excelRowNumber : nat).

(** Step 1: the first mandatory header that the trimmed headers lack. *)
Fixpoint first_missing (mandatory trimmedHeaders : list jsstr) : option jsstr :=
  match mandatory with
  | [] => None
  | mandatoryHeader :: rest =>
      if array_includes mandatoryHeader trimmedHeaders
      then first_missing rest trimmedHeaders
      else Some mandatoryHeader
  end.

Record columns := {
  testScenarioColIndex : option nat;
  testCaseDescriptionColIndex : option nat;
  detailStepsColIndex : option nat;
  expectedResultColIndex : option nat;
  testcasePriorityColIndex : option nat
}.

Definition find_columns (trimmedHeaders : list jsstr) : columns :=
  {| testScenarioColIndex := array_index_of (lit "Test Scenario") trimmedHeaders;
     testCaseDescriptionColIndex := array_index_of (lit "Test Case Description") trimmedHeaders;
     detailStepsColIndex := array_index_of (lit "Detail Steps") trimmedHeaders;
     expectedResultColIndex := array_index_of (lit "Expected Result") trimmedHeaders;
     testcasePriorityColIndex := array_index_of (lit "Testcase Priority") trimmedHeaders |}.

Definition valid_priorities : list jsstr := lit <$> ["P1"; "P2"; "P3"]%string.

(** Step 2: the loop over the data rows from index [i] on, with the values
    of [lastValidScenarioTitle] and [hasAtLeastOneValidScenario]; the
    warnings written so far are returned with the outcome. *)
Fixpoint scan_rows (cols : columns) (i : nat) (lastValidScenarioTitle : option jsstr)
    (hasAtLeastOneValidScenario : bool) (dataRows : list row)
    : list warning * (schema_error + bool) :=
  match dataRows with
  | [] => ([], inr hasAtLeastOneValidScenario)
  | r :: rest =>
      let excelRowNumber := i + 2 in
      let scenarioTitle := trimmed_string (cell_at r (testScenarioColIndex cols)) in
      let '(currentScenarioTitle, last') :=
        if truthy scenarioTitle then (scenarioTitle, Some scenarioTitle)
        else match lastValidScenarioTitle with
             | Some t => (t, lastValidScenarioTitle)
             | None => ([], lastValidScenarioTitle)
             end in
      let w1 := if truthy currentScenarioTitle then [] else [ScenarioEmpty excelRowNumber] in
      let has' := if truthy currentScenarioTitle then true else hasAtLeastOneValidScenario in
      let testCaseDescription := trimmed_string (cell_at r (testCaseDescriptionColIndex cols)) in
      let detailSteps := trimmed_string (cell_at r (detailStepsColIndex cols)) in
      let expectedResult := trimmed_string (cell_at r (expectedResultColIndex cols)) in
      let testcasePriority :=
        match cell_at r (testcasePriorityColIndex cols) with
        | Str s => toUpperCase (trim s)
        | _ => []
        end in
      let w2 := if negb (truthy testCaseDescription) && negb (truthy detailSteps)
                   && negb (truthy expectedResult)
                then [RowIncomplete excelRowNumber] else [] in
      if truthy testcasePriority && negb (array_includes testcasePriority valid_priorities)
      then (w1 ++ w2, inl (InvalidPriority excelRowNumber testcasePriority))
      else let '(ws, res) := scan_rows cols (S i) last' has' rest in
           (w1 ++ w2 ++ ws, res)
  end.

(** [validateExcelSchema(headers, dataRows)]: [inr tt] is the normal return
    (of [true]), [inl e] a thrown error. *)
Definition validateExcelSchema (headers : row) (dataRows : list row)
    : list warning * (schema_error + unit) :=
  let trimmedHeaders := trimHeaders headers in
  match first_missing MANDATORY_HEADERS trimmedHeaders with
  | Some mandatoryHeader => ([], inl (MissingColumn mandatoryHeader))
  | None =>
      match scan_rows (find_columns trimmedHeaders) 0 None false dataRows with
      | (ws, inl e) => (ws, inl e)
      | (ws, inr hasAtLeastOneValidScenario) =>
          if negb hasAtLeastOneValidScenario && (0 <? length dataRows)
          then (ws, inl NoValidScenario)
          else (ws, inr tt)
      end
  end.

End WithCaseMapping.
End Validator.

(** ** The data model: test cases and scenario groups *)

(** The analysis the enrichment step attaches to an expected result
    ([nlpAnalysis.expectedResult.analysis]).  A field that is absent is
    falsy, as the empty string is; the code only tests the fields for
    truth, compares them with literals and prints them. *)
Record Analysis := {
  action : jsstr;
  target : jsstr;
  validationType : jsstr;
  expectedValue : jsstr;
  url : jsstr
}.

Record TestCase := {
  id : jsstr;
  title : jsstr;
  description : jsstr;
  steps : list jsstr;
  data : jsstr;
  expected : jsstr;
  priority : jsstr;
  nlpExpected : option Analysis
}.

Record ScenarioGroup := {
  page : jsstr;
  scenario : jsstr;
  shortFeatureName : jsstr;
  tests : list TestCase
}.

(** ** server/utils/excelParser.js: the grouping loop *)

Module Parser.
Section WithCaseMapping.
Context {CM : CaseMapping}.

(** [groupedMap] is a [Map]: the groups in the order of their first
    insertion, one per key. *)
Definition grouped := list ScenarioGroup.

Fixpoint get (key : jsstr) (m : grouped) : option ScenarioGroup :=
  match m with
  | [] => None
  | h :: t => if JS.eqb (shortFeatureName h) key then Some h else get key t
  end.

Definition has (key : jsstr) (m : grouped) : bool :=
  match get key m with Some _ => true | None => false end.

(** [groupedMap.set(key, g)]: a new key is added at the end, the value of a
    present key is replaced where it is. *)
Fixpoint set (key : jsstr) (g : ScenarioGroup) (m : grouped) : grouped :=
  match m with
  | [] => [g]
  | h :: t => if JS.eqb (shortFeatureName h) key then g :: t else h :: set key g t
  end.

(** [groupedMap.get(key).tests.push(tc)]: the group is an object of the
    map, changed in place. *)
Fixpoint push_test (key : jsstr) (tc : TestCase) (m : grouped) : grouped :=
  match m with
  | [] => []
  | h :: t =>
      if JS.eqb (shortFeatureName h) key
      then {| page := page h; scenario := scenario h;
              shortFeatureName := shortFeatureName h;
              tests := tests h ++ [tc] |} :: t
      else h :: push_test key tc t
  end.

(** What the loop writes to the console when it skips a row. *)
Inductive diagnostic :=
| SkippedNoScenario (excelRowNumber : nat)
| SkippedEmptyTitle (excelRowNumber : nat)
| SkippedNoPageName (excelRowNumber : nat) (determinedScenarioTitle : jsstr).

(** [rowObject[header]] after the [forEach] over the trimmed headers: the
    cell of the last column with that header, as a trimmed string;
    [undefined] ([None]) when no column has it. *)
Definition cell_text (v : cell) : jsstr :=
  match v with
  | Undefined | Null => []
  | Str s => trim s
  | Other shown => trim shown
  end.

Fixpoint row_object (trimmedHeaders : list jsstr) (index : nat) (rowArray : row)
    (header : jsstr) : option jsstr :=
  match trimmedHeaders with
  | [] => None
  | h :: rest =>
      match row_object rest (S index) rowArray header with
      | Some v => Some v
      | None => if JS.eqb h header
                then Some (cell_text (cell_at rowArray (Some index)))
                else None
      end
  end.

(** [rowObject[header] || ''] *)
Definition field (trimmedHeaders : list jsstr) (rowArray : row) (header : string) : jsstr :=
  default [] (row_object trimmedHeaders 0 rowArray (lit header)).

Record state := {
  groupedMap : grouped;
  lastValidScenarioTitle : option jsstr;
  console : list diagnostic
}.

Definition skip (st : state) (d : diagnostic) (last : option jsstr) : state :=
  {| groupedMap := groupedMap st; lastValidScenarioTitle := last;
     console := console st ++ [d] |}.

(** The test case built from a row, for the group that has [n] tests. *)
Definition build_test (trimmedHeaders : list jsstr) (rowArray : row)
    (determinedScenarioTitle : jsstr) (n : nat) : TestCase :=
  let f := field trimmedHeaders rowArray in
  {| id := f "Test Case ID"%string;
     title := or_else (f "Test Case Description"%string)
                (lit "Test for " ++ determinedScenarioTitle ++ lit " - Case "
                   ++ JS.of_nat (n + 1));
     description := f "Test Case Description"%string;
     steps := filter (λ s, truthy s = true)
                (trim <$> split 10 (f "Detail Steps"%string));
     data := f "Test Data"%string;
     expected := f "Expected Result"%string;
     priority := if truthy (f "Testcase Priority"%string)
                 then toUpperCase (f "Testcase Priority"%string) else [];
     nlpExpected := None |}.

(** The scenario title a row is given: its own trimmed cell when that is a
    non-blank string, else the carried one. *)
Definition determine (rowArray : row) (testScenarioColIndex : option nat)
    (last : option jsstr) : option jsstr :=
  match cell_at rowArray testScenarioColIndex with
  | Str s => if truthy (trim s) then Some (trim s) else last
  | _ => last
  end.

(** One turn of the [for] loop over [dataRows.entries()]. *)
Definition group_row (trimmedHeaders : list jsstr) (testScenarioColIndex : option nat)
    (st : state) (rowIndex : nat) (rowArray : row) : state :=
  let excelRowNumber := rowIndex + 2 in
  match determine rowArray testScenarioColIndex (lastValidScenarioTitle st) with
  | None => skip st (SkippedNoScenario excelRowNumber) None
  | Some determinedScenarioTitle =>
      let last := Some determinedScenarioTitle in
      if negb (truthy determinedScenarioTitle)
      then skip st (SkippedEmptyTitle excelRowNumber) last
      else
        let pageCamelCaseName := Normalizer.toCamelCase determinedScenarioTitle in
        let shortFeatureName := Normalizer.toShortFeatureName determinedScenarioTitle in
        if negb (truthy pageCamelCaseName)
        then skip st (SkippedNoPageName excelRowNumber determinedScenarioTitle) last
        else
          let m := if has shortFeatureName (groupedMap st) then groupedMap st
                   else set shortFeatureName
                          {| page := pageCamelCaseName;
                             scenario := determinedScenarioTitle;
                             shortFeatureName := shortFeatureName;
                             tests := [] |} (groupedMap st) in
          let n := match get shortFeatureName m with
                   | Some g => length (tests g)
                   | None => 0
                   end in
          {| groupedMap := push_test shortFeatureName
                             (build_test trimmedHeaders rowArray determinedScenarioTitle n) m;
             lastValidScenarioTitle := last;
             console := console st |}
  end.

Fixpoint group_rows (trimmedHeaders : list jsstr) (testScenarioColIndex : option nat)
    (st : state) (rowIndex : nat) (dataRows : list row) : state :=
  match dataRows with
  | [] => st
  | rowArray :: rest =>
      group_rows trimmedHeaders testScenarioColIndex
        (group_row trimmedHeaders testScenarioColIndex st rowIndex rowArray)
        (S rowIndex) rest
  end.

Definition initial : state :=
  {| groupedMap := []; lastValidScenarioTitle := None; console := [] |}.

(** What [parseExcelToJSON] throws once the sheet has rows: its own error
    of an empty header row, or the error of the validator. *)
Inductive error :=
| HeaderRowEmpty
| SchemaError (e : Validator.schema_error).

(** The part of [parseExcelToJSON] after the rows of the sheet are read,
    for the header row [rows[0]] and the data rows [rows.slice(1)]: the
    check of the header row, the validation, then the grouping loop. *)
Definition parseRows (headers : row) (dataRows : list row) : error + state :=
  if length headers =? 0 then inl HeaderRowEmpty
  else
    match (Validator.validateExcelSchema headers dataRows).2 with
    | inl e => inl (SchemaError e)
    | inr _ =>
        let trimmedHeaders := trimHeaders headers in
        inr (group_rows trimmedHeaders
               (array_index_of (lit "Test Scenario") trimmedHeaders)
               initial 0 dataRows)
    end.

End WithCaseMapping.
End Parser.

(** ** Regular expressions

    The patterns of [code-generator.js] are matched as a backtracking
    engine matches them (the continuation-passing matcher of the language
    definition).  The syntax covers what those patterns use: literals,
    classes, sequence, alternation, quantified classes (greedy or lazy),
    optional parts, capture groups and backreferences.  No pattern of the
    source has a group inside a quantifier. *)

Module Regex.

Inductive re :=
| Eps
| Chr (c : N)
| Cls (p : N → bool)
| Lit (s : jsstr)
| Seq (r1 r2 : re)
| Alt (r1 r2 : re)
| Rep (greedy : bool) (min : nat) (max : option nat) (p : N → bool)
| Opt (r : re)
| Grp (n : nat) (r : re)
| Ref (n : nat).

Definition seqs (rs : list re) : re := foldr Seq Eps rs.

Definition captures := list (nat * jsstr).

Fixpoint capture (n : nat) (caps : captures) : option jsstr :=
  match caps with
  | [] => None
  | (m, s) :: rest => if m =? n then Some s else capture n rest
  end.

(** The answer of a match: the input left after it, and the captures. *)
Definition answer : Type := jsstr * captures.

(** A quantified class [p{min,max}], greedy or lazy, followed by [k]. *)
Fixpoint rep (p : N → bool) (greedy : bool) (min : nat) (max : option nat)
    (s : jsstr) (k : jsstr → option answer) : option answer :=
  match max with
  | Some 0 => k s
  | _ =>
      let more :=
        match s with
        | c :: t => if p c then rep p greedy (pred min) (pred <$> max) t k else None
        | [] => None
        end in
      match min with
      | S _ => more
      | 0 =>
          if greedy
          then match more with Some z => Some z | None => k s end
          else match k s with Some z => Some z | None => more end
      end
  end.

Fixpoint run (r : re) (s : jsstr) (caps : captures)
    (k : jsstr → captures → option answer) : option answer :=
  match r with
  | Eps => k s caps
  | Chr c =>
      match s with
      | x :: t => if (x =? c)%N then k t caps else None
      | [] => None
      end
  | Cls p =>
      match s with
      | x :: t => if p x then k t caps else None
      | [] => None
      end
  | Lit l => if starts_with l s then k (drop (length l) s) caps else None
  | Seq a b => run a s caps (λ s' caps', run b s' caps' k)
  | Alt a b =>
      match run a s caps k with
      | Some z => Some z
      | None => run b s caps k
      end
  | Rep greedy min max p => rep p greedy min max s (λ s', k s' caps)
  | Opt a =>
      match run a s caps (λ s' caps', if length s' =? length s then None else k s' caps') with
      | Some z => Some z
      | None => k s caps
      end
  | Grp n a =>
      run a s caps (λ s' caps', k s' ((n, take (length s - length s') s) :: caps'))
  | Ref n =>
      match capture n caps with
      | Some c => if starts_with c s then k (drop (length c) s) caps else None
      | None => k s caps
      end
  end.

(** The result of [RegExp.prototype.exec]: where the match starts, the
    matched text and the groups. *)
Record result := { index : nat; matched : jsstr; groups : captures }.

Fixpoint exec_from (r : re) (i : nat) (s : jsstr) : option result :=
  match run r s [] (λ s' caps, Some (s', caps)) with
  | Some (s', caps) =>
      Some {| index := i; matched := take (length s - length s') s; groups := caps |}
  | None =>
      match s with
      | [] => None
      | _ :: t => exec_from r (S i) t
      end
  end.

(** [s.match(r)] for a pattern without the [g] flag. *)
Definition exec (r : re) (s : jsstr) : option result := exec_from r 0 s.

(** [r.test(s)] *)
Definition test (r : re) (s : jsstr) : bool :=
  match exec r s with Some _ => true | None => false end.

(** [m[n]] of a match. *)
Definition group (m : result) (n : nat) : jsstr := default [] (capture n (groups m)).

(** [s.replace(r, text)] for a pattern without the [g] flag and a
    replacement text without [$]. *)
Definition replace (r : re) (text s : jsstr) : jsstr :=
  match exec r s with
  | None => s
  | Some m => take (index m) s ++ text ++ drop (index m + length (matched m)) s
  end.

(** Classes of the patterns.  In the comments below the double quote is
    written [\x22]. *)
Definition space : N → bool := is_space.
Definition dot (c : N) : bool :=
  negb ((c =? 10)%N || (c =? 13)%N || (c =? 8232)%N || (c =? 8233)%N).
Definition quote2 (c : N) : bool := (c =? 39)%N || (c =? 34)%N.
Definition quote3 (c : N) : bool := (c =? 39)%N || (c =? 34)%N || (c =? 96)%N.
Definition alpha (c : N) : bool := is_lower c || is_upper c.
Definition host_char (c : N) : bool :=
  is_lower c || is_upper c || is_digit c || (c =? 46)%N || (c =? 45)%N.
Definition path_char (c : N) : bool :=
  negb (is_space c || (c =? 44)%N || (c =? 34)%N || (c =? 39)%N).
Definition only (c : N) (x : N) : bool := (x =? c)%N.

Definition star (p : N → bool) : re := Rep true 0 None p.
Definition plus (p : N → bool) : re := Rep true 1 None p.
Definition lazy_star (p : N → bool) : re := Rep false 0 None p.

(** [/import\s+\{\s*test\s*\}\s+from\s+['\x22]\.\.\/testFixtures\/baseFixture\.js['\x22];?/] *)
Definition importBaseFixtureRegex : re :=
  seqs [ Lit (lit "import"); plus space; Chr (ch "{"); star space; Lit (lit "test");
         star space; Chr (ch "}"); plus space; Lit (lit "from"); plus space;
         Cls quote2; Lit (lit "../testFixtures/baseFixture.js"); Cls quote2;
         Rep true 0 (Some 1) (only (ch ";")) ].

(** [/(test\.describe\()(['\x22`])(.*?)\2(\s*,\s*?\(\s*?\)\s*?=>\s*?\{)/] *)
Definition describeRegex : re :=
  seqs [ Grp 1 (Lit (lit "test.describe("));
         Grp 2 (Cls quote3);
         Grp 3 (lazy_star dot);
         Ref 2;
         Grp 4 (seqs [ star space; Chr (ch ","); lazy_star space; Chr (ch "(");
                       lazy_star space; Chr (ch ")"); lazy_star space; Lit (lit "=>");
                       lazy_star space; Chr (ch "{") ]) ].

(** [/(test\(['\x22`])(.*?)(['\x22`]\s*,\s*async\s*\(\s*{.*?}\s*\)\s*=>\s*\{)/] *)
Definition testRegex : re :=
  seqs [ Grp 1 (Seq (Lit (lit "test(")) (Cls quote3));
         Grp 2 (lazy_star dot);
         Grp 3 (seqs [ Cls quote3; star space; Chr (ch ","); star space;
                       Lit (lit "async"); star space; Chr (ch "("); star space;
                       Chr (ch "{"); lazy_star dot; Chr (ch "}"); star space;
                       Chr (ch ")"); star space; Lit (lit "=>"); star space;
                       Chr (ch "{") ]) ].

(** [/(?:expect\(|page\.waitForURL\(|await\s+(?:page|browser)\.(?:toBe|toHave|isVisible|title)\()/] *)
Definition assertionRegex : re :=
  Alt (Lit (lit "expect("))
    (Alt (Lit (lit "page.waitForURL("))
       (seqs [ Lit (lit "await"); plus space;
               Alt (Lit (lit "page")) (Lit (lit "browser"));
               Chr (ch ".");
               Alt (Lit (lit "toBe"))
                 (Alt (Lit (lit "toHave"))
                    (Alt (Lit (lit "isVisible")) (Lit (lit "title"))));
               Chr (ch "(") ])).

(** [/(https?:\/\/(?:www\.)?[a-zA-Z0-9.-]+\.[a-zA-Z]{2,6}(?::\d+)?(?:\/[^\s,\x22']{0,})?)/], the
    last quantifier written [{0,}] for the star. *)
Definition urlRegex : re :=
  Grp 1 (seqs [ Lit (lit "http"); Rep true 0 (Some 1) (only (ch "s")); Lit (lit "://");
                Opt (Lit (lit "www."));
                plus host_char; Chr (ch "."); Rep true 2 (Some 6) alpha;
                Opt (Seq (Chr (ch ":")) (plus is_digit));
                Opt (Seq (Chr (ch "/")) (star path_char)) ]).

End Regex.

(** ** server/code-generator.js: post-processing of the generated files *)

Module PostProcessor.
Section WithCaseMapping.
Context {CM : CaseMapping}.

Definition newline : jsstr := [10%N].

(** The tags a priority puts before a test title (the [switch]). *)
Definition priority_tags (priority : jsstr) : jsstr :=
  if JS.eqb priority (lit "P1") then lit "@smoke @reg "
  else if JS.eqb priority (lit "P2") then lit "@sanity @reg "
  else if JS.eqb priority (lit "P3") then lit "@reg "
  else [].

(** [exactTestTitle] of a test case. *)
Definition exactTestTitle (currentTestCase : TestCase) : jsstr :=
  if truthy (priority currentTestCase)
  then priority_tags (priority currentTestCase) ++ title currentTestCase
  else title currentTestCase.

(** The condition under which the title of a case declaration is
    rewritten. *)
Definition title_needs_correction (generatedTitle exact : jsstr) : bool :=
  negb (JS.eqb (trim generatedTitle) (trim exact))
  || includes (lit "Test for") generatedTitle
  || includes (lit "Case") generatedTitle
  || includes (lit "Funcitonality") generatedTitle
  || includes (lit "Scenario") generatedTitle.

(** The describe-level correction of a line. *)
Definition correct_describe (exactDescribeTitle line : jsstr) : jsstr :=
  match Regex.exec Regex.describeRegex line with
  | Some describeMatch =>
      let generatedTitle := Regex.group describeMatch 3 in
      if negb (JS.eqb (trim generatedTitle) (trim exactDescribeTitle))
      then JS.replace generatedTitle exactDescribeTitle line
      else line
  | None => line
  end.

(** The test-level correction of a line whose captured title is
    [generatedTitle]. *)
Definition correct_test (currentTestCase : TestCase) (generatedTitle line : jsstr) : jsstr :=
  if title_needs_correction generatedTitle (exactTestTitle currentTestCase)
  then JS.replace generatedTitle (exactTestTitle currentTestCase) line
  else line.

(** The assertion inferred from the attached analysis. *)
Definition nlp_assertion (nlpAnalysis : Analysis) (expectedResult : jsstr) : jsstr :=
  let indent := newline ++ lit "        " in
  if JS.eqb (action nlpAnalysis) (lit "navigate") && truthy (url nlpAnalysis) then
    lit "await page.waitForURL('" ++ url nlpAnalysis
      ++ lit "'); // NLP-inferred: Page URL verification"
  else if JS.eqb (action nlpAnalysis) (lit "verify")
          && JS.eqb (validationType nlpAnalysis) (lit "text")
          && truthy (expectedValue nlpAnalysis) then
    lit "// Assertion: Verify text content '" ++ expectedValue nlpAnalysis ++ lit "'"
      ++ indent ++ lit "// You may need to refine the locator based on context."
      ++ indent ++ lit "await expect(page.locator('text=" ++ expectedValue nlpAnalysis
      ++ lit "')).toContainText('" ++ expectedValue nlpAnalysis ++ lit "');"
  else if JS.eqb (action nlpAnalysis) (lit "verify")
          && JS.eqb (validationType nlpAnalysis) (lit "visibility")
          && truthy (target nlpAnalysis) then
    lit "// Assertion: Verify element visibility for '" ++ target nlpAnalysis ++ lit "'"
      ++ indent ++ lit "// You may need to refine the locator based on context."
      ++ indent ++ lit "await expect(page.locator('text=" ++ target nlpAnalysis
      ++ lit "')).toBeVisible();"
  else if JS.eqb (action nlpAnalysis) (lit "verify")
          && truthy (target nlpAnalysis) && truthy (expectedValue nlpAnalysis) then
    (* the dollar signs are escaped in the template: nothing is interpolated *)
    lit "// Assertion: Verify ${nlpAnalysis.target} is ${nlpAnalysis.expectedValue}. Please add specific assertion."
  else
    lit "// Verify: " ++ expectedResult.

(** The assertion inferred from the keywords of the expected result.  The
    empty string stands for no assertion. *)
Definition keyword_assertion (expectedResult : jsstr) : jsstr :=
  let lowerExpected := toLowerCase expectedResult in
  if includes (lit "url") lowerExpected then
    match Regex.exec Regex.urlRegex lowerExpected with
    | Some urlMatch =>
        lit "await page.waitForURL('" ++ Regex.matched urlMatch
          ++ lit "'); // Keyword inferred: URL verification"
    | None => []
    end
  else if includes (lit "visible") lowerExpected || includes (lit "displayed") lowerExpected then
    lit "// Verify element is visible: " ++ expectedResult
  else if includes (lit "text") lowerExpected || includes (lit "message") lowerExpected
          || includes (lit "value") lowerExpected then
    lit "// Verify text content: " ++ expectedResult
  else
    lit "// Verify: " ++ expectedResult.

(** [lines.slice(i + 1, i + 10).join('\n')] and the test for an assertion
    that is already there. *)
Definition codeBlockAfterTest (lines : list jsstr) (i : nat) : jsstr :=
  join newline (take 9 (drop (i + 1) lines)).

Definition hasExistingAssertion (lines : list jsstr) (i : nat) : bool :=
  Regex.test Regex.assertionRegex (codeBlockAfterTest lines i).

(** [assertionCode] for the case declared on line [i]. *)
Definition assertionCode (currentTestCase : TestCase) (lines : list jsstr) (i : nat) : jsstr :=
  if hasExistingAssertion lines i then []
  else match nlpExpected currentTestCase with
       | Some nlpAnalysis => nlp_assertion nlpAnalysis (expected currentTestCase)
       | None => keyword_assertion (expected currentTestCase)
       end.

(** The [while] loop that looks for the closing brace: [rest] are the lines
    from index [j] on.  The result is the value of [j] when the loop has
    found the brace, [None] when it has run to the end of the file. *)
Fixpoint find_closing (rest : list jsstr) (j : nat) (braceCount : Z) : option nat :=
  match rest with
  | [] => None
  | currentLine :: rest' =>
      let b1 := if includes [ch "{"] currentLine then (braceCount + 1)%Z else braceCount in
      let b2 := if includes [ch "}"] currentLine then (b1 - 1)%Z else b1 in
      if (b2 =? 0)%Z then Some (j + 1)
      else find_closing rest' (j + 1) b2
  end.

(** [lines.splice(at, 0, x)] *)
Definition splice (lines : list jsstr) (at_ : nat) (x : jsstr) : list jsstr :=
  take at_ lines ++ x :: drop at_ lines.

Inductive warning :=
| NoClosingBrace (lineNumber : nat)
| NoScenarioForFile (filePath : jsstr).

Record loop_state := {
  lines : list jsstr;
  newLines : list jsstr;
  i : nat;
  testCaseCounter : nat;
  warnings : list warning
}.

(** The injection of the assertion for the case declared on line [i]: the
    array of lines and the loop counter afterwards, and the warning if
    any. *)
Definition inject (currentTestCase : TestCase) (lines : list jsstr) (i : nat)
    : list jsstr * nat * list warning :=
  let expectedResult := expected currentTestCase in
  if truthy expectedResult && truthy (trim expectedResult) then
    let code := assertionCode currentTestCase lines i in
    if truthy code then
      match find_closing (drop (i + 1) lines) (i + 1) 1 with
      | Some j => (splice lines (j - 1) (lit "      " ++ code), j - 1, [])
      | None => (lines, i, [NoClosingBrace (i + 1)])
      end
    else (lines, i, [])
  else (lines, i, []).

(** One turn of the [for] loop over the lines, with the [i++] that ends
    it. *)
Definition iteration (correspondingScenario : ScenarioGroup) (st : loop_state) : loop_state :=
  let line := default [] (lines st !! i st) in
  let line := correct_describe (scenario correspondingScenario) line in
  match Regex.exec Regex.testRegex line,
        tests correspondingScenario !! testCaseCounter st with
  | Some testMatch, Some currentTestCase =>
      let line' := correct_test currentTestCase (Regex.group testMatch 2) line in
      let '(lines', i', ws) := inject currentTestCase (lines st) (i st) in
      {| lines := lines';
         newLines := newLines st ++ [line'];
         i := i' + 1;
         testCaseCounter := testCaseCounter st + 1;
         warnings := warnings st ++ ws |}
  | _, _ =>
      {| lines := lines st;
         newLines := newLines st ++ [line];
         i := i st + 1;
         testCaseCounter := testCaseCounter st;
         warnings := warnings st |}
  end.

(** The [for] loop: [None] when the fuel runs out before the loop ends
    (it does not, see [for_loop_total]). *)
Fixpoint for_loop (fuel : nat) (correspondingScenario : ScenarioGroup) (st : loop_state)
    : option loop_state :=
  if length (lines st) <=? i st then Some st
  else match fuel with
       | O => None
       | S fuel' => for_loop fuel' correspondingScenario (iteration correspondingScenario st)
       end.

(** The first line, with the import of the fixture made a default
    import. *)
Definition fix_import (lines : list jsstr) : list jsstr :=
  match lines with
  | [] => []
  | first :: rest =>
      if Regex.test Regex.importBaseFixtureRegex first
      then Regex.replace Regex.importBaseFixtureRegex
             (lit "import test from '../testFixtures/baseFixture.js';") first :: rest
      else lines
  end.

(** [s.replace(/suffix$/, '')] for a literal suffix. *)
Definition strip_suffix (suffix s : jsstr) : jsstr :=
  if ends_with suffix s then take (length s - length suffix) s else s.

Definition generatedFileNameWithoutExt (filePath : jsstr) : jsstr :=
  strip_suffix (lit ".cy.js")
    (strip_suffix (lit ".test.js")
       (strip_suffix (lit ".spec.js")
          (default [] (last (split (ch "/") filePath))))).

(** [testDataArray.find(s => s.shortFeatureName === name)] *)
Definition find_scenario (testDataArray : list ScenarioGroup) (name : jsstr)
    : option ScenarioGroup :=
  snd <$> list_find (λ s, shortFeatureName s = name) testDataArray.

(** The body of the loop over the files, for one test file: the new
    content, and the warnings written. *)
Definition process_test_file (testDataArray : list ScenarioGroup)
    (filePath fileContent : jsstr) : option (jsstr * list warning) :=
  let lines := fix_import (split 10 fileContent) in
  match find_scenario testDataArray (generatedFileNameWithoutExt filePath) with
  | Some correspondingScenario =>
      st ← for_loop (length lines) correspondingScenario
             {| lines := lines; newLines := []; i := 0; testCaseCounter := 0;
                warnings := [] |};
      Some (join newline (newLines st), warnings st)
  | None => Some (join newline lines, [NoScenarioForFile filePath])
  end.

Definition is_test_file (filePath : jsstr) : bool :=
  starts_with (lit "tests/") filePath
  && (ends_with (lit ".spec.js") filePath || ends_with (lit ".test.js") filePath
      || ends_with (lit ".cy.js") filePath).

(** Collection of the page object names: the keys of the [Map], in the
    order of their first insertion. *)
Definition pageObjectNames (testDataArray : list ScenarioGroup) : list jsstr :=
  foldl (λ names scenarioGroup,
           let pascalCaseName := Normalizer.toPascalCase (scenario scenarioGroup) in
           if truthy pascalCaseName && negb (bool_decide (pascalCaseName ∈ names))
           then names ++ [pascalCaseName] else names)
        [] testDataArray.

Definition fixturePath : jsstr := lit "testFixtures/baseFixture.js".

Definition import_statement (name : jsstr) : jsstr :=
  lit "import { " ++ name ++ lit "Page } from '../pages/" ++ name ++ lit "Page.js';".

Definition fixture_definition (name : jsstr) : jsstr :=
  lit "    " ++ Normalizer.toCamelCase name
    ++ lit "Page: async ({ page }, use) => { await use(new " ++ name
    ++ lit "Page(page)); },".

(** The content the fixture file is rebuilt with. *)
Definition baseFixture (names : list jsstr) : jsstr :=
  if 0 <? length names then
    let importStatements := join newline (import_statement <$> names) in
    let fixtureDefinitions := join newline (fixture_definition <$> names) in
    lit "import { test as baseTest } from '@playwright/test';" ++ newline
      ++ (if 0 <? length importStatements then importStatements ++ newline else [])
      ++ newline ++ lit "const test = baseTest.extend({" ++ newline
      ++ (if 0 <? length fixtureDefinitions then fixtureDefinitions ++ newline else [])
      ++ lit "});" ++ newline ++ newline ++ lit "export default test;" ++ newline
  else
    lit "import { test as baseTest } from '@playwright/test';" ++ newline ++ newline
      ++ lit "const test = baseTest.extend({});" ++ newline ++ newline
      ++ lit "export default test;" ++ newline.

(** The value of one entry after the loop over the files.  The content is
    kept should the loop over the lines not end. *)
Definition process_entry (testDataArray : list ScenarioGroup)
    (filePath fileContent : jsstr) : jsstr :=
  if is_test_file filePath
  then match process_test_file testDataArray filePath fileContent with
       | Some (content, _) => content
       | None => fileContent
       end
  else fileContent.

(** The post-processing of [aiGeneratedStructure], a mapping from file
    paths to contents (the values of the parsed answer are taken to be
    strings, as a file set has them). *)
Definition postProcess (testDataArray : list ScenarioGroup) (names : list jsstr)
    (aiGeneratedStructure : gmap jsstr jsstr) : gmap jsstr jsstr :=
  let processed := map_imap (λ filePath fileContent,
                      Some (process_entry testDataArray filePath fileContent))
                    aiGeneratedStructure in
  match processed !! fixturePath with
  | Some content =>
      if truthy content then <[fixturePath := baseFixture names]> processed
      else processed
  | None => processed
  end.

(** [generateCode] computes the names from the groups it is given. *)
Definition postProcessGenerated (testDataArray : list ScenarioGroup)
    (aiGeneratedStructure : gmap jsstr jsstr) : gmap jsstr jsstr :=
  postProcess testDataArray (pageObjectNames testDataArray) aiGeneratedStructure.

End WithCaseMapping.
End PostProcessor.

(** ** server/generateFromJSON.js: the groups that are generated from, and
    the files that are written *)

Module Generate.

(** [group.scenario ? group.scenario.trim() : ''] *)
Definition scenarioTitle (group : ScenarioGroup) : jsstr :=
  if truthy (scenario group) then trim (scenario group) else [].

(** The callback of [testData.filter]: whether the group is kept. *)
Definition kept (group : ScenarioGroup) : bool :=
  let camelCaseScenario := Normalizer.toCamelCase (scenarioTitle group) in
  if JS.eqb (scenarioTitle group) (lit "Generic Feature")
     || JS.eqb camelCaseScenario (lit "genericFeature")
     || JS.eqb (scenarioTitle group) []
  then false else true.

Definition filter_test_data (testData : list ScenarioGroup) : list ScenarioGroup :=
  filter (λ group, kept group = true) testData.

(** Whether a generated file with a string for its content is written:
    [content && typeof content === 'string' && content.trim().length > 10]. *)
Definition written (content : jsstr) : bool :=
  truthy content && (10 <? length (trim content)).

End Generate.

(** ** server/index.js: the rows of the updated Excel file *)

Module Download.

(** The header row of the route [/download-excel]. *)
Definition headers : row :=
  Str ∘ lit <$> [ "Test Scenario"; "Test Case ID"; "Test Case Description";
                  "Detail Steps"; "Test Data"; "Expected Result";
                  "Testcase Priority" ]%string.

(** The row of a test case: the title goes to the description column, the
    steps are joined by line breaks. *)
Definition row_of (scenarioGroup : ScenarioGroup) (tc : TestCase) : row :=
  [ Str (scenario scenarioGroup);
    Str (or_else (id tc) []);
    Str (or_else (title tc) []);
    Str (join [10%N] (steps tc));
    Str (or_else (data tc) []);
    Str (or_else (expected tc) []);
    Str (or_else (priority tc) []) ].

(** The rows under the header row of [dataForSheet], the array of arrays
    the sheet is made of. *)
Definition rows (testData : list ScenarioGroup) : list row :=
  testData ≫= λ scenarioGroup, row_of scenarioGroup <$> tests scenarioGroup.

Definition dataForSheet (testData : list ScenarioGroup) : list row :=
  headers :: rows testData.

End Download.

(** ** client/ai-suggestions-ui.js: adding the selected suggestions *)

Module Suggestions.
Section WithCaseMapping.
Context {CM : CaseMapping}.

(** A checked box: the scenario title and the test case of its data
    attributes.  The test case is taken to have a string for its id and
    for its title, as the suggestions of the server have. *)
Record selection := {
  scenarioTitle : jsstr;
  testCaseData : TestCase
}.

(** [targetScenario.tests.some(existingTc => existingTc.id === testCaseData.id
    || existingTc.title === testCaseData.title)] *)
Definition isDuplicate (targetScenario : ScenarioGroup) (testCaseData : TestCase) : bool :=
  existsb (λ existingTc, JS.eqb (id existingTc) (id testCaseData)
                         || JS.eqb (title existingTc) (title testCaseData))
    (tests targetScenario).

(** [targetScenario.tests.push(testCaseData)] *)
Definition push (targetScenario : ScenarioGroup) (testCaseData : TestCase) : ScenarioGroup :=
  {| page := page targetScenario; scenario := scenario targetScenario;
     shortFeatureName := shortFeatureName targetScenario;
     tests := tests targetScenario ++ [testCaseData] |}.

(** One turn of [selectedCheckboxes.forEach], on the array
    [window.currentParsedExcelData] and the counter [newlyAddedCount].  The
    target is an object of the array (the first group with the title, or
    the one just pushed at its end) and is changed in place: the model
    keeps its index. *)
Definition add_one (st : list ScenarioGroup * nat) (checkbox : selection)
    : list ScenarioGroup * nat :=
  let '(currentParsedExcelData, newlyAddedCount) := st in
  let '(k, targetScenario, parsed) :=
    match list_find (λ s, scenario s = scenarioTitle checkbox) currentParsedExcelData with
    | Some (k, found) => (k, found, currentParsedExcelData)
    | None =>
        let created :=
          {| page := Client.toCamelCase (scenarioTitle checkbox);
             scenario := scenarioTitle checkbox;
             shortFeatureName := Client.toShortFeatureName (scenarioTitle checkbox);
             tests := [] |} in
        (length currentParsedExcelData, created, currentParsedExcelData ++ [created])
    end in
  if isDuplicate targetScenario (testCaseData checkbox)
  then (parsed, newlyAddedCount)
  else (<[k := push targetScenario (testCaseData checkbox)]> parsed, S newlyAddedCount).

(** The click on Add Selected: the array and the count of the status
    message afterwards. *)
Definition add_selected (currentParsedExcelData : list ScenarioGroup)
    (selectedCheckboxes : list selection) : list ScenarioGroup * nat :=
  foldl add_one (currentParsedExcelData, 0) selectedCheckboxes.

End WithCaseMapping.
End Suggestions.

(** ** Notions the statements below are worded with *)

Module Words.
Section WithCaseMapping.
Context {CM : CaseMapping}.

(** The scenario title a row states itself: its trimmed scenario cell, when
    that is a string with something else than white space. *)
Definition own_title (testScenarioColIndex : option nat) (r : row) : option jsstr :=
  match cell_at r testScenarioColIndex with
  | Str s => if truthy (trim s) then Some (trim s) else None
  | _ => None
  end.

(** The most recent title the rows state, if any. *)
Definition most_recent_title (testScenarioColIndex : option nat) (rows : list row)
    : option jsstr :=
  last (omap (own_title testScenarioColIndex) rows).

(** The title a row is grouped under: its own, else the most recent one of
    the rows before it. *)
Definition resolved_title (testScenarioColIndex : option nat) (before : list row)
    (r : row) : option jsstr :=
  match own_title testScenarioColIndex r with
  | Some t => Some t
  | None => most_recent_title testScenarioColIndex before
  end.

(** The tests of the group with a key, none when there is no such group. *)
Definition tests_of (key : jsstr) (m : Parser.grouped) : list TestCase :=
  match Parser.get key m with
  | Some g => tests g
  | None => []
  end.

(** A case mapping agrees with Unicode on Basic Latin text, as that of every
    engine does: there only the letters A-Z and a-z change. *)
Definition is_basic_latin (s : jsstr) : bool := forallb (λ c, (c <? 128)%N) s.

Definition agrees_on_basic_latin : Prop :=
  ∀ s, is_basic_latin s = true →
       toLowerCase s = lower_unit <$> s ∧ toUpperCase s = upper_unit <$> s.

(** The titles the producer is not to make up. *)
Definition banned_substrings : list jsstr :=
  lit <$> ["Test for"; "Case"; "Funcitonality"; "Scenario"]%string.

(** The beginnings of the comments the keyword rules write. *)
Definition comment_prefixes : list jsstr :=
  lit <$> ["// Verify element is visible: "; "// Verify text content: ";
           "// Verify: "]%string.

(** The priority the validator reads in a row: the upper-cased trimmed
    cell when it is a string, the empty string otherwise; and whether it
    lets the row pass. *)
Definition priority_read (cols : Validator.columns) (r : row) : jsstr :=
  match cell_at r (Validator.testcasePriorityColIndex cols) with
  | Str s => toUpperCase (trim s)
  | _ => []
  end.

Definition priority_accepted (cols : Validator.columns) (r : row) : bool :=
  negb (truthy (priority_read cols r))
  || array_includes (priority_read cols r) Validator.valid_priorities.

(** Whether a row states a scenario title of its own. *)
Definition has_title (testScenarioColIndex : option nat) (r : row) : bool :=
  truthy (trimmed_string (cell_at r testScenarioColIndex)).

(** The row numbers of the warnings of the validator about a missing
    scenario, and of the rows the grouping loop skips for it. *)
Definition scenario_warnings (ws : list Validator.warning) : list nat :=
  omap (λ w, match w with Validator.ScenarioEmpty n => Some n | _ => None end) ws.

Definition skipped_for_scenario (console : list Parser.diagnostic) : list nat :=
  omap (λ d, match d with Parser.SkippedNoScenario n => Some n | _ => None end) console.

(** The number of rows at the head of the sheet that state no title. *)
Fixpoint leading_untitled (testScenarioColIndex : option nat) (rows : list row) : nat :=
  match rows with
  | [] => 0
  | r :: rest =>
      if has_title testScenarioColIndex r then 0
      else S (leading_untitled testScenarioColIndex rest)
  end.

(** The warning of the validator about a row without description, steps
    and expected result. *)
Definition incomplete_warning (cols : Validator.columns) (i : nat) (r : row)
    : list Validator.warning :=
  if negb (truthy (trimmed_string (cell_at r (Validator.testCaseDescriptionColIndex cols))))
     && negb (truthy (trimmed_string (cell_at r (Validator.detailStepsColIndex cols))))
     && negb (truthy (trimmed_string (cell_at r (Validator.expectedResultColIndex cols))))
  then [Validator.RowIncomplete (i + 2)] else [].

(** The value of [hasAtLeastOneValidScenario] after the rows, from its
    value and the carried title before them. *)
Definition scanned_has (idx : option nat) (last : option jsstr) (has : bool)
    (rows : list row) : bool :=
  has
  || match last, rows with Some _, _ :: _ => true | _, _ => false end
  || existsb (has_title idx) rows.

(** The carried title, when there is one, is not empty. *)
Definition titled (last : option jsstr) : Prop :=
  ∀ t, last = Some t → truthy t = true.

(** The number of tests in all the groups. *)
Definition total_tests (m : list ScenarioGroup) : nat :=
  sum_list (length ∘ tests <$> m).

(** What the loop makes of a row: a test with a title, whose title is its
    description when it has one, and whose steps are trimmed, non-empty and
    on one line each. *)
Definition well_formed_test (tc : TestCase) : Prop :=
  truthy (title tc) = true
  ∧ (description tc = [] ∨ title tc = description tc)
  ∧ Forall (λ s, truthy s = true ∧ trim s = s ∧ (10%N ∉ s)) (steps tc).

(** What the loop makes of a scenario: a group under a trimmed, non-empty
    title, named after it, with at least one test. *)
Definition well_formed_group (g : ScenarioGroup) : Prop :=
  truthy (scenario g) = true
  ∧ trim (scenario g) = scenario g
  ∧ page g = Normalizer.toCamelCase (scenario g)
  ∧ truthy (page g) = true
  ∧ shortFeatureName g = Normalizer.toShortFeatureName (scenario g)
  ∧ (0 <? length (tests g)) = true
  ∧ Forall well_formed_test (tests g).

(** The invariant of the grouping loop: the carried title is trimmed, the
    groups are well formed, and no key occurs twice. *)
Definition loop_invariant (st : Parser.state) : Prop :=
  (∀ T, Parser.lastValidScenarioTitle st = Some T → trim T = T)
  ∧ Forall well_formed_group (Parser.groupedMap st)
  ∧ NoDup (shortFeatureName <$> Parser.groupedMap st).

(** How many columns have a given header, and whether a cell is something
    else than a string, [undefined] or [null]. *)
Definition header_count (name : jsstr) (trimmedHeaders : list jsstr) : nat :=
  length (filter (λ h, JS.eqb h name = true) trimmedHeaders).

Definition is_other (v : cell) : bool :=
  match v with Other _ => true | _ => false end.

(** The tests of all the groups. *)
Definition all_tests (m : list ScenarioGroup) : list TestCase := m ≫= tests.

(** What one turn of the loop over the lines hands on for the line [x]
    when [k] case declarations have been given a test: the line with the
    title of its describe block corrected and, when it is a case
    declaration and the group has a test of index [k], with the title the
    pattern captures corrected for that test; and the count afterwards.
    This is the turn of the loop without the injection. *)
Definition handed_line (sc : ScenarioGroup) (k : nat) (x : jsstr) : jsstr * nat :=
  let line := PostProcessor.correct_describe (scenario sc) x in
  match Regex.exec Regex.testRegex line, tests sc !! k with
  | Some testMatch, Some currentTestCase =>
      (PostProcessor.correct_test currentTestCase (Regex.group testMatch 2) line, k + 1)
  | _, _ => (line, k)
  end.

Fixpoint handed_lines (sc : ScenarioGroup) (k : nat) (kept : list jsstr)
    : list jsstr * nat :=
  match kept with
  | [] => ([], k)
  | x :: rest =>
      let '(l, k') := handed_line sc k x in
      let '(ls, k'') := handed_lines sc k' rest in
      (l :: ls, k'')
  end.

(** The invariant of the loop over the lines of the file [lines0]: the
    lines from the counter on are lines of the file as they were, and what
    has been handed on so far is what the turns without injection hand on
    for lines of the file before them. *)
Definition handed_on (sc : ScenarioGroup) (lines0 : list jsstr)
    (st : PostProcessor.loop_state) : Prop :=
  ∃ k kept,
    PostProcessor.i st ≤ length (PostProcessor.lines st)
    ∧ drop (PostProcessor.i st) (PostProcessor.lines st) = drop k lines0
    ∧ kept `sublist_of` take k lines0
    ∧ handed_lines sc 0 kept
      = (PostProcessor.newLines st, PostProcessor.testCaseCounter st).

(** No title of the group has a line break in it. *)
Definition titles_on_one_line (sc : ScenarioGroup) : Prop :=
  (10%N ∉ scenario sc)
  ∧ Forall (λ tc, 10%N ∉ PostProcessor.exactTestTitle tc) (tests sc).

(** What [processDataWithNlp] makes of the groups it is given: the same
    groups in the same order, under the same names, with the same tests,
    each test with the analysis of its expected result the service has
    returned, if any. *)
Definition enriched_test (tc tc' : TestCase) : Prop :=
  id tc' = id tc ∧ title tc' = title tc ∧ description tc' = description tc
  ∧ steps tc' = steps tc ∧ data tc' = data tc ∧ expected tc' = expected tc
  ∧ priority tc' = priority tc.

Definition enriched (testData processedData : list ScenarioGroup) : Prop :=
  Forall2 (λ g g', page g' = page g ∧ scenario g' = scenario g
                   ∧ shortFeatureName g' = shortFeatureName g
                   ∧ Forall2 enriched_test (tests g) (tests g'))
    testData processedData.

(** A plan that has grown out of another: every group is where it was,
    under its names, with the tests it had at the head of its tests. *)
Definition extends (before after : list ScenarioGroup) : Prop :=
  ∀ k g, before !! k = Some g →
    ∃ g', after !! k = Some g'
          ∧ page g' = page g ∧ scenario g' = scenario g
          ∧ shortFeatureName g' = shortFeatureName g
          ∧ tests g `prefix_of` tests g'.

(** A checked box whose test case the plan has already: the first group
    with its title has a test with its id or its title. *)
Definition covered (plan : list ScenarioGroup) (checkbox : Suggestions.selection) : Prop :=
  ∃ k g, list_find (λ s, scenario s = Suggestions.scenarioTitle checkbox) plan = Some (k, g)
         ∧ Suggestions.isDuplicate g (Suggestions.testCaseData checkbox) = true.

(** A test and a group as they are after the exported rows have been read
    back: the description is the title. *)
Definition reimported_test (tc : TestCase) : TestCase :=
  {| id := id tc; title := title tc; description := title tc; steps := steps tc;
     data := data tc; expected := expected tc; priority := priority tc;
     nlpExpected := None |}.

Definition reimported (g : ScenarioGroup) : ScenarioGroup :=
  {| page := page g; scenario := scenario g; shortFeatureName := shortFeatureName g;
     tests := reimported_test <$> tests g |}.

(** A plan as the parser makes it of a valid sheet: well-formed groups
    under distinct keys, whose tests have trimmed fields and a priority
    that is empty or one of the three. *)
Definition exportable_test (tc : TestCase) : Prop :=
  well_formed_test tc
  ∧ trim (title tc) = title tc ∧ trim (id tc) = id tc
  ∧ trim (data tc) = data tc ∧ trim (expected tc) = expected tc
  ∧ priority tc ∈ [] :: Validator.valid_priorities.

Definition exportable (testData : list ScenarioGroup) : Prop :=
  NoDup (shortFeatureName <$> testData)
  ∧ Forall (λ g, well_formed_group g ∧ Forall exportable_test (tests g)) testData.

(** Whether a replacement text has one of the patterns that
    [String.prototype.replace] expands when the pattern is a string: a
    dollar sign followed by a dollar sign, an ampersand, a backtick or an
    apostrophe.  A dollar sign before anything else, as in a price, is
    copied. *)
Fixpoint has_replacement_pattern (repl : jsstr) : bool :=
  match repl with
  | [] => false
  | c :: t =>
      ((c =? 36)%N
       && match t with
          | d :: _ => (d =? 36)%N || (d =? 38)%N || (d =? 96)%N || (d =? 39)%N
          | [] => false
          end)
      || has_replacement_pattern t
  end.

(** A Basic Latin letter or digit: what a file-safe name is made of. *)
Definition is_alnum (c : N) : bool := is_lower c || is_upper c || is_digit c.

Definition alphanumeric (s : jsstr) : Prop := Forall (λ c, is_alnum c = true) s.

(** The words [toPascalCase] puts together. *)
Definition pascal_words (str : jsstr) : list jsstr :=
  filter (λ w, truthy w = true)
    (split 32 (filter (λ c, Normalizer.keeps_alnum_space c = true) str)).

(** A string with no white space but the space (no tab, line break or
    exotic blank). *)
Definition only_plain_spaces (s : jsstr) : Prop :=
  Forall (λ c, is_space c = true → c = 32%N) s.

(** The change of the depth counter over one line: one up when the line has
    an opening brace, one down when it has a closing brace. *)
Definition line_delta (line : jsstr) : Z :=
  ((if includes [ch "{"] line then 1 else 0)
   - (if includes [ch "}"] line then 1 else 0))%Z.

(** The depth after the first [n] of the lines that follow the
    declaration, from the depth [start] on the declaration. *)
Definition depth_after (start : Z) (rest : list jsstr) (n : nat) : Z :=
  foldl Z.add start (line_delta <$> take n rest).

(** What is left of the loop over the lines: the lines from [i] on. *)
Definition remaining (st : PostProcessor.loop_state) : nat :=
  length (PostProcessor.lines st) - PostProcessor.i st.

(** The lines of a rebuilt fixture file. *)
Definition fixture_lines (names : list jsstr) : list jsstr :=
  match names with
  | [] =>
      [ lit "import { test as baseTest } from '@playwright/test';"; [];
        lit "const test = baseTest.extend({});"; [];
        lit "export default test;"; [] ]
  | _ =>
      [ lit "import { test as baseTest } from '@playwright/test';" ]
      ++ (PostProcessor.import_statement <$> names)
      ++ [ []; lit "const test = baseTest.extend({" ]
      ++ (PostProcessor.fixture_definition <$> names)
      ++ [ lit "});"; []; lit "export default test;"; [] ]
  end.

(** The depth scan as the specification words it, every occurrence of a
    brace counted: the index after the first line at whose end the depth is
    0. *)
Definition occurrences (c : N) (line : jsstr) : Z :=
  Z.of_nat (length (filter (λ x, x = c) line)).

Fixpoint find_closing_by_occurrence (rest : list jsstr) (j : nat) (depth : Z)
    : option nat :=
  match rest with
  | [] => None
  | currentLine :: rest' =>
      let d := (depth + occurrences (ch "{") currentLine
                - occurrences (ch "}") currentLine)%Z in
      if (d =? 0)%Z then Some (j + 1)
      else find_closing_by_occurrence rest' (j + 1) d
  end.

End WithCaseMapping.
End Words.

(** ** Sample inputs

    The sheets, groups and generated files the statements below are
    evaluated on. *)

Module Samples.

Definition text (lines : list string) : jsstr := join [10%N] (lit <$> lines).

(** A header row with the six columns the validator asks for: it has no
    Test Case ID. *)
Definition headers_without_id : row :=
  Str ∘ lit <$> [ "Test Scenario"; "Test Case Description"; "Detail Steps";
                  "Test Data"; "Expected Result"; "Testcase Priority" ]%string.

Definition rows_without_id : list row :=
  [ Str ∘ lit <$> [ "Login"; "Valid login"; "Open the page"; "user=a";
                    "Dashboard is shown"; "P1" ]%string ].

(** The seven columns of the specification, and the same without Test
    Data. *)
Definition headers_all : row :=
  Str ∘ lit <$> [ "Test Scenario"; "Test Case ID"; "Test Case Description";
                  "Detail Steps"; "Test Data"; "Expected Result";
                  "Testcase Priority" ]%string.

Definition headers_without_test_data : row :=
  Str ∘ lit <$> [ "Testcase Priority"; "Test Scenario"; "Test Case ID";
                  "Test Case Description"; "Detail Steps"; "Expected Result" ]%string.

(** Two rows of a scenario, the second with a blank scenario cell. *)
Definition login_rows : list row :=
  [ Str ∘ lit <$> [ "Login"; "TC1"; "Valid login"; "Open the page"; "";
                    "Dashboard is shown"; "P1" ]%string;
    Str ∘ lit <$> [ ""; "TC2"; "Invalid login"; "Open the page"; "";
                    "An error is shown"; "p2" ]%string ].

Definition valid_login : TestCase :=
  {| id := lit "TC1"; title := lit "Valid login"; description := lit "Valid login";
     steps := [lit "Open the page"]; data := []; expected := lit "Dashboard is shown";
     priority := lit "P1"; nlpExpected := None |}.

Definition invalid_login : TestCase :=
  {| id := lit "TC2"; title := lit "Invalid login"; description := lit "Invalid login";
     steps := [lit "Open the page"]; data := []; expected := lit "An error is shown";
     priority := lit "P2"; nlpExpected := None |}.

Definition login_group : ScenarioGroup :=
  {| page := lit "login"; scenario := lit "Login"; shortFeatureName := lit "login";
     tests := [valid_login; invalid_login] |}.

(** A sheet with two priority columns: the validator reads the first, the
    grouping loop the last. *)
Definition headers_two_priorities : row :=
  Str ∘ lit <$> [ "Test Scenario"; "Test Case Description"; "Detail Steps";
                  "Test Data"; "Expected Result"; "Testcase Priority";
                  "Testcase Priority" ]%string.

Definition rows_two_priorities : list row :=
  [ Str ∘ lit <$> [ "Login"; "Valid login"; "Open the page"; "user=a";
                    "Dashboard is shown"; "P1"; "urgent" ]%string ].

(** A title with common words, a row with a priority that is none of the
    three, and a row that states no scenario. *)
Definition verify_login_title : jsstr := lit "Verify Login Page Functionality".

Definition row_with_bad_priority : row :=
  Str ∘ lit <$> [ "Login"; "TC3"; "Locked account"; "Open the page"; "";
                  "An error is shown"; "urgent" ]%string.

Definition row_without_scenario : row :=
  Str ∘ lit <$> [ ""; "TC0"; "Orphan"; "Open the page"; ""; "Nothing happens";
                  "P3" ]%string.

(** The state of the parser after the rows of the Login scenario. *)
Definition login_state : Parser.state :=
  Parser.group_rows (CM := BasicLatin) (trimHeaders headers_all)
    (array_index_of (lit "Test Scenario") (trimHeaders headers_all))
    Parser.initial 0 login_rows.

(** A checked suggestion under a title of its own whose short feature name
    is that of the Login scenario. *)
Definition login_page_suggestion : Suggestions.selection :=
  {| Suggestions.scenarioTitle := lit "Login page";
     Suggestions.testCaseData :=
       {| id := lit "TC9"; title := lit "Remember me"; description := lit "Remember me";
          steps := [lit "Tick the box"]; data := []; expected := lit "The user stays logged in";
          priority := lit "P3"; nlpExpected := None |} |}.

(** A test whose title has a price in it. *)
Definition price_test : TestCase :=
  {| id := lit "TC7"; title := lit "Pay $5 now"; description := lit "Pay $5 now";
     steps := [lit "Open the shop"]; data := []; expected := []; priority := lit "P3";
     nlpExpected := None |}.

(** A group whose test has a title of two lines, and a generated file for
    it. *)
Definition two_line_group : ScenarioGroup :=
  {| page := lit "login"; scenario := lit "Login"; shortFeatureName := lit "login";
     tests := [ {| id := lit "TC1"; title := text ["Valid login"; "with a token"]%string;
                   description := text ["Valid login"; "with a token"]%string;
                   steps := [lit "Open the page"]; data := []; expected := [];
                   priority := lit "P1"; nlpExpected := None |} ] |}.

Definition two_line_spec : jsstr :=
  text [ "import test from '../testFixtures/baseFixture.js';";
         "test.describe('Login', () => {";
         "  test('Valid login', async ({ page }) => {});";
         "});" ]%string.

(** The Login group as the analysis step hands it on, its first test with
    an analysis of its expected result; and a row of a scenario titled
    Generic Feature. *)
Definition login_group_analysed : ScenarioGroup :=
  {| page := lit "login"; scenario := lit "Login"; shortFeatureName := lit "login";
     tests :=
       [ {| id := lit "TC1"; title := lit "Valid login"; description := lit "Valid login";
            steps := [lit "Open the page"]; data := [];
            expected := lit "Dashboard is shown"; priority := lit "P1";
            nlpExpected :=
              Some {| action := lit "verify"; target := lit "Dashboard";
                      validationType := lit "visibility"; expectedValue := [];
                      url := [] |} |};
         invalid_login ] |}.

Definition generic_feature_row : row :=
  Str ∘ lit <$> [ "Generic Feature"; "TC1"; "Valid login"; "Open the page"; "";
                  "Dashboard is shown"; "P1" ]%string.

(** A scenario title without a Basic Latin letter or digit (two CJK
    characters), and the rows of its scenario. *)
Definition cjk_title : jsstr := [30331%N; 24405%N].

Definition cjk_rows : list row :=
  [ [ Str cjk_title; Str (lit "TC1"); Str (lit "Valid login"); Str (lit "Open the page");
      Str []; Str (lit "Dashboard is shown"); Str (lit "P1") ];
    [ Str []; Str (lit "TC2"); Str (lit "Invalid login"); Str (lit "Open the page");
      Str []; Str (lit "An error is shown"); Str (lit "P2") ] ].

(** A row with an empty description. *)
Definition row_without_description : row :=
  Str ∘ lit <$> [ "Login"; "TC1"; ""; "Open the page"; ""; "Dashboard is shown";
                  "P1" ]%string.

(** A generated test file with one case, whose body has no assertion. *)
Definition login_spec : jsstr :=
  text [ "import test from '../testFixtures/baseFixture.js';";
         "test.describe('Login', () => {";
         "  test('Valid login test', async ({ page }) => {";
         "    await page.goto('/login');";
         "    await page.click('#submit');";
         "  });";
         "});" ]%string.

(** What the post-processing makes of it. *)
Definition login_spec_processed : jsstr :=
  text [ "import test from '../testFixtures/baseFixture.js';";
         "test.describe('Login', () => {";
         "  test('@smoke @reg Valid login', async ({ page }) => {";
         "  });";
         "});" ]%string.

(** The array of lines after the assertion of the case is spliced in. *)
Definition login_spec_spliced : list jsstr :=
  lit <$> [ "import test from '../testFixtures/baseFixture.js';";
            "test.describe('Login', () => {";
            "  test('Valid login test', async ({ page }) => {";
            "    await page.goto('/login');";
            "    await page.click('#submit');";
            "      // Verify: Dashboard is shown";
            "  });";
            "});" ]%string.

(** A generated test file whose first case has the title "test". *)
Definition titled_test_spec : jsstr :=
  text [ "import test from '../testFixtures/baseFixture.js';";
         "test.describe('Login', () => {";
         "  test('test', async ({ page }) => {";
         "    await expect(page).toHaveURL('/home');";
         "  });";
         "  test('@sanity @reg Invalid login', async ({ page }) => {";
         "    await expect(page.locator('.error')).toBeVisible();";
         "  });";
         "});" ]%string.

Definition titled_test_spec_once : jsstr :=
  text [ "import test from '../testFixtures/baseFixture.js';";
         "test.describe('Login', () => {";
         "  @smoke @reg Valid login('test', async ({ page }) => {";
         "    await expect(page).toHaveURL('/home');";
         "  });";
         "  test('@sanity @reg Invalid login', async ({ page }) => {";
         "    await expect(page.locator('.error')).toBeVisible();";
         "  });";
         "});" ]%string.

Definition titled_test_spec_twice : jsstr :=
  text [ "import test from '../testFixtures/baseFixture.js';";
         "test.describe('Login', () => {";
         "  @smoke @reg Valid login('test', async ({ page }) => {";
         "    await expect(page).toHaveURL('/home');";
         "  });";
         "  test('@smoke @reg Valid login', async ({ page }) => {";
         "    await expect(page.locator('.error')).toBeVisible();";
         "  });";
         "});" ]%string.

(** The lines of a case whose body opens two braces on one line. *)
Definition nested_braces : list jsstr :=
  lit <$> [ "  test('Valid login', async ({ page }) => {";
            "    const cfg = { a: { b: 1 },";
            "      c: 2 };";
            "    await page.goto(cfg.c);";
            "  });" ]%string.

Definition redirect_text : jsstr :=
  lit "User is redirected to https://app.example.com/dashboard".

Definition redirected : TestCase :=
  {| id := lit "TC3"; title := lit "Redirect"; description := lit "Redirect";
     steps := []; data := []; expected := redirect_text;
     priority := lit "P3"; nlpExpected := None |}.

(** The state of the loop over the lines of [login_spec] on the line of its
    case declaration. *)
Definition on_declaration : PostProcessor.loop_state :=
  {| PostProcessor.lines := split 10 login_spec;
     PostProcessor.newLines := take 2 (split 10 login_spec);
     PostProcessor.i := 2;
     PostProcessor.testCaseCounter := 0;
     PostProcessor.warnings := [] |}.

Definition declaration_match : Regex.result :=
  default {| Regex.index := 0; Regex.matched := []; Regex.groups := [] |}
    (Regex.exec Regex.testRegex (lit "  test('Valid login test', async ({ page }) => {")).

(** File sets. *)
Definition files_with_fixture : gmap jsstr jsstr :=
  {[ lit "pages/LoginPage.js" := lit "export class LoginPage {}";
     lit "tests/login.spec.js" := login_spec;
     PostProcessor.fixturePath := lit "// to be filled in" ]}.

Definition files_with_empty_fixture : gmap jsstr jsstr :=
  {[ PostProcessor.fixturePath := [] ]}.

End Samples.

(** * Properties *)

(** ** Strings *)

Lemma truthy_nonempty (s : jsstr) : truthy s = true ↔ s ≠ [].
Proof. destruct s; simpl; split; congruence. Qed.

Lemma or_else_truthy (a b : jsstr) : truthy b = true → truthy (or_else a b) = true.
Proof. unfold or_else. destruct (truthy a) eqn:E; auto. Qed.

Lemma eqb_eq (a b : jsstr) : JS.eqb a b = true ↔ a = b.
Proof. unfold JS.eqb. apply bool_decide_eq_true. Qed.

Lemma eqb_neq (a b : jsstr) : JS.eqb a b = false ↔ a ≠ b.
Proof. unfold JS.eqb. apply bool_decide_eq_false. Qed.

(** ** The short feature name is never empty *)

Section NormalizerFacts.
Context {CM : CaseMapping}.

Lemma genericFeature_truthy : truthy Normalizer.genericFeature = true.
Proof. reflexivity. Qed.

Lemma server_short_name_truthy (scenarioTitle : jsstr) :
  truthy (Normalizer.toShortFeatureName scenarioTitle) = true.
Proof.
  unfold Normalizer.toShortFeatureName.
  destruct (Normalizer.significant_words scenarioTitle);
    repeat apply or_else_truthy; apply genericFeature_truthy.
Qed.

Lemma client_short_name_truthy (scenarioTitle : jsstr) :
  truthy (Client.toShortFeatureName scenarioTitle) = true.
Proof.
  unfold Client.toShortFeatureName.
  destruct (Client.significant_words scenarioTitle);
    repeat apply or_else_truthy; apply genericFeature_truthy.
Qed.

(** The two copies of the function leave out the same common words. *)
Lemma common_words_agree (w : jsstr) : Normalizer.is_common w = Client.is_common w.
Proof.
  assert (H1 : Forall (λ x, x ∈ Client.commonWords) Normalizer.commonWords).
  { apply (bool_decide_unpack _). vm_compute. exact I. }
  assert (H2 : Forall (λ x, x ∈ Normalizer.commonWords) Client.commonWords).
  { apply (bool_decide_unpack _). vm_compute. exact I. }
  rewrite Forall_forall in H1, H2.
  unfold Normalizer.is_common, Client.is_common.
  apply bool_decide_ext. split; auto.
Qed.

End NormalizerFacts.

(** ** The map of the groups *)

Section ParserFacts.
Context {CM : CaseMapping}.

Lemma has_get (key : jsstr) (m : Parser.grouped) :
  Parser.has key m = true ↔ is_Some (Parser.get key m).
Proof.
  unfold Parser.has. destruct (Parser.get key m); split; intros H; eauto.
  - discriminate.
  - destruct H; discriminate.
Qed.

Lemma get_key (key : jsstr) (m : Parser.grouped) (g : ScenarioGroup) :
  Parser.get key m = Some g → shortFeatureName g = key.
Proof.
  induction m as [|h t IH]; simpl; [discriminate|].
  destruct (JS.eqb (shortFeatureName h) key) eqn:E; auto.
  intros [= <-]. by apply eqb_eq.
Qed.

Lemma get_set_fresh (key : jsstr) (g : ScenarioGroup) (m : Parser.grouped) :
  Parser.get key m = None → shortFeatureName g = key →
  Parser.get key (Parser.set key g m) = Some g.
Proof.
  intros Hnone Hg. induction m as [|h t IH]; simpl in *.
  - rewrite (proj2 (eqb_eq _ _) Hg). done.
  - destruct (JS.eqb (shortFeatureName h) key) eqn:E; [discriminate|].
    simpl. rewrite E. auto.
Qed.

Lemma get_set_other (key k : jsstr) (g : ScenarioGroup) (m : Parser.grouped) :
  k ≠ key → shortFeatureName g = key →
  Parser.get k (Parser.set key g m) = Parser.get k m.
Proof.
  intros Hne Hg. induction m as [|h t IH]; simpl.
  - rewrite (proj2 (eqb_neq (shortFeatureName g) k)); [done|congruence].
  - destruct (JS.eqb (shortFeatureName h) key) eqn:E; simpl.
    + apply eqb_eq in E.
      rewrite (proj2 (eqb_neq (shortFeatureName g) k)) by congruence.
      rewrite (proj2 (eqb_neq (shortFeatureName h) k)) by congruence. done.
    + destruct (JS.eqb (shortFeatureName h) k); auto.
Qed.

Lemma get_push_test (key : jsstr) (tc : TestCase) (m : Parser.grouped) (g : ScenarioGroup) :
  Parser.get key m = Some g →
  Parser.get key (Parser.push_test key tc m)
  = Some {| page := page g; scenario := scenario g;
            shortFeatureName := shortFeatureName g; tests := tests g ++ [tc] |}.
Proof.
  induction m as [|h t IH]; simpl; [discriminate|].
  destruct (JS.eqb (shortFeatureName h) key) eqn:E; simpl.
  - intros [= <-]. by rewrite E.
  - rewrite E. auto.
Qed.

Lemma get_push_test_other (key k : jsstr) (tc : TestCase) (m : Parser.grouped) :
  k ≠ key → Parser.get k (Parser.push_test key tc m) = Parser.get k m.
Proof.
  intros Hne. induction m as [|h t IH]; simpl; [done|].
  destruct (JS.eqb (shortFeatureName h) key) eqn:E; simpl.
  - apply eqb_eq in E.
    by rewrite (proj2 (eqb_neq (shortFeatureName h) k)) by congruence.
  - destruct (JS.eqb (shortFeatureName h) k); auto.
Qed.

Lemma Forall_set (P : ScenarioGroup → Prop) (key : jsstr) (g : ScenarioGroup)
    (m : Parser.grouped) :
  P g → Forall P m → Forall P (Parser.set key g m).
Proof.
  intros Hg. induction 1 as [|h t Hh Ht IH]; simpl; [by constructor|].
  destruct (JS.eqb (shortFeatureName h) key); by constructor.
Qed.

Lemma Forall_push_test (key : jsstr) (tc : TestCase) (m : Parser.grouped) :
  Forall (λ g, truthy (shortFeatureName g) = true) m →
  Forall (λ g, truthy (shortFeatureName g) = true) (Parser.push_test key tc m).
Proof.
  induction 1 as [|h t Hh Ht IH]; simpl; [by constructor|].
  destruct (JS.eqb (shortFeatureName h) key); by constructor.
Qed.

Lemma group_row_keys (hs : list jsstr) (idx : option nat) (st : Parser.state)
    (rowIndex : nat) (r : row) :
  Forall (λ g, truthy (shortFeatureName g) = true) (Parser.groupedMap st) →
  Forall (λ g, truthy (shortFeatureName g) = true)
    (Parser.groupedMap (Parser.group_row hs idx st rowIndex r)).
Proof.
  intros Hst. unfold Parser.group_row.
  destruct (Parser.determine r idx (Parser.lastValidScenarioTitle st)) as [T|]; [|done].
  destruct (negb (truthy T)); [done|].
  destruct (negb (truthy (Normalizer.toCamelCase T))); [done|].
  simpl. apply Forall_push_test.
  destruct (Parser.has _ _); [done|].
  apply Forall_set; [|done]. apply server_short_name_truthy.
Qed.

Lemma group_rows_keys (hs : list jsstr) (idx : option nat) (rows : list row)
    (st : Parser.state) (rowIndex : nat) :
  Forall (λ g, truthy (shortFeatureName g) = true) (Parser.groupedMap st) →
  Forall (λ g, truthy (shortFeatureName g) = true)
    (Parser.groupedMap (Parser.group_rows hs idx st rowIndex rows)).
Proof.
  revert st rowIndex. induction rows as [|r rows IH]; intros st rowIndex Hst; simpl; [done|].
  apply IH. by apply group_row_keys.
Qed.

Lemma group_rows_app (hs : list jsstr) (idx : option nat) (rows1 rows2 : list row)
    (st : Parser.state) (rowIndex : nat) :
  Parser.group_rows hs idx st rowIndex (rows1 ++ rows2)
  = Parser.group_rows hs idx (Parser.group_rows hs idx st rowIndex rows1)
      (rowIndex + length rows1) rows2.
Proof.
  revert st rowIndex. induction rows1 as [|r rows1 IH]; intros st rowIndex; simpl.
  - by rewrite Nat.add_0_r.
  - rewrite IH. f_equal. lia.
Qed.

End ParserFacts.

(** C10: for every input string, and whatever the case mapping of the
    engine, [toShortFeatureName] returns a non-empty string, on the server
    and in the browser (its last resort is the literal "genericFeature").
    So every group the grouping loop builds has a non-empty key: no row is
    ever skipped for its short name. *)
Theorem short_feature_name_never_empty {CM : CaseMapping}
    (scenarioTitle : jsstr) (trimmedHeaders : list jsstr)
    (testScenarioColIndex : option nat) (dataRows : list row) :
  truthy (Normalizer.toShortFeatureName scenarioTitle) = true
  ∧ truthy (Client.toShortFeatureName scenarioTitle) = true
  ∧ Forall (λ g, truthy (shortFeatureName g) = true)
      (Parser.groupedMap
         (Parser.group_rows trimmedHeaders testScenarioColIndex Parser.initial 0 dataRows)).
Proof.
  split; [apply server_short_name_truthy|].
  split; [apply client_short_name_truthy|].
  apply group_rows_keys. constructor.
Qed.

(** ** Carry-forward grouping *)

Section GroupingFacts.
Context {CM : CaseMapping}.

Lemma determine_own_title (r : row) (idx : option nat) (last : option jsstr) :
  Parser.determine r idx last
  = match Words.own_title idx r with Some t => Some t | None => last end.
Proof.
  unfold Parser.determine, Words.own_title.
  destruct (cell_at r idx); try done. by destruct (truthy (trim s)).
Qed.

Lemma own_title_truthy (idx : option nat) (r : row) (t : jsstr) :
  Words.own_title idx r = Some t → truthy t = true.
Proof.
  unfold Words.own_title. destruct (cell_at r idx); try done.
  destruct (truthy (trim s)) eqn:E; [|done]. by intros [= <-].
Qed.

Lemma most_recent_title_truthy (idx : option nat) (rows : list row) (t : jsstr) :
  Words.most_recent_title idx rows = Some t → truthy t = true.
Proof.
  unfold Words.most_recent_title. intros H.
  assert (Hin : t ∈ omap (Words.own_title idx) rows).
  { apply last_Some in H as [l' ->]. set_solver. }
  apply list_elem_of_omap in Hin as (r & _ & Hr). by eapply own_title_truthy.
Qed.

Lemma group_row_last (hs : list jsstr) (idx : option nat) (st : Parser.state)
    (rowIndex : nat) (r : row) :
  Parser.lastValidScenarioTitle (Parser.group_row hs idx st rowIndex r)
  = Parser.determine r idx (Parser.lastValidScenarioTitle st).
Proof.
  unfold Parser.group_row.
  destruct (Parser.determine r idx (Parser.lastValidScenarioTitle st)) as [T|]; [|done].
  destruct (negb (truthy T)); [done|].
  by destruct (negb (truthy (Normalizer.toCamelCase T))).
Qed.

Lemma group_rows_last (hs : list jsstr) (idx : option nat) (rows : list row)
    (st : Parser.state) (rowIndex : nat) :
  Parser.lastValidScenarioTitle (Parser.group_rows hs idx st rowIndex rows)
  = match Words.most_recent_title idx rows with
    | Some t => Some t
    | None => Parser.lastValidScenarioTitle st
    end.
Proof.
  revert st rowIndex. induction rows as [|r rows IH]; intros st rowIndex; simpl; [done|].
  rewrite IH, group_row_last, determine_own_title.
  unfold Words.most_recent_title.
  change (omap (Words.own_title idx) (r :: rows))
    with (match Words.own_title idx r with
          | Some t => t :: omap (Words.own_title idx) rows
          | None => omap (Words.own_title idx) rows
          end).
  destruct (Words.own_title idx r) as [t|]; [|done].
  rewrite last_cons. by destruct (last (omap (Words.own_title idx) rows)).
Qed.

End GroupingFacts.

(** C9, as the code has it: the title carried to a row is the most recent
    title stated by the rows before it.  A row that states a title (a string
    cell that is not blank once trimmed) sets the carried title; a row that
    states none takes the carried one.  Under either, the row is appended to
    the group of that title's short name (a group created with the title if
    there was none) provided the title's camelCase form is not empty, and is
    skipped with a message otherwise; a row with no title of its own and
    none carried is skipped with a warning.  The loop is a total function:
    no row stops it. *)
Theorem carry_forward_grouping {CM : CaseMapping}
    (trimmedHeaders : list jsstr) (testScenarioColIndex : option nat)
    (before : list row) (r : row) :
  let st := Parser.group_rows trimmedHeaders testScenarioColIndex Parser.initial 0 before in
  let st' := Parser.group_row trimmedHeaders testScenarioColIndex st (length before) r in
  Parser.lastValidScenarioTitle st = Words.most_recent_title testScenarioColIndex before
  ∧ Parser.lastValidScenarioTitle st'
    = Words.resolved_title testScenarioColIndex before r
  ∧ match Words.resolved_title testScenarioColIndex before r with
    | Some T =>
        if truthy (Normalizer.toCamelCase T) then
          let key := Normalizer.toShortFeatureName T in
          Words.tests_of key (Parser.groupedMap st')
          = Words.tests_of key (Parser.groupedMap st)
              ++ [Parser.build_test trimmedHeaders r T
                    (length (Words.tests_of key (Parser.groupedMap st)))]
          ∧ scenario <$> Parser.get key (Parser.groupedMap st')
            = Some (default T (scenario <$> Parser.get key (Parser.groupedMap st)))
          ∧ (∀ k, k ≠ key →
               Parser.get k (Parser.groupedMap st') = Parser.get k (Parser.groupedMap st))
          ∧ Parser.console st' = Parser.console st
        else
          Parser.groupedMap st' = Parser.groupedMap st
          ∧ Parser.console st'
            = Parser.console st ++ [Parser.SkippedNoPageName (length before + 2) T]
    | None =>
        Parser.groupedMap st' = Parser.groupedMap st
        ∧ Parser.console st'
          = Parser.console st ++ [Parser.SkippedNoScenario (length before + 2)]
    end.
Proof.
  intros st st'.
  assert (Hlast : Parser.lastValidScenarioTitle st
                  = Words.most_recent_title testScenarioColIndex before).
  { unfold st. rewrite group_rows_last. simpl.
    by destruct (Words.most_recent_title testScenarioColIndex before). }
  assert (Hdet : Parser.determine r testScenarioColIndex (Parser.lastValidScenarioTitle st)
                 = Words.resolved_title testScenarioColIndex before r).
  { by rewrite determine_own_title, Hlast. }
  split; [done|]. split.
  { unfold st'. by rewrite group_row_last. }
  unfold st', Parser.group_row. rewrite Hdet.
  destruct (Words.resolved_title testScenarioColIndex before r) as [T|] eqn:HT; [|done].
  assert (HTne : truthy T = true).
  { unfold Words.resolved_title in HT.
    destruct (Words.own_title testScenarioColIndex r) as [t|] eqn:Hown.
    - injection HT as <-. by eapply own_title_truthy.
    - by eapply most_recent_title_truthy. }
  rewrite HTne. simpl.
  destruct (truthy (Normalizer.toCamelCase T)) eqn:Hcamel; simpl; [|done].
  set (key := Normalizer.toShortFeatureName T).
  unfold Words.tests_of, Parser.has.
  destruct (Parser.get key (Parser.groupedMap st)) as [g|] eqn:Hget; simpl.
  - rewrite Hget. erewrite get_push_test by done. simpl.
    repeat split; try done.
    intros k Hk. by apply get_push_test_other.
  - erewrite (get_set_fresh key) by done.
    erewrite get_push_test by (by apply get_set_fresh). simpl.
    repeat split; try done.
    intros k Hk. rewrite get_push_test_other by done. by apply get_set_other.
Qed.

(** ** Schema validation *)

Section ValidatorFacts.
Context {CM : CaseMapping}.

Lemma array_index_of_None (x : jsstr) (l : list jsstr) :
  array_index_of x l = None ↔ x ∉ l.
Proof.
  induction l as [|y t IH]; simpl.
  - split; [intros _; apply not_elem_of_nil|done].
  - destruct (JS.eqb y x) eqn:E.
    + apply eqb_eq in E as ->. split; [done|]. intros H. destruct H. left.
    + apply eqb_neq in E. rewrite not_elem_of_cons.
      destruct (array_index_of x t); simpl; split; try done.
      * intros [_ H]. by apply IH in H.
      * intros _. split; [congruence|]. by apply IH.
Qed.

Lemma array_includes_false (x : jsstr) (l : list jsstr) :
  array_includes x l = false ↔ x ∉ l.
Proof.
  rewrite <- array_index_of_None. unfold array_includes.
  destruct (array_index_of x l); split; congruence.
Qed.

Lemma first_missing_found (mandatory trimmedHeaders : list jsstr) (name : jsstr) :
  name ∈ mandatory → name ∉ trimmedHeaders →
  ∃ missing, Validator.first_missing mandatory trimmedHeaders = Some missing
             ∧ missing ∈ mandatory ∧ missing ∉ trimmedHeaders.
Proof.
  intros Hin Hout. induction mandatory as [|m rest IH]; [by apply elem_of_nil in Hin|].
  simpl. destruct (array_includes m trimmedHeaders) eqn:E.
  - apply elem_of_cons in Hin as [->|Hin].
    + apply array_includes_false in Hout. congruence.
    + destruct (IH Hin) as (x & ? & ? & ?). exists x. repeat split; try done. by right.
  - exists m. repeat split; [left|by apply array_includes_false].
Qed.

End ValidatorFacts.

Section ParseFacts.
Context {CM : CaseMapping}.

(** Past the check of the header row, the parse is the validation and the
    grouping loop. *)
Lemma parseRows_headers (headers : row) (dataRows : list row) :
  headers ≠ [] →
  Parser.parseRows headers dataRows
  = match (Validator.validateExcelSchema headers dataRows).2 with
    | inl e => inl (Parser.SchemaError e)
    | inr _ =>
        inr (Parser.group_rows (trimHeaders headers)
               (array_index_of (lit "Test Scenario") (trimHeaders headers))
               Parser.initial 0 dataRows)
    end.
Proof. intros Hne. unfold Parser.parseRows. by destruct headers. Qed.

(** A header row that passes the validator is not empty. *)
Lemma validated_headers (headers : row) (dataRows : list row) :
  (Validator.validateExcelSchema headers dataRows).2 = inr tt → headers ≠ [].
Proof. by intros Hval ->. Qed.

Lemma mandatory_headers (headers : row) :
  Forall (λ name, name ∈ trimHeaders headers) Validator.MANDATORY_HEADERS → headers ≠ [].
Proof.
  intros Hall ->. apply Forall_cons in Hall as [Hin _]. by apply elem_of_nil in Hin.
Qed.

(** A parse that succeeds has passed the validator. *)
Lemma parseRows_inr (headers : row) (dataRows : list row) (st : Parser.state) :
  Parser.parseRows headers dataRows = inr st →
  headers ≠ []
  ∧ (Validator.validateExcelSchema headers dataRows).2 = inr tt
  ∧ st = Parser.group_rows (trimHeaders headers)
           (array_index_of (lit "Test Scenario") (trimHeaders headers))
           Parser.initial 0 dataRows.
Proof.
  intros Hparse. destruct headers as [|h headers]; [done|].
  rewrite parseRows_headers in Hparse by done.
  destruct (Validator.validateExcelSchema (h :: headers) dataRows).2 as [e|[]]; [done|].
  injection Hparse as <-. done.
Qed.

End ParseFacts.

(** C1, as the code has it: the mandatory names of the validator are six,
    and Test Case ID is not one of them.  Whenever one of Test Scenario,
    Test Case Description, Detail Steps, Test Data, Expected Result,
    Testcase Priority is absent from the trimmed header row, whatever the
    order of the headers and whatever the data rows, the validator throws
    the error of a missing column before it looks at any row (no warning is
    written).  The parse then fails before any grouping: with that error of
    the validator, or, when the header row is empty, with its own error of
    an empty header row, thrown before the validator is called. *)
Theorem missing_mandatory_column {CM : CaseMapping}
    (headers : row) (dataRows : list row) (name : jsstr) :
  name ∈ Validator.MANDATORY_HEADERS →
  name ∉ trimHeaders headers →
  ∃ missing,
    missing ∈ Validator.MANDATORY_HEADERS
    ∧ (missing ∉ trimHeaders headers)
    ∧ Validator.validateExcelSchema headers dataRows
      = ([], inl (Validator.MissingColumn missing))
    ∧ Parser.parseRows headers dataRows
      = inl (match headers with
             | [] => Parser.HeaderRowEmpty
             | _ :: _ => Parser.SchemaError (Validator.MissingColumn missing)
             end).
Proof.
  intros Hin Hout.
  destruct (first_missing_found _ _ _ Hin Hout) as (missing & Hfirst & Hm & Hn).
  assert (Hval : Validator.validateExcelSchema headers dataRows
                 = ([], inl (Validator.MissingColumn missing))).
  { unfold Validator.validateExcelSchema. by rewrite Hfirst. }
  exists missing. split; [done|]. split; [done|]. split; [done|].
  destruct headers as [|h headers]; [done|].
  rewrite parseRows_headers by done. by rewrite Hval.
Qed.

(** ** The loop over the lines ends *)

Section LoopFacts.
Context {CM : CaseMapping}.

Lemma find_closing_bounds (rest : list jsstr) (j : nat) (braceCount : Z) (j' : nat) :
  PostProcessor.find_closing rest j braceCount = Some j' →
  j < j' ∧ j' ≤ j + length rest.
Proof.
  revert j braceCount. induction rest as [|l rest IH]; intros j b; simpl; [done|].
  destruct (_ =? 0)%Z.
  - intros [= <-]. lia.
  - intros H. apply IH in H. lia.
Qed.

Lemma length_splice (lines : list jsstr) (n : nat) (x : jsstr) :
  length (PostProcessor.splice lines n x) = S (length lines).
Proof.
  unfold PostProcessor.splice.
  rewrite length_app. simpl. rewrite length_take, length_drop. lia.
Qed.

Lemma inject_cases (tc : TestCase) (lines : list jsstr) (i : nat) :
  (∃ ws, PostProcessor.inject tc lines i = (lines, i, ws))
  ∨ (∃ j, PostProcessor.find_closing (drop (i + 1) lines) (i + 1) 1 = Some j
          ∧ PostProcessor.inject tc lines i
            = (PostProcessor.splice lines (j - 1)
                 (lit "      " ++ PostProcessor.assertionCode tc lines i), j - 1, [])).
Proof.
  unfold PostProcessor.inject.
  destruct (truthy (expected tc) && truthy (trim (expected tc))); [|left; eauto].
  destruct (truthy (PostProcessor.assertionCode tc lines i)); [|left; eauto].
  destruct (PostProcessor.find_closing _ _ _) as [j|] eqn:E; [right|left]; eauto.
Qed.

Lemma iteration_decreases (sc : ScenarioGroup) (st : PostProcessor.loop_state) :
  PostProcessor.i st < length (PostProcessor.lines st) →
  Words.remaining (PostProcessor.iteration sc st) < Words.remaining st.
Proof.
  intros Hi. unfold Words.remaining, PostProcessor.iteration.
  destruct (Regex.exec _ _) as [m|]; [|simpl; lia].
  destruct (_ !! _) as [tc|]; [|simpl; lia].
  destruct (inject_cases tc (PostProcessor.lines st) (PostProcessor.i st))
    as [[ws ->]|(j & Hj & ->)]; simpl; [lia|].
  apply find_closing_bounds in Hj. rewrite length_drop in Hj.
  rewrite length_splice. lia.
Qed.

Lemma for_loop_total (sc : ScenarioGroup) (fuel : nat) (st : PostProcessor.loop_state) :
  Words.remaining st ≤ fuel → is_Some (PostProcessor.for_loop fuel sc st).
Proof.
  revert st. induction fuel as [|fuel IH]; intros st Hfuel; simpl.
  - destruct (length (PostProcessor.lines st) <=? PostProcessor.i st) eqn:E; [eauto|].
    apply Nat.leb_gt in E. unfold Words.remaining in Hfuel. lia.
  - destruct (length (PostProcessor.lines st) <=? PostProcessor.i st) eqn:E; [eauto|].
    apply Nat.leb_gt in E. apply IH.
    pose proof (iteration_decreases sc st E). lia.
Qed.

(** X1: the loop over the lines of a test file ends, although it splices
    lines into the array it runs over and sets its own counter: what is left
    of the array after the counter shrinks at every turn.  So the
    post-processing of a test file gives a result for every group list, path
    and content. *)
Theorem process_test_file_total (testDataArray : list ScenarioGroup)
    (filePath fileContent : jsstr) :
  is_Some (PostProcessor.process_test_file testDataArray filePath fileContent).
Proof.
  unfold PostProcessor.process_test_file.
  destruct (PostProcessor.find_scenario _ _) as [sc|]; [|eauto].
  set (st0 := {| PostProcessor.lines := _ |}).
  destruct (for_loop_total sc (length (PostProcessor.fix_import (split 10 fileContent))) st0)
    as [st Hst].
  - unfold Words.remaining, st0. simpl. lia.
  - rewrite Hst. simpl. eauto.
Qed.

End LoopFacts.

(** ** The file set: what the post-processing may change *)

Section FileSetFacts.
Context {CM : CaseMapping}.

Lemma fixture_is_no_test_file : PostProcessor.is_test_file PostProcessor.fixturePath = false.
Proof. reflexivity. Qed.

Lemma is_test_file_prefix (filePath : jsstr) :
  starts_with (lit "tests/") filePath = false → PostProcessor.is_test_file filePath = false.
Proof. unfold PostProcessor.is_test_file. by intros ->. Qed.

Lemma processed_lookup (groups : list ScenarioGroup) (files : gmap jsstr jsstr) (k : jsstr) :
  map_imap (λ filePath fileContent,
              Some (PostProcessor.process_entry groups filePath fileContent)) files !! k
  = PostProcessor.process_entry groups k <$> files !! k.
Proof. rewrite map_lookup_imap. by destruct (files !! k). Qed.

Lemma postProcess_lookup (groups : list ScenarioGroup) (names : list jsstr)
    (files : gmap jsstr jsstr) (k : jsstr) :
  PostProcessor.postProcess groups names files !! k
  = if bool_decide (k = PostProcessor.fixturePath)
    then (λ content, if truthy content then PostProcessor.baseFixture names else content)
           <$> files !! k
    else PostProcessor.process_entry groups k <$> files !! k.
Proof.
  unfold PostProcessor.postProcess. cbv zeta.
  rewrite (processed_lookup groups files PostProcessor.fixturePath).
  destruct (files !! PostProcessor.fixturePath) as [content|] eqn:E; simpl.
  - unfold PostProcessor.process_entry at 1 2. rewrite fixture_is_no_test_file.
    destruct (truthy content) eqn:Ht.
    + case_bool_decide as Hk.
      * subst k. by rewrite lookup_insert_eq, E; simpl; rewrite Ht.
      * rewrite lookup_insert_ne by done. apply processed_lookup.
    + rewrite (processed_lookup groups files k).
      case_bool_decide as Hk; [|done].
      subst k. rewrite E. simpl. rewrite Ht.
      unfold PostProcessor.process_entry. by rewrite fixture_is_no_test_file.
  - rewrite (processed_lookup groups files k).
    case_bool_decide as Hk; [|done]. subst k. by rewrite E.
Qed.

End FileSetFacts.

(** C8: the mapping the post-processing returns has the keys of its input
    (none removed, none added), and an entry that is neither under tests/
    nor at the fixture path has the value it had. *)
Theorem only_tests_and_fixture_rewritten {CM : CaseMapping}
    (testDataArray : list ScenarioGroup) (names : list jsstr)
    (aiGeneratedStructure : gmap jsstr jsstr) (filePath : jsstr) :
  starts_with (lit "tests/") filePath = false →
  filePath ≠ PostProcessor.fixturePath →
  PostProcessor.postProcess testDataArray names aiGeneratedStructure !! filePath
  = aiGeneratedStructure !! filePath
  ∧ dom (PostProcessor.postProcess testDataArray names aiGeneratedStructure)
    = dom aiGeneratedStructure.
Proof.
  intros Htests Hfix. split.
  - rewrite postProcess_lookup. rewrite bool_decide_eq_false_2 by done.
    unfold PostProcessor.process_entry. rewrite is_test_file_prefix by done.
    by destruct (aiGeneratedStructure !! filePath).
  - apply set_eq. intros k. rewrite !elem_of_dom, postProcess_lookup.
    case_bool_decide; by rewrite fmap_is_Some.
Qed.

(** ** The fixture file *)

Section FixtureFacts.
Context {CM : CaseMapping}.

Lemma join_cons (sep p : jsstr) (rest : list jsstr) :
  rest ≠ [] → join sep (p :: rest) = p ++ sep ++ join sep rest.
Proof. by destruct rest. Qed.

Lemma join_app (sep : jsstr) (l1 l2 : list jsstr) :
  l1 ≠ [] → l2 ≠ [] → join sep (l1 ++ l2) = join sep l1 ++ sep ++ join sep l2.
Proof.
  intros H1 H2. induction l1 as [|p l1 IH]; [done|].
  destruct l1 as [|q l1].
  - simpl app. by rewrite join_cons.
  - rewrite <- app_comm_cons, join_cons by done.
    rewrite IH by done. rewrite (join_cons sep p (q :: l1)) by done.
    by rewrite <- !app_assoc.
Qed.

Lemma join_head_truthy (sep p : jsstr) (rest : list jsstr) :
  truthy p = true → (0 <? length (join sep (p :: rest))) = true.
Proof.
  intros Hp. destruct p as [|c p]; [done|]. apply Nat.ltb_lt.
  destruct rest; simpl; lia.
Qed.

Lemma baseFixture_lines (names : list jsstr) :
  PostProcessor.baseFixture names = join PostProcessor.newline (Words.fixture_lines names).
Proof.
  unfold PostProcessor.baseFixture, Words.fixture_lines.
  destruct names as [|name names]; [reflexivity|].
  change (0 <? length (name :: names)) with true. cbv iota.
  rewrite !fmap_cons.
  rewrite !join_head_truthy by reflexivity.
  set (imports := PostProcessor.import_statement name
                    :: (PostProcessor.import_statement <$> names)).
  set (defs := PostProcessor.fixture_definition name
                 :: (PostProcessor.fixture_definition <$> names)).
  rewrite (join_app _ [_]) by done.
  rewrite (join_app _ imports) by done.
  rewrite (join_app _ [_; _]) by done.
  rewrite (join_app _ defs) by done.
  simpl join. by rewrite <- !app_assoc.
Qed.

Lemma baseFixture_truthy (names : list jsstr) :
  truthy (PostProcessor.baseFixture names) = true.
Proof. unfold PostProcessor.baseFixture. by destruct (0 <? length names). Qed.

Lemma pageObjectNames_NoDup (groups : list ScenarioGroup) :
  NoDup (PostProcessor.pageObjectNames groups).
Proof.
  unfold PostProcessor.pageObjectNames.
  assert (H : ∀ acc : list jsstr, NoDup acc →
            NoDup (foldl (λ names scenarioGroup,
                     let pascalCaseName := Normalizer.toPascalCase (scenario scenarioGroup) in
                     if truthy pascalCaseName && negb (bool_decide (pascalCaseName ∈ names))
                     then names ++ [pascalCaseName] else names) acc groups)).
  { induction groups as [|g groups IH]; intros acc Hacc; simpl; [done|].
    apply IH. destruct (truthy _); simpl; [|done].
    case_bool_decide; simpl; [done|].
    apply NoDup_app. split; [done|]. split; [|apply NoDup_singleton].
    intros x Hx Hx'. apply list_elem_of_singleton in Hx'. by subst x. }
  apply H, NoDup_nil_2.
Qed.

End FixtureFacts.

(** C6, as the code has it: the fixture file is rebuilt when the file set
    has an entry at the fixture path whose content is not the empty string
    (the code tests the value for truth).  Its content is then the lines of
    [fixture_lines] joined by line breaks: the base import, one import line
    per name, the opening of the extension object, one factory entry per
    name, its closing and the default export; with no name, the extension
    object is empty.  The content depends on the names only, so a second
    run over the result rebuilds the same text; the names [generateCode]
    collects are distinct. *)
Theorem fixture_regeneration {CM : CaseMapping}
    (testDataArray : list ScenarioGroup) (names : list jsstr)
    (aiGeneratedStructure : gmap jsstr jsstr) (content : jsstr) :
  aiGeneratedStructure !! PostProcessor.fixturePath = Some content →
  truthy content = true →
  let out := PostProcessor.postProcess testDataArray names aiGeneratedStructure in
  out !! PostProcessor.fixturePath = Some (PostProcessor.baseFixture names)
  ∧ PostProcessor.baseFixture names
    = join PostProcessor.newline (Words.fixture_lines names)
  ∧ length (PostProcessor.import_statement <$> names) = length names
  ∧ length (PostProcessor.fixture_definition <$> names) = length names
  ∧ PostProcessor.postProcess testDataArray names out !! PostProcessor.fixturePath
    = Some (PostProcessor.baseFixture names)
  ∧ NoDup (PostProcessor.pageObjectNames testDataArray).
Proof.
  intros Hfile Hcontent out.
  assert (Hout : out !! PostProcessor.fixturePath = Some (PostProcessor.baseFixture names)).
  { unfold out. rewrite postProcess_lookup, bool_decide_eq_true_2 by done.
    rewrite Hfile. simpl. by rewrite Hcontent. }
  split; [done|]. split; [apply baseFixture_lines|].
  rewrite !length_fmap. do 2 (split; [done|]).
  split; [|apply pageObjectNames_NoDup].
  rewrite postProcess_lookup, bool_decide_eq_true_2 by done.
  rewrite Hout. simpl. by rewrite baseFixture_truthy.
Qed.

(** ** The insertion point *)

Section DepthFacts.
Context {CM : CaseMapping}.

Lemma depth_after_0 (start : Z) (rest : list jsstr) : Words.depth_after start rest 0 = start.
Proof. unfold Words.depth_after. by rewrite take_0. Qed.

Lemma depth_after_S (start : Z) (l : jsstr) (rest : list jsstr) (n : nat) :
  Words.depth_after start (l :: rest) (S n)
  = Words.depth_after (start + Words.line_delta l) rest n.
Proof. reflexivity. Qed.

Lemma brace_step (braceCount : Z) (currentLine : jsstr) :
  (let b1 := if includes [ch "{"] currentLine then (braceCount + 1)%Z else braceCount in
   if includes [ch "}"] currentLine then (b1 - 1)%Z else b1)
  = (braceCount + Words.line_delta currentLine)%Z.
Proof.
  unfold Words.line_delta. cbv zeta.
  destruct (includes [ch "{"] currentLine), (includes [ch "}"] currentLine); lia.
Qed.

Lemma find_closing_Some (rest : list jsstr) (j : nat) (braceCount : Z) (j' : nat) :
  PostProcessor.find_closing rest j braceCount = Some j' →
  ∃ n, j' = j + S n ∧ n < length rest
       ∧ Words.depth_after braceCount rest (S n) = 0%Z
       ∧ ∀ m, 0 < m ≤ n → Words.depth_after braceCount rest m ≠ 0%Z.
Proof.
  revert j braceCount. induction rest as [|l rest IH]; intros j b; [done|].
  cbn [PostProcessor.find_closing]. rewrite brace_step.
  destruct (_ =? 0)%Z eqn:E.
  - intros [= <-]. exists 0. apply Z.eqb_eq in E.
    split_and!; [lia|simpl; lia| |intros m ?; lia].
    by rewrite depth_after_S, depth_after_0.
  - intros H. apply IH in H as (n & -> & Hn & Hz & Hnz). apply Z.eqb_neq in E.
    exists (S n). split_and!; [lia|simpl; lia|by rewrite depth_after_S|].
    intros [|m] Hm; [lia|]. rewrite depth_after_S.
    destruct m as [|m]; [by rewrite depth_after_0|]. apply Hnz. lia.
Qed.

Lemma find_closing_None (rest : list jsstr) (j : nat) (braceCount : Z) :
  PostProcessor.find_closing rest j braceCount = None →
  ∀ m, 0 < m ≤ length rest → Words.depth_after braceCount rest m ≠ 0%Z.
Proof.
  revert j braceCount. induction rest as [|l rest IH]; intros j b; [simpl; lia|].
  cbn [PostProcessor.find_closing]. rewrite brace_step.
  destruct (_ =? 0)%Z eqn:E; [done|].
  intros H [|m] Hm; [lia|]. apply Z.eqb_neq in E. rewrite depth_after_S.
  destruct m as [|m]; [by rewrite depth_after_0|].
  eapply IH; [done|]. simpl in Hm. lia.
Qed.

End DepthFacts.

(** What the scan for the closing brace computes: the depth counter starts
    at 1 on the line of the case declaration and goes over the lines that
    follow; a line with an opening brace raises it by one and a line with a
    closing brace lowers it by one, however many braces the line has.  At
    the first line after which the depth is 0 the scan stops and the
    synthesized line, indented, is put into the array of lines immediately
    before that line.  When the depth is 0 after no line up to the end of
    the file, the array of lines is left as it is and a warning is written.
    (That the counter goes by lines and not by braces is a slip: see the
    evaluation on a body with an object in an object.) *)
Theorem insertion_point {CM : CaseMapping}
    (currentTestCase : TestCase) (lines : list jsstr) (i : nat) :
  truthy (expected currentTestCase) = true →
  truthy (trim (expected currentTestCase)) = true →
  truthy (PostProcessor.assertionCode currentTestCase lines i) = true →
  let rest := drop (i + 1) lines in
  let code := PostProcessor.assertionCode currentTestCase lines i in
  (∃ n, n < length rest
        ∧ Words.depth_after 1 rest (S n) = 0%Z
        ∧ (∀ m, 0 < m ≤ n → Words.depth_after 1 rest m ≠ 0%Z)
        ∧ PostProcessor.inject currentTestCase lines i
          = (take (i + 1 + n) lines ++ (lit "      " ++ code) :: drop (i + 1 + n) lines,
             i + 1 + n, []))
  ∨ ((∀ m, 0 < m ≤ length rest → Words.depth_after 1 rest m ≠ 0%Z)
     ∧ PostProcessor.inject currentTestCase lines i
       = (lines, i, [PostProcessor.NoClosingBrace (i + 1)])).
Proof.
  intros He Ht Hc rest code. unfold PostProcessor.inject.
  rewrite He, Ht, Hc. simpl.
  destruct (PostProcessor.find_closing (drop (i + 1) lines) (i + 1) 1) as [j|] eqn:E.
  - left. apply find_closing_Some in E as (n & -> & Hn & Hz & Hnz).
    exists n. split_and!; try done.
    unfold PostProcessor.splice. by replace (i + 1 + S n - 1) with (i + 1 + n) by lia.
  - right. split; [|done]. by eapply find_closing_None.
Qed.

(** ** The title of a case declaration *)

Section TitleFacts.
Context {CM : CaseMapping}.

Lemma get_substitution_plain (matched before after repl : jsstr) :
  Words.has_replacement_pattern repl = false →
  get_substitution matched before after repl = repl.
Proof.
  induction repl as [|c t IH]; [done|].
  cbn [Words.has_replacement_pattern get_substitution].
  intros [Hc Ht]%orb_false_iff.
  destruct (c =? 36)%N eqn:E.
  - destruct t as [|d t']; [done|]. simpl in Hc.
    apply orb_false_iff in Hc as [Hc H39]. apply orb_false_iff in Hc as [Hc H96].
    apply orb_false_iff in Hc as [H36 H38].
    rewrite H36, H38, H96, H39. by rewrite IH.
  - by rewrite IH.
Qed.

Lemma replace_at (pat repl s pre post : jsstr) :
  s = pre ++ pat ++ post →
  index_of pat s = Some (length pre) →
  Words.has_replacement_pattern repl = false →
  JS.replace pat repl s = pre ++ repl ++ post.
Proof.
  intros -> Hidx Hplain. unfold JS.replace. rewrite Hidx.
  rewrite get_substitution_plain by done.
  rewrite take_app_length. do 2 f_equal.
  rewrite app_assoc, <- length_app. apply drop_app_length.
Qed.

Lemma priority_tags_other (p : jsstr) :
  p ∉ lit <$> ["P1"; "P2"; "P3"]%string → PostProcessor.priority_tags p = [].
Proof.
  intros Hp. rewrite !fmap_cons, fmap_nil in Hp.
  rewrite !not_elem_of_cons in Hp. destruct Hp as (H1 & H2 & H3 & _).
  unfold PostProcessor.priority_tags.
  by rewrite (proj2 (eqb_neq p _) H1), (proj2 (eqb_neq p _) H2), (proj2 (eqb_neq p _) H3).
Qed.

Lemma exactTestTitle_tags (tc : TestCase) :
  PostProcessor.exactTestTitle tc = PostProcessor.priority_tags (priority tc) ++ title tc.
Proof.
  unfold PostProcessor.exactTestTitle. by destruct (priority tc).
Qed.

Lemma title_needs_correction_iff (generatedTitle exact : jsstr) :
  PostProcessor.title_needs_correction generatedTitle exact = true
  ↔ trim generatedTitle ≠ trim exact
    ∨ ∃ banned, banned ∈ Words.banned_substrings ∧ includes banned generatedTitle = true.
Proof.
  unfold PostProcessor.title_needs_correction, Words.banned_substrings.
  rewrite !fmap_cons, fmap_nil.
  rewrite !orb_true_iff, negb_true_iff, eqb_neq. split.
  - intros [[[[H|H]|H]|H]|H]; [by left|right..]; eexists; (split; [|exact H]).
    + apply elem_of_cons. by left.
    + do 1 (apply elem_of_cons; right). apply elem_of_cons. by left.
    + do 2 (apply elem_of_cons; right). apply elem_of_cons. by left.
    + do 3 (apply elem_of_cons; right). apply elem_of_cons. by left.
  - intros [H|(b & Hb & H)]; [tauto|].
    rewrite !elem_of_cons in Hb.
    destruct Hb as [->|[->|[->|[->|Hb]]]]; try tauto.
    by apply elem_of_nil in Hb.
Qed.

End TitleFacts.

(** C2, as the code has it: on a line that matches the pattern of a case
    declaration while the counter [k] of the matched declarations is below
    the number of tests of the group, the exact title is the tags of the
    priority of test [k] (P1: "@smoke @reg ", P2: "@sanity @reg ", P3:
    "@reg ", anything else: none) followed by the title of that test, which
    the parser sets to the description when there is one and to the
    placeholder "Test for <scenario> - Case <n>" otherwise.  The captured
    title is replaced by the exact one when the two differ once trimmed, or
    when the captured title has one of the banned substrings; the line is
    then handed on and the counter goes up by one.  This is stated, as the
    claim is, for a captured title whose text does not occur in the line
    before the place where it is captured, and for an exact title without
    a replacement pattern (a dollar sign followed by a dollar sign, an
    ampersand, a backtick or an apostrophe); a dollar sign before anything
    else is allowed. *)
Theorem test_title_correction {CM : CaseMapping}
    (correspondingScenario : ScenarioGroup) (st : PostProcessor.loop_state)
    (line0 : jsstr) (testMatch : Regex.result) (currentTestCase : TestCase)
    (pre post : jsstr) :
  PostProcessor.lines st !! PostProcessor.i st = Some line0 →
  let line := PostProcessor.correct_describe (scenario correspondingScenario) line0 in
  Regex.exec Regex.testRegex line = Some testMatch →
  tests correspondingScenario !! PostProcessor.testCaseCounter st = Some currentTestCase →
  line = pre ++ Regex.group testMatch 2 ++ post →
  length pre = Regex.index testMatch + length (Regex.group testMatch 1) →
  index_of (Regex.group testMatch 2) line = Some (length pre) →
  Words.has_replacement_pattern (PostProcessor.exactTestTitle currentTestCase) = false →
  let generatedTitle := Regex.group testMatch 2 in
  let exact := PostProcessor.exactTestTitle currentTestCase in
  let st' := PostProcessor.iteration correspondingScenario st in
  exact = PostProcessor.priority_tags (priority currentTestCase) ++ title currentTestCase
  ∧ PostProcessor.priority_tags (lit "P1") = lit "@smoke @reg "
  ∧ PostProcessor.priority_tags (lit "P2") = lit "@sanity @reg "
  ∧ PostProcessor.priority_tags (lit "P3") = lit "@reg "
  ∧ (∀ p, p ∉ lit <$> ["P1"; "P2"; "P3"]%string → PostProcessor.priority_tags p = [])
  ∧ (∀ hs r T n,
       let built := Parser.build_test hs r T n in
       title built = if truthy (description built) then description built
                     else lit "Test for " ++ T ++ lit " - Case " ++ JS.of_nat (n + 1))
  ∧ (PostProcessor.title_needs_correction generatedTitle exact = true
     ↔ trim generatedTitle ≠ trim exact
       ∨ ∃ banned, banned ∈ Words.banned_substrings
                   ∧ includes banned generatedTitle = true)
  ∧ PostProcessor.newLines st'
    = PostProcessor.newLines st
        ++ [if PostProcessor.title_needs_correction generatedTitle exact
            then pre ++ exact ++ post else line]
  ∧ PostProcessor.testCaseCounter st' = S (PostProcessor.testCaseCounter st).
Proof.
  intros Hline line Hmatch Htest Hsplit Hpre Hidx Hplain generatedTitle exact st'.
  split_and!.
  - apply exactTestTitle_tags.
  - reflexivity.
  - reflexivity.
  - reflexivity.
  - apply priority_tags_other.
  - intros hs r T n built. unfold built, Parser.build_test. simpl. by unfold or_else.
  - apply title_needs_correction_iff.
  - unfold st', PostProcessor.iteration. rewrite Hline. simpl default.
    fold line. rewrite Hmatch, Htest.
    destruct (PostProcessor.inject _ _ _) as [[lines' i'] ws]. simpl. do 2 f_equal.
    unfold PostProcessor.correct_test. fold generatedTitle exact.
    destruct (PostProcessor.title_needs_correction generatedTitle exact); [|done].
    by apply replace_at.
  - unfold st', PostProcessor.iteration. rewrite Hline. simpl default.
    fold line. rewrite Hmatch, Htest.
    destruct (PostProcessor.inject _ _ _) as [[lines' i'] ws]. simpl. lia.
Qed.

(** ** The keyword rules *)

Section KeywordFacts.
Context {CM : CaseMapping}.

Lemma keyword_assertion_without_url (expectedResult : jsstr) :
  includes (lit "url") (toLowerCase expectedResult) = false →
  ∃ prefix, prefix ∈ Words.comment_prefixes
            ∧ PostProcessor.keyword_assertion expectedResult = prefix ++ expectedResult.
Proof.
  intros Hurl. unfold PostProcessor.keyword_assertion, Words.comment_prefixes.
  cbv zeta. rewrite Hurl. rewrite !fmap_cons, fmap_nil.
  destruct (_ || _).
  { eexists. split; [|reflexivity]. apply elem_of_cons. by left. }
  destruct (_ || _); eexists; (split; [|reflexivity]).
  - apply elem_of_cons; right. apply elem_of_cons. by left.
  - do 2 (apply elem_of_cons; right). apply elem_of_cons. by left.
Qed.

End KeywordFacts.

(** C4, as the code has it: the text "User is redirected to
    https://app.example.com/dashboard" does not hold the keyword "url" once
    lower-cased, so with no analysis and no assertion in the window the
    keyword rules synthesize the plain comment "// Verify: " followed by the
    text.  The wait for a URL is synthesized only for a text that holds
    "url": for "The URL is https://app.example.com/dashboard" it targets
    exactly that URL; a text without the keyword always gives one of the
    three comments. *)
Theorem keyword_fallback_on_redirect {CM : CaseMapping}
    (currentTestCase : TestCase) (lines : list jsstr) (i : nat) :
  Words.agrees_on_basic_latin →
  expected currentTestCase = Samples.redirect_text →
  nlpExpected currentTestCase = None →
  PostProcessor.hasExistingAssertion lines i = false →
  PostProcessor.assertionCode currentTestCase lines i
  = lit "// Verify: User is redirected to https://app.example.com/dashboard"
  ∧ includes (lit "url") (toLowerCase Samples.redirect_text) = false
  ∧ PostProcessor.keyword_assertion (lit "The URL is https://app.example.com/dashboard")
    = lit "await page.waitForURL('https://app.example.com/dashboard'); // Keyword inferred: URL verification"
  ∧ (∀ expectedResult,
       includes (lit "url") (toLowerCase expectedResult) = false →
       ∃ prefix, prefix ∈ Words.comment_prefixes
                 ∧ PostProcessor.keyword_assertion expectedResult
                   = prefix ++ expectedResult).
Proof.
  intros Hcm Hexpected Hnlp Hnone.
  destruct (Hcm Samples.redirect_text eq_refl) as [Hlow _].
  destruct (Hcm (lit "The URL is https://app.example.com/dashboard") eq_refl) as [Hlow' _].
  split_and!.
  - unfold PostProcessor.assertionCode. rewrite Hnone, Hnlp, Hexpected.
    unfold PostProcessor.keyword_assertion. cbv zeta. rewrite Hlow.
    vm_compute. reflexivity.
  - rewrite Hlow. vm_compute. reflexivity.
  - unfold PostProcessor.keyword_assertion. cbv zeta. rewrite Hlow'.
    vm_compute. reflexivity.
  - apply keyword_assertion_without_url.
Qed.

(** * Evaluations on the sample inputs *)

Section Evaluations.
#[local] Existing Instance BasicLatin.

Lemma BasicLatin_agrees : Words.agrees_on_basic_latin.
Proof. intros s _. split; reflexivity. Qed.

(** The parser on the rows of the Login scenario: the second row, whose
    scenario cell is blank, goes to the group of the first. *)
Example login_rows_grouped :
  Parser.parseRows Samples.headers_all Samples.login_rows
  = inr {| Parser.groupedMap := [Samples.login_group];
           Parser.lastValidScenarioTitle := Some (lit "Login");
           Parser.console := [] |}.
Proof. vm_compute. reflexivity. Qed.

(** The examples of the normalizer: toPascalCase("hello world") is
    "HelloWorld", toCamelCase("Hello World") is "helloWorld", toPascalCase("")
    is "", the short name of "Verify User Login Functionality with Valid
    Credentials" is "userLoginValid" (under 25 characters), and that of the
    empty title is "genericFeature" on the server and in the browser. *)
Theorem normalizer_examples :
  Normalizer.toPascalCase (lit "hello world") = lit "HelloWorld"
  ∧ Normalizer.toCamelCase (lit "Hello World") = lit "helloWorld"
  ∧ Normalizer.toPascalCase [] = []
  ∧ Normalizer.toShortFeatureName
      (lit "Verify User Login Functionality with Valid Credentials") = lit "userLoginValid"
  ∧ Normalizer.toShortFeatureName [] = lit "genericFeature"
  ∧ Client.toShortFeatureName [] = lit "genericFeature".
Proof. vm_compute. by split_and!. Qed.

(** *** The validator *)

(** Against C1 as stated: a header row without Test Case ID passes the
    validation, and its rows are grouped. *)
Lemma test_case_id_not_mandatory :
  array_includes (lit "Test Case ID") (trimHeaders Samples.headers_without_id) = false
  ∧ Validator.validateExcelSchema Samples.headers_without_id Samples.rows_without_id
    = ([], inr tt)
  ∧ sum_map (λ e, e) Parser.groupedMap
      (Parser.parseRows Samples.headers_without_id Samples.rows_without_id)
    = inr [ {| page := lit "login"; scenario := lit "Login"; shortFeatureName := lit "login";
               tests := [ {| id := []; title := lit "Valid login";
                             description := lit "Valid login";
                             steps := [lit "Open the page"]; data := lit "user=a";
                             expected := lit "Dashboard is shown"; priority := lit "P1";
                             nlpExpected := None |} ] |} ].
Proof. vm_compute. by split_and!. Qed.

Lemma missing_mandatory_column_witness :
  lit "Test Data" ∈ Validator.MANDATORY_HEADERS
  ∧ (lit "Test Data" ∉ trimHeaders Samples.headers_without_test_data)
  ∧ ∃ missing,
      missing ∈ Validator.MANDATORY_HEADERS
      ∧ (missing ∉ trimHeaders Samples.headers_without_test_data)
      ∧ Validator.validateExcelSchema Samples.headers_without_test_data Samples.login_rows
        = ([], inl (Validator.MissingColumn missing))
      ∧ Parser.parseRows Samples.headers_without_test_data Samples.login_rows
        = inl (match Samples.headers_without_test_data with
               | [] => Parser.HeaderRowEmpty
               | _ :: _ => Parser.SchemaError (Validator.MissingColumn missing)
               end).
Proof.
  assert (H1 : lit "Test Data" ∈ Validator.MANDATORY_HEADERS).
  { apply (bool_decide_unpack _). vm_compute. exact I. }
  assert (H2 : lit "Test Data" ∉ trimHeaders Samples.headers_without_test_data).
  { apply array_includes_false. vm_compute. reflexivity. }
  split; [exact H1|]. split; [exact H2|].
  exact (missing_mandatory_column Samples.headers_without_test_data Samples.login_rows
           (lit "Test Data") H1 H2).
Defined.

(** An empty header row: the parse throws its own error before it calls
    the validator, which would have asked for the first mandatory name. *)
Example empty_header_row :
  Parser.parseRows [] Samples.login_rows = inl Parser.HeaderRowEmpty
  ∧ Validator.validateExcelSchema [] Samples.login_rows
    = ([], inl (Validator.MissingColumn (lit "Test Scenario"))).
Proof. vm_compute. by split. Qed.

(** *** The grouping loop *)

(** Against C9 as stated: the first row states a title, of two CJK
    characters; neither it nor the blank row after it is grouped. *)
Lemma title_without_letters_not_grouped :
  (Words.own_title (Some 0) <$> Samples.cjk_rows) = [Some Samples.cjk_title; None]
  ∧ Parser.parseRows Samples.headers_all Samples.cjk_rows
    = inr {| Parser.groupedMap := [];
             Parser.lastValidScenarioTitle := Some Samples.cjk_title;
             Parser.console := [ Parser.SkippedNoPageName 2 Samples.cjk_title;
                                 Parser.SkippedNoPageName 3 Samples.cjk_title ] |}.
Proof. vm_compute. by split_and!. Qed.

(** *** Titles *)

(** Against C2 as stated: for the test the parser builds from a row without
    a description, the exact title is the tags and the placeholder, not the
    tags and the (empty) description; and a captured title that differs from
    the exact one by a trailing space is left as it is. *)
Lemma exact_title_is_not_the_description :
  let built := Parser.build_test (trimHeaders Samples.headers_all)
                 Samples.row_without_description (lit "Login") 0 in
  description built = []
  ∧ PostProcessor.exactTestTitle built = lit "@smoke @reg Test for Login - Case 1"
  ∧ PostProcessor.priority_tags (priority built) ++ description built = lit "@smoke @reg "
  ∧ PostProcessor.title_needs_correction (lit "@smoke @reg Valid login ")
      (PostProcessor.exactTestTitle Samples.valid_login) = false.
Proof. vm_compute. by split_and!. Qed.

Lemma test_title_correction_witness :
  PostProcessor.lines Samples.on_declaration !! PostProcessor.i Samples.on_declaration
  = Some (lit "  test('Valid login test', async ({ page }) => {")
  ∧ Regex.exec Regex.testRegex
      (PostProcessor.correct_describe (scenario Samples.login_group)
         (lit "  test('Valid login test', async ({ page }) => {"))
    = Some Samples.declaration_match
  ∧ Regex.group Samples.declaration_match 2 = lit "Valid login test"
  ∧ index_of (lit "Valid login test") (lit "  test('Valid login test', async ({ page }) => {")
    = Some (length (lit "  test('"))
  ∧ Words.has_replacement_pattern (PostProcessor.exactTestTitle Samples.valid_login) = false
  ∧ PostProcessor.newLines (PostProcessor.iteration Samples.login_group Samples.on_declaration)
    = PostProcessor.newLines Samples.on_declaration
        ++ [lit "  test('@smoke @reg Valid login', async ({ page }) => {"]
  ∧ PostProcessor.testCaseCounter
      (PostProcessor.iteration Samples.login_group Samples.on_declaration) = 1.
Proof.
  pose proof (test_title_correction Samples.login_group Samples.on_declaration
                (lit "  test('Valid login test', async ({ page }) => {")
                Samples.declaration_match Samples.valid_login
                (lit "  test('") (lit "', async ({ page }) => {")
                eq_refl eq_refl eq_refl eq_refl eq_refl eq_refl eq_refl) as H.
  cbv zeta in H.
  destruct H as (_ & _ & _ & _ & _ & _ & _ & Hnew & Hcount).
  split; [reflexivity|]. split; [reflexivity|]. split; [reflexivity|].
  split; [reflexivity|]. split; [reflexivity|].
  split; [exact Hnew|exact Hcount].
Defined.

(** A dollar sign before a digit is no replacement pattern: the title of a
    price is written as it is. *)
Example price_in_a_title :
  Words.has_replacement_pattern (PostProcessor.exactTestTitle Samples.price_test) = false
  ∧ PostProcessor.correct_test Samples.price_test (lit "Pay")
      (lit "  test('Pay', async ({ page }) => {")
    = lit "  test('@reg Pay $5 now', async ({ page }) => {".
Proof. vm_compute. by split. Qed.

(** *** The insertion point *)

(** C3 on a case whose body opens two braces on one line (an object in an
    object): the scan of the code raises the depth by one on that line and
    lowers it by one, so the depth is 0 after the next line, which closes
    the object and not the case.  The scan stops there and the assertion is
    put before that line, inside the object literal, where the comments of
    the code say that the matching closing brace of the test block has been
    found and that the assertion goes before it.  A counter that counts
    every brace, as the claim has it, stops on the line that closes the
    case. *)
Theorem depth_counts_lines_not_braces :
  PostProcessor.find_closing (drop 1 Samples.nested_braces) 1 1 = Some 3
  ∧ Words.find_closing_by_occurrence (drop 1 Samples.nested_braces) 1 1 = Some 5
  ∧ PostProcessor.inject Samples.valid_login Samples.nested_braces 0
    = (lit <$> [ "  test('Valid login', async ({ page }) => {";
                 "    const cfg = { a: { b: 1 },";
                 "      // Verify: Dashboard is shown";
                 "      c: 2 };";
                 "    await page.goto(cfg.c);";
                 "  });" ]%string, 2, []).
Proof. vm_compute. by split_and!. Qed.

Lemma insertion_point_witness :
  truthy (expected Samples.valid_login) = true
  ∧ truthy (trim (expected Samples.valid_login)) = true
  ∧ truthy (PostProcessor.assertionCode Samples.valid_login Samples.nested_braces 0) = true
  ∧ ((∃ n, n < length (drop (0 + 1) Samples.nested_braces)
           ∧ Words.depth_after 1 (drop (0 + 1) Samples.nested_braces) (S n) = 0%Z
           ∧ (∀ m, 0 < m ≤ n →
                Words.depth_after 1 (drop (0 + 1) Samples.nested_braces) m ≠ 0%Z)
           ∧ PostProcessor.inject Samples.valid_login Samples.nested_braces 0
             = (take (0 + 1 + n) Samples.nested_braces
                  ++ (lit "      "
                        ++ PostProcessor.assertionCode Samples.valid_login
                             Samples.nested_braces 0)
                  :: drop (0 + 1 + n) Samples.nested_braces,
                0 + 1 + n, []))
     ∨ ((∀ m, 0 < m ≤ length (drop (0 + 1) Samples.nested_braces) →
           Words.depth_after 1 (drop (0 + 1) Samples.nested_braces) m ≠ 0%Z)
        ∧ PostProcessor.inject Samples.valid_login Samples.nested_braces 0
          = (Samples.nested_braces, 0, [PostProcessor.NoClosingBrace (0 + 1)]))).
Proof.
  split; [reflexivity|]. split; [reflexivity|]. split; [reflexivity|].
  exact (insertion_point Samples.valid_login Samples.nested_braces 0
           eq_refl eq_refl eq_refl).
Defined.

(** *** The keyword rules *)

(** Against C4 as stated: for the expected text of the redirection the
    synthesized line is the plain comment; no wait for a URL is written. *)
Lemma redirect_text_gets_a_comment :
  PostProcessor.assertionCode Samples.redirected Samples.nested_braces 0
  = lit "// Verify: User is redirected to https://app.example.com/dashboard"
  ∧ includes (lit "waitForURL")
      (PostProcessor.assertionCode Samples.redirected Samples.nested_braces 0) = false
  ∧ PostProcessor.inject Samples.redirected (take 1 Samples.nested_braces ++ [lit "  });"]) 0
    = (lit <$> [ "  test('Valid login', async ({ page }) => {";
                 "      // Verify: User is redirected to https://app.example.com/dashboard";
                 "  });" ]%string, 1, []).
Proof. vm_compute. by split_and!. Qed.

Lemma keyword_fallback_on_redirect_witness :
  expected Samples.redirected = Samples.redirect_text
  ∧ nlpExpected Samples.redirected = None
  ∧ PostProcessor.hasExistingAssertion Samples.nested_braces 0 = false
  ∧ PostProcessor.assertionCode Samples.redirected Samples.nested_braces 0
    = lit "// Verify: User is redirected to https://app.example.com/dashboard"
  ∧ PostProcessor.keyword_assertion (lit "The URL is https://app.example.com/dashboard")
    = lit "await page.waitForURL('https://app.example.com/dashboard'); // Keyword inferred: URL verification".
Proof.
  destruct (keyword_fallback_on_redirect Samples.redirected Samples.nested_braces 0
              BasicLatin_agrees eq_refl eq_refl eq_refl) as (Hcode & _ & Hurl & _).
  split; [reflexivity|]. split; [reflexivity|]. split; [reflexivity|].
  split; [exact Hcode|exact Hurl].
Defined.

(** *** The injected assertion *)

(** C5 on a generated file whose case has no assertion: the comment is
    synthesized and spliced into the array of lines before the closing line
    of the case, and the loop counter is set to its index; the [i++] of the
    loop then steps over it.  The lines of the body and the comment are
    never handed on: the file that is written has neither. *)
Theorem injected_assertion_is_lost :
  PostProcessor.assertionCode Samples.valid_login (split 10 Samples.login_spec) 2
  = lit "// Verify: Dashboard is shown"
  ∧ PostProcessor.inject Samples.valid_login (split 10 Samples.login_spec) 2
    = (Samples.login_spec_spliced, 5, [])
  ∧ PostProcessor.process_test_file [Samples.login_group] (lit "tests/login.spec.js")
      Samples.login_spec
    = Some (Samples.login_spec_processed, [])
  ∧ includes (lit "// Verify") Samples.login_spec_processed = false
  ∧ includes (lit "page.goto") Samples.login_spec_processed = false
  ∧ PostProcessor.postProcess [Samples.login_group] [lit "Login"] Samples.files_with_fixture
      !! lit "tests/login.spec.js"
    = Some Samples.login_spec_processed.
Proof. vm_compute. by split_and!. Qed.

(** The keyword "url" without a URL: nothing is synthesized, not even the
    comment. *)
Example url_keyword_without_url :
  PostProcessor.keyword_assertion (lit "The page url changes") = [].
Proof. vm_compute. reflexivity. Qed.

(** *** A second run *)

(** C7 on a generated file whose first case is titled "test": the first run
    replaces the first occurrence of that text in the line, which is the
    name of the function called; the line is a case declaration no more, so
    the second run matches the second declaration with the first test and
    rewrites its title.  The second run changes the result of the first. *)
Theorem second_run_changes_titles :
  PostProcessor.process_test_file [Samples.login_group] (lit "tests/login.spec.js")
    Samples.titled_test_spec
  = Some (Samples.titled_test_spec_once, [])
  ∧ PostProcessor.process_test_file [Samples.login_group] (lit "tests/login.spec.js")
      Samples.titled_test_spec_once
    = Some (Samples.titled_test_spec_twice, [])
  ∧ JS.eqb Samples.titled_test_spec_once Samples.titled_test_spec_twice = false
  ∧ JS.replace (lit "test") (lit "@smoke @reg Valid login")
      (lit "  test('test', async ({ page }) => {")
    = lit "  @smoke @reg Valid login('test', async ({ page }) => {"
  ∧ JS.replace [] (lit "Valid login") (lit "test('', async ({ page }) => {")
    = lit "Valid logintest('', async ({ page }) => {".
Proof. vm_compute. by split_and!. Qed.

(** *** The file set *)

(** Against C6 as stated: an entry at the fixture path whose content is
    the empty string is left as it is. *)
Lemma empty_fixture_is_kept :
  Samples.files_with_empty_fixture !! PostProcessor.fixturePath = Some []
  ∧ PostProcessor.postProcess [Samples.login_group] [lit "Login"]
      Samples.files_with_empty_fixture !! PostProcessor.fixturePath
    = Some []
  ∧ truthy (PostProcessor.baseFixture [lit "Login"]) = true.
Proof. vm_compute. by split_and!. Qed.

Lemma fixture_regeneration_witness :
  Samples.files_with_fixture !! PostProcessor.fixturePath = Some (lit "// to be filled in")
  ∧ truthy (lit "// to be filled in") = true
  ∧ PostProcessor.postProcess [Samples.login_group] [lit "Login"; lit "ProductSearch"]
      Samples.files_with_fixture !! PostProcessor.fixturePath
    = Some (Samples.text
              [ "import { test as baseTest } from '@playwright/test';";
                "import { LoginPage } from '../pages/LoginPage.js';";
                "import { ProductSearchPage } from '../pages/ProductSearchPage.js';";
                "";
                "const test = baseTest.extend({";
                "    loginPage: async ({ page }, use) => { await use(new LoginPage(page)); },";
                "    productSearchPage: async ({ page }, use) => { await use(new ProductSearchPage(page)); },";
                "});";
                "";
                "export default test;";
                "" ]%string).
Proof.
  assert (H1 : Samples.files_with_fixture !! PostProcessor.fixturePath
               = Some (lit "// to be filled in")) by (vm_compute; reflexivity).
  destruct (fixture_regeneration [Samples.login_group] [lit "Login"; lit "ProductSearch"]
              Samples.files_with_fixture (lit "// to be filled in") H1 eq_refl)
    as (Hout & _).
  split; [exact H1|]. split; [reflexivity|].
  rewrite Hout. vm_compute. reflexivity.
Defined.

Lemma only_tests_and_fixture_rewritten_witness :
  starts_with (lit "tests/") (lit "pages/LoginPage.js") = false
  ∧ lit "pages/LoginPage.js" ≠ PostProcessor.fixturePath
  ∧ PostProcessor.postProcess [Samples.login_group] [lit "Login"] Samples.files_with_fixture
      !! lit "pages/LoginPage.js"
    = Samples.files_with_fixture !! lit "pages/LoginPage.js"
  ∧ dom (PostProcessor.postProcess [Samples.login_group] [lit "Login"]
           Samples.files_with_fixture)
    = dom Samples.files_with_fixture.
Proof.
  assert (H2 : lit "pages/LoginPage.js" ≠ PostProcessor.fixturePath).
  { apply (bool_decide_unpack _). vm_compute. exact I. }
  split; [reflexivity|]. split; [exact H2|].
  exact (only_tests_and_fixture_rewritten [Samples.login_group] [lit "Login"]
           Samples.files_with_fixture (lit "pages/LoginPage.js") eq_refl H2).
Defined.

End Evaluations.

(** * Further properties of the code *)

(** ** The normalizer: what its results are made of *)

Section NormalizerShape.
Context {CM : CaseMapping}.

Lemma split_nonempty (sep : N) (s : jsstr) : split sep s ≠ [].
Proof.
  destruct s as [|c t]; simpl; [done|].
  destruct (c =? sep)%N; [done|]. by destruct (split sep t).
Qed.

(** The pieces of a split hold the characters of the string, without the
    separator. *)
Lemma split_pieces (sep : N) (s w : jsstr) (c : N) :
  w ∈ split sep s → c ∈ w → c ∈ s ∧ c ≠ sep.
Proof.
  revert w. induction s as [|x t IH]; intros w Hw Hc; simpl in Hw.
  - apply list_elem_of_singleton in Hw. subst w. by apply elem_of_nil in Hc.
  - destruct (x =? sep)%N eqn:E.
    + apply elem_of_cons in Hw as [->|Hw]; [by apply elem_of_nil in Hc|].
      destruct (IH w Hw Hc). split; [by right|done].
    + apply N.eqb_neq in E.
      destruct (split sep t) as [|w0 ws] eqn:Hs; [by destruct (split_nonempty sep t)|].
      apply elem_of_cons in Hw as [->|Hw].
      * apply elem_of_cons in Hc as [->|Hc]; [split; [left|done]|].
        destruct (IH w0 ltac:(left) Hc). split; [by right|done].
      * destruct (IH w ltac:(by right) Hc). split; [by right|done].
Qed.

Lemma in_range_spec (lo hi c : N) : in_range lo hi c = true ↔ (lo ≤ c ≤ hi)%N.
Proof. unfold in_range. rewrite andb_true_iff, !N.leb_le. tauto. Qed.

Lemma in_range_false (lo hi c : N) : in_range lo hi c = false ↔ (c < lo ∨ hi < c)%N.
Proof.
  unfold in_range. rewrite andb_false_iff, !N.leb_gt. tauto.
Qed.

Lemma upper_unit_alnum (c : N) : Words.is_alnum c = true → Words.is_alnum (upper_unit c) = true.
Proof.
  unfold Words.is_alnum, upper_unit, is_lower, is_upper, is_digit. intros H.
  destruct (in_range 97 122 c) eqn:E; [|by rewrite E].
  apply in_range_spec in E.
  replace (in_range 65 90 (c - 32)) with true; [by rewrite orb_true_r|].
  symmetry. apply in_range_spec. lia.
Qed.

Lemma lower_unit_alnum (c : N) : Words.is_alnum c = true → Words.is_alnum (lower_unit c) = true.
Proof.
  unfold Words.is_alnum, lower_unit, is_lower, is_upper, is_digit. intros H.
  destruct (in_range 65 90 c) eqn:E; [|by rewrite E].
  apply in_range_spec in E.
  replace (in_range 97 122 (c + 32)) with true; [done|].
  symmetry. apply in_range_spec. lia.
Qed.

Lemma keeps_alnum_space_alnum (c : N) :
  Normalizer.keeps_alnum_space c = true → c ≠ 32%N → Words.is_alnum c = true.
Proof.
  unfold Normalizer.keeps_alnum_space, Words.is_alnum. intros H Hc.
  apply orb_true_iff in H as [H|H]; [done|]. by apply N.eqb_eq in H.
Qed.

Lemma capitalize_alnum (w : jsstr) :
  Words.alphanumeric w → Words.alphanumeric (Normalizer.capitalize w).
Proof.
  unfold Words.alphanumeric. destruct w as [|c r]; [done|]. simpl.
  intros H. apply Forall_cons in H as [Hc Hr]. constructor; [by apply upper_unit_alnum|done].
Qed.

Lemma pascal_words_alnum (str w : jsstr) : w ∈ Words.pascal_words str → Words.alphanumeric w.
Proof.
  unfold Words.pascal_words. intros Hw. apply list_elem_of_filter in Hw as [_ Hw].
  apply Forall_forall. intros c Hc.
  destruct (split_pieces _ _ _ _ Hw Hc) as [Hin Hne].
  apply list_elem_of_filter in Hin as [Hk _]. by apply keeps_alnum_space_alnum.
Qed.

Lemma toPascalCase_alnum (str : jsstr) : Words.alphanumeric (Normalizer.toPascalCase str).
Proof.
  unfold Normalizer.toPascalCase. fold (Words.pascal_words str).
  unfold Words.alphanumeric. apply Forall_concat, Forall_fmap, Forall_forall.
  intros w Hw. apply capitalize_alnum. by eapply pascal_words_alnum.
Qed.

Lemma toCamelCase_alnum (str : jsstr) : Words.alphanumeric (Normalizer.toCamelCase str).
Proof.
  unfold Normalizer.toCamelCase. pose proof (toPascalCase_alnum str) as H.
  destruct (Normalizer.toPascalCase str) as [|c r]; [done|].
  apply Forall_cons in H as [Hc Hr]. constructor; [by apply lower_unit_alnum|done].
Qed.

Lemma lower_upper_unit (c : N) : lower_unit (upper_unit c) = lower_unit c.
Proof.
  unfold lower_unit, upper_unit, is_lower, is_upper.
  destruct (in_range 97 122 c) eqn:E; [|done].
  apply in_range_spec in E.
  replace (in_range 65 90 (c - 32)) with true by (symmetry; apply in_range_spec; lia).
  replace (in_range 65 90 c) with false by (symmetry; apply in_range_false; lia).
  lia.
Qed.

Lemma upper_upper_unit (c : N) : upper_unit (upper_unit c) = upper_unit c.
Proof.
  unfold upper_unit, is_lower.
  destruct (in_range 97 122 c) eqn:E; [|by rewrite E].
  apply in_range_spec in E.
  by replace (in_range 97 122 (c - 32)) with false
    by (symmetry; apply in_range_false; lia).
Qed.

(** The copy of [toCamelCase] in the browser computes what the server's
    does. *)
Lemma client_toCamelCase (str : jsstr) :
  Client.toCamelCase str = Normalizer.toCamelCase str.
Proof.
  unfold Client.toCamelCase, Normalizer.toCamelCase, Normalizer.toPascalCase.
  fold (Words.pascal_words str).
  assert (Htruthy : Forall (λ w, truthy w = true) (Words.pascal_words str)).
  { apply Forall_forall. intros w Hw. by apply list_elem_of_filter in Hw as [? _]. }
  destruct (Words.pascal_words str) as [|w ws]; [done|].
  apply Forall_cons in Htruthy as [Hw _]. destruct w as [|c r]; [done|].
  unfold Client.camel_words. rewrite imap_cons. simpl.
  rewrite lower_upper_unit. do 2 f_equal.
  rewrite (imap_ext _ (const Normalizer.capitalize)); [by rewrite imap_const|].
  intros i x _. by destruct x.
Qed.

Lemma client_toCamelCase_alnum (str : jsstr) : Words.alphanumeric (Client.toCamelCase str).
Proof. rewrite client_toCamelCase. apply toCamelCase_alnum. Qed.

Lemma or_else_alnum (a b : jsstr) :
  Words.alphanumeric a → Words.alphanumeric b → Words.alphanumeric (or_else a b).
Proof. unfold or_else. by destruct (truthy a). Qed.

Lemma genericFeature_alnum : Words.alphanumeric Normalizer.genericFeature.
Proof. apply (bool_decide_unpack _). vm_compute. exact I. Qed.

End NormalizerShape.

(** X2: the names the normalizer makes are file-safe.  Whatever the input,
    the results of [toPascalCase], [toCamelCase] and [toShortFeatureName],
    on the server and in the browser, hold Basic Latin letters and digits
    only: no separator, no dot, no white space. *)
Theorem normalizer_results_alphanumeric {CM : CaseMapping} (str : jsstr) :
  Words.alphanumeric (Normalizer.toPascalCase str)
  ∧ Words.alphanumeric (Normalizer.toCamelCase str)
  ∧ Words.alphanumeric (Normalizer.toShortFeatureName str)
  ∧ Words.alphanumeric (Client.toCamelCase str)
  ∧ Words.alphanumeric (Client.toShortFeatureName str).
Proof.
  split_and!.
  - apply toPascalCase_alnum.
  - apply toCamelCase_alnum.
  - unfold Normalizer.toShortFeatureName.
    destruct (Normalizer.significant_words str);
      repeat apply or_else_alnum;
      first [apply toCamelCase_alnum | apply genericFeature_alnum].
  - apply client_toCamelCase_alnum.
  - unfold Client.toShortFeatureName.
    destruct (Client.significant_words str);
      repeat apply or_else_alnum;
      first [apply client_toCamelCase_alnum | apply genericFeature_alnum].
Qed.

(** ** The normalizer: PascalCase names, lengths, and the two copies *)

Section NormalizerLengths.
Context {CM : CaseMapping}.

Lemma filter_all {A} (P : A → Prop) `{∀ x, Decision (P x)} (l : list A) :
  Forall P l → filter P l = l.
Proof.
  induction 1 as [|x l Hx Hl IH]; [done|].
  rewrite filter_cons_True by done. by rewrite IH.
Qed.

Lemma split_without_separator (sep : N) (s : jsstr) : sep ∉ s → split sep s = [s].
Proof.
  induction s as [|c t IH]; [done|]. intros Hnot.
  apply not_elem_of_cons in Hnot as [Hc Ht]. simpl.
  rewrite (proj2 (N.eqb_neq c sep)) by done. by rewrite IH.
Qed.

Lemma alnum_no_space (s : jsstr) : Words.alphanumeric s → 32%N ∉ s.
Proof.
  intros H Hin. unfold Words.alphanumeric in H. rewrite Forall_forall in H.
  by specialize (H _ Hin).
Qed.

Lemma alnum_keeps (s : jsstr) :
  Words.alphanumeric s → Forall (λ c, Normalizer.keeps_alnum_space c = true) s.
Proof.
  intros H. eapply Forall_impl; [exact H|]. intros c Hc.
  unfold Normalizer.keeps_alnum_space. unfold Words.is_alnum in Hc. by rewrite Hc.
Qed.

(** On a word of letters and digits [toPascalCase] only raises the first
    letter. *)
Lemma toPascalCase_word (w : jsstr) :
  Words.alphanumeric w → Normalizer.toPascalCase w = Normalizer.capitalize w.
Proof.
  intros Hw. unfold Normalizer.toPascalCase.
  rewrite (filter_all (λ c, Normalizer.keeps_alnum_space c = true) w)
    by by apply alnum_keeps.
  rewrite split_without_separator by by apply alnum_no_space.
  destruct w as [|c r]; [done|].
  rewrite filter_cons_True by done. simpl. by rewrite app_nil_r.
Qed.

Lemma toPascalCase_head (str : jsstr) :
  Normalizer.toPascalCase str = []
  ∨ ∃ c r, Normalizer.toPascalCase str = upper_unit c :: r.
Proof.
  unfold Normalizer.toPascalCase. fold (Words.pascal_words str).
  assert (Htruthy : Forall (λ w, truthy w = true) (Words.pascal_words str)).
  { apply Forall_forall. intros w Hw. by apply list_elem_of_filter in Hw as [? _]. }
  destruct (Words.pascal_words str) as [|w ws]; [by left|].
  apply Forall_cons in Htruthy as [Hw _]. destruct w as [|c r]; [done|].
  right. simpl. eauto.
Qed.

Lemma toPascalCase_idempotent (str : jsstr) :
  Normalizer.toPascalCase (Normalizer.toPascalCase str) = Normalizer.toPascalCase str.
Proof.
  rewrite toPascalCase_word by apply toPascalCase_alnum.
  destruct (toPascalCase_head str) as [->|(c & r & ->)]; [done|].
  simpl. by rewrite upper_upper_unit.
Qed.

Lemma length_capitalize (w : jsstr) : length (Normalizer.capitalize w) = length w.
Proof. by destruct w. Qed.

Lemma length_concat_split (sep : N) (s : jsstr) : length (concat (split sep s)) ≤ length s.
Proof.
  induction s as [|c t IH]; [done|]. simpl.
  destruct (c =? sep)%N; simpl; [lia|].
  destruct (split sep t) as [|w ws]; simpl in *; lia.
Qed.

Lemma length_concat_filter (P : jsstr → Prop) `{∀ x, Decision (P x)} (l : list jsstr) :
  length (concat (filter P l)) ≤ length (concat l).
Proof.
  induction l as [|w l IH]; [done|]. rewrite filter_cons.
  destruct (decide (P w)); simpl; rewrite ?length_app; lia.
Qed.

Lemma length_concat_capitalize (l : list jsstr) :
  length (concat (Normalizer.capitalize <$> l)) = length (concat l).
Proof.
  induction l as [|w l IH]; [done|]. rewrite fmap_cons. cbn [concat].
  by rewrite !length_app, length_capitalize, IH.
Qed.

Lemma length_toPascalCase (str : jsstr) : length (Normalizer.toPascalCase str) ≤ length str.
Proof.
  unfold Normalizer.toPascalCase. rewrite length_concat_capitalize.
  etrans; [apply length_concat_filter|].
  etrans; [apply length_concat_split|]. apply length_filter.
Qed.

Lemma length_toCamelCase (str : jsstr) :
  length (Normalizer.toCamelCase str) = length (Normalizer.toPascalCase str).
Proof. unfold Normalizer.toCamelCase. by destruct (Normalizer.toPascalCase str). Qed.

Lemma toCamelCase_truthy (s : jsstr) :
  Words.alphanumeric s → truthy s = true → truthy (Normalizer.toCamelCase s) = true.
Proof.
  intros Hs Ht. unfold Normalizer.toCamelCase. rewrite toPascalCase_word by done.
  by destruct s.
Qed.

(** The loop that puts the words together stays within its budget,
    whatever the capitalisation. *)
Lemma combine_words_bound (pascal : jsstr → jsstr) (acc : jsstr) (ws : list jsstr) :
  length acc < 25 → length (Normalizer.combine_words pascal acc ws) ≤ 25.
Proof.
  revert acc. induction ws as [|w ws IH]; intros acc Hacc; simpl; [lia|].
  destruct (length acc + length (pascal w) <? 25) eqn:E.
  - apply Nat.ltb_lt in E. apply IH. rewrite length_app. lia.
  - destruct (truthy acc); [lia|]. rewrite length_take. lia.
Qed.

Lemma combine_words_ext (p1 p2 : jsstr → jsstr) (acc : jsstr) (ws : list jsstr) :
  Forall (λ w, p1 w = p2 w) ws →
  Normalizer.combine_words p1 acc ws = Normalizer.combine_words p2 acc ws.
Proof.
  intros H. revert acc. induction H as [|w ws Hw Hws IH]; intros acc; simpl; [done|].
  rewrite Hw. destruct (_ <? 25); [apply IH|done].
Qed.

Lemma combine_words_alnum (acc : jsstr) (ws : list jsstr) :
  Forall (λ w, Words.alphanumeric w ∧ truthy w = true) ws →
  Words.alphanumeric acc →
  truthy acc = true ∨ ws ≠ [] →
  Words.alphanumeric (Normalizer.combine_words Normalizer.capitalize acc ws)
  ∧ truthy (Normalizer.combine_words Normalizer.capitalize acc ws) = true.
Proof.
  intros H. revert acc. induction H as [|w ws [Hw Hwt] Hws IH]; intros acc Hacc Hne; simpl.
  - destruct Hne; done.
  - destruct (_ <? 25).
    + apply IH.
      * apply Forall_app. split; [done|by apply capitalize_alnum].
      * left. destruct w; [done|]. by destruct acc.
    + destruct (truthy acc) eqn:Ht; [done|]. split.
      * unfold Words.alphanumeric. by apply Forall_take.
      * destruct w as [|c r]; [done|]. simpl.
        replace (S (length r) `min` 25) with (S (length r `min` 24)) by lia. done.
Qed.

(** Under [only_plain_spaces] the significant words are made of letters
    and digits, and the two copies of the function see the same words. *)
Lemma significant_words_alnum (title w : jsstr) :
  Words.only_plain_spaces (toLowerCase title) →
  w ∈ Normalizer.significant_words title →
  Words.alphanumeric w ∧ truthy w = true.
Proof.
  intros Hplain Hw. unfold Normalizer.significant_words in Hw.
  apply list_elem_of_filter in Hw as [Hlen Hw]. split.
  - apply Forall_forall. intros c Hc.
    destruct (split_pieces _ _ _ _ Hw Hc) as [Hin Hne].
    apply list_elem_of_filter in Hin as [Hk Hin].
    unfold Words.only_plain_spaces in Hplain. rewrite Forall_forall in Hplain.
    specialize (Hplain _ Hin). unfold Normalizer.keeps_lower_space in Hk.
    unfold Words.is_alnum.
    destruct (is_lower c); [done|]. destruct (is_digit c); [by rewrite orb_true_r|].
    simpl in Hk. by specialize (Hplain Hk).
  - apply andb_true_iff in Hlen as [Hlen _]. apply Nat.ltb_lt in Hlen.
    destruct w; [simpl in Hlen; lia|done].
Qed.

Lemma client_significant_words (title : jsstr) :
  Client.significant_words title = Normalizer.significant_words title.
Proof.
  unfold Client.significant_words, Normalizer.significant_words.
  apply list_filter_iff. intros w. by rewrite common_words_agree.
Qed.

End NormalizerLengths.

(** X3: the two copies of [toCamelCase] agree on every string, and a
    PascalCase name is a fixed point of [toPascalCase]; so the camelCase
    form of a page object name (what a fixture entry is keyed by) is the
    camelCase form of the scenario title itself (the [page] of its group).
    Neither function makes a string longer. *)
Theorem camel_case_of_pascal_case {CM : CaseMapping} (str : jsstr) :
  Client.toCamelCase str = Normalizer.toCamelCase str
  ∧ Normalizer.toPascalCase (Normalizer.toPascalCase str) = Normalizer.toPascalCase str
  ∧ Normalizer.toCamelCase (Normalizer.toPascalCase str) = Normalizer.toCamelCase str
  ∧ length (Normalizer.toCamelCase str) = length (Normalizer.toPascalCase str)
  ∧ length (Normalizer.toPascalCase str) ≤ length str.
Proof.
  split_and!.
  - apply client_toCamelCase.
  - apply toPascalCase_idempotent.
  - unfold Normalizer.toCamelCase. by rewrite toPascalCase_idempotent.
  - apply length_toCamelCase.
  - apply length_toPascalCase.
Qed.

(** X4: for a title whose lower-cased form has no white space but the
    space, the short feature name has at most 25 characters, and the copy
    of the function in the browser gives the same name as the server's (the
    browser keys the groups it creates by it, the server looks the
    generated files up by it). *)
Theorem short_feature_name_bounded {CM : CaseMapping} (scenarioTitle : jsstr) :
  Words.only_plain_spaces (toLowerCase scenarioTitle) →
  length (Normalizer.toShortFeatureName scenarioTitle) ≤ 25
  ∧ Client.toShortFeatureName scenarioTitle = Normalizer.toShortFeatureName scenarioTitle.
Proof.
  intros Hplain.
  assert (Hwords : Forall (λ w, Words.alphanumeric w ∧ truthy w = true)
                     (Normalizer.significant_words scenarioTitle)).
  { apply Forall_forall. intros w Hw. by eapply significant_words_alnum. }
  assert (Hsame : Normalizer.combine_words Normalizer.toPascalCase []
                    (Normalizer.significant_words scenarioTitle)
                  = Normalizer.combine_words Normalizer.capitalize []
                      (Normalizer.significant_words scenarioTitle)).
  { apply combine_words_ext. eapply Forall_impl; [exact Hwords|].
    intros w [Hw _]. by apply toPascalCase_word. }
  split.
  - unfold Normalizer.toShortFeatureName.
    destruct (Normalizer.significant_words scenarioTitle) as [|w0 ws] eqn:Hsig.
    + unfold or_else. destruct (truthy _).
      * rewrite length_toCamelCase. etrans; [apply length_toPascalCase|].
        rewrite length_take. lia.
      * vm_compute. lia.
    + rewrite Hsame.
      destruct (combine_words_alnum [] (w0 :: ws) Hwords) as [Ha Ht];
        [constructor|by right|].
      unfold or_else at 1. rewrite toCamelCase_truthy by done.
      rewrite length_toCamelCase. etrans; [apply length_toPascalCase|].
      apply combine_words_bound. simpl. lia.
  - unfold Client.toShortFeatureName, Normalizer.toShortFeatureName.
    rewrite client_significant_words.
    destruct (Normalizer.significant_words scenarioTitle) as [|w0 ws];
      cbv zeta; rewrite !client_toCamelCase; [done|].
    by rewrite Hsame.
Qed.

(** ** The validator: when it passes and what it throws *)

Section ValidatorOutcome.
Context {CM : CaseMapping}.

Lemma first_missing_None (mandatory trimmedHeaders : list jsstr) :
  Validator.first_missing mandatory trimmedHeaders = None
  ↔ Forall (λ name, name ∈ trimmedHeaders) mandatory.
Proof.
  induction mandatory as [|m rest IH]; simpl; [split; [constructor|done]|].
  destruct (array_includes m trimmedHeaders) eqn:E.
  - rewrite IH, Forall_cons. split; [|tauto]. intros H. split; [|done].
    destruct (decide (m ∈ trimmedHeaders)) as [|Hn]; [done|].
    apply array_includes_false in Hn. congruence.
  - split; [done|]. intros H. apply Forall_cons in H as [H _].
    apply array_includes_false in E. done.
Qed.

(** The turn of the loop of the validator for one row. *)
Lemma scan_rows_cons (cols : Validator.columns) (i : nat) (last : option jsstr)
    (has : bool) (r : row) (rest : list row) :
  Validator.scan_rows cols i last has (r :: rest)
  = let title := trimmed_string (cell_at r (Validator.testScenarioColIndex cols)) in
    let current := if truthy title then title else default [] last in
    let last' := if truthy title then Some title else last in
    let w1 := if truthy current then [] else [Validator.ScenarioEmpty (i + 2)] in
    let has' := if truthy current then true else has in
    if Words.priority_accepted cols r
    then let '(ws, res) := Validator.scan_rows cols (S i) last' has' rest in
         (w1 ++ Words.incomplete_warning cols i r ++ ws, res)
    else (w1 ++ Words.incomplete_warning cols i r,
          inl (Validator.InvalidPriority (i + 2) (Words.priority_read cols r))).
Proof.
  cbn [Validator.scan_rows]. cbv zeta.
  unfold Words.priority_accepted, Words.priority_read, Words.incomplete_warning.
  destruct (truthy (trimmed_string (cell_at r (Validator.testScenarioColIndex cols))));
    destruct last as [t|]; simpl;
    destruct (truthy (match cell_at r (Validator.testcasePriorityColIndex cols) with
                      | Str s => toUpperCase (trim s) | _ => [] end));
    destruct (array_includes _ Validator.valid_priorities); reflexivity.
Qed.

Lemma titled_next (last : option jsstr) (title : jsstr) :
  Words.titled last → Words.titled (if truthy title then Some title else last).
Proof.
  intros H. destruct (truthy title) eqn:E; [|done]. by intros t [= <-].
Qed.

Lemma truthy_current (last : option jsstr) (title : jsstr) :
  Words.titled last →
  truthy (if truthy title then title else default [] last)
  = truthy title || match last with Some _ => true | None => false end.
Proof.
  intros H. destruct (truthy title) eqn:E; [done|].
  destruct last as [t|]; [|done]. simpl. by apply H.
Qed.

Lemma scan_rows_passes (cols : Validator.columns) (rows : list row) (i : nat)
    (last : option jsstr) (has : bool) :
  Words.titled last →
  Forall (λ r, Words.priority_accepted cols r = true) rows →
  ∃ ws, Validator.scan_rows cols i last has rows
        = (ws, inr (Words.scanned_has (Validator.testScenarioColIndex cols) last has rows)).
Proof.
  intros Hlast H. revert i last has Hlast.
  induction H as [|r rows Hr Hrows IH]; intros i last has Hlast.
  - exists []. simpl. unfold Words.scanned_has. simpl.
    by destruct last; rewrite !orb_false_r.
  - rewrite scan_rows_cons. cbv zeta. rewrite Hr, truthy_current by done.
    set (title := trimmed_string (cell_at r (Validator.testScenarioColIndex cols))).
    destruct (IH (S i) (if truthy title then Some title else last)
                (if truthy title || match last with Some _ => true | None => false end
                 then true else has) (titled_next _ _ Hlast)) as [ws ->].
    eexists. f_equal. f_equal. unfold Words.scanned_has. cbn [existsb].
    unfold Words.has_title at 2. fold title.
    destruct (truthy title), last, has, rows; simpl; by rewrite ?orb_true_r.
Qed.

Lemma scan_rows_throws (cols : Validator.columns) (before : list row) (r : row)
    (after : list row) (i : nat) (last : option jsstr) (has : bool) :
  Forall (λ r, Words.priority_accepted cols r = true) before →
  Words.priority_accepted cols r = false →
  ∃ ws, Validator.scan_rows cols i last has (before ++ r :: after)
        = (ws, inl (Validator.InvalidPriority (i + length before + 2)
                      (Words.priority_read cols r))).
Proof.
  intros H Hr. revert i last has.
  induction H as [|r0 before Hr0 Hbefore IH]; intros i last has.
  - simpl app. rewrite scan_rows_cons. cbv zeta. rewrite Hr.
    eexists. do 3 f_equal. simpl. lia.
  - rewrite <- app_comm_cons, scan_rows_cons. cbv zeta. rewrite Hr0.
    edestruct IH as [ws ->]. eexists. do 3 f_equal. simpl. lia.
Qed.

Lemma scan_rows_accepts (cols : Validator.columns) (rows : list row) (i : nat)
    (last : option jsstr) (has : bool) (ws : list Validator.warning) (h : bool) :
  Validator.scan_rows cols i last has rows = (ws, inr h) →
  Forall (λ r, Words.priority_accepted cols r = true) rows.
Proof.
  revert i last has ws. induction rows as [|r rows IH]; intros i last has ws; [constructor|].
  rewrite scan_rows_cons. cbv zeta.
  destruct (Words.priority_accepted cols r) eqn:Hr; [|done].
  destruct (Validator.scan_rows cols (S i) _ _ rows) as [ws' res] eqn:E.
  intros [= _ ->]. constructor; [done|]. by eapply IH.
Qed.

Lemma existsb_has_title (idx : option nat) (rows : list row) :
  existsb (Words.has_title idx) rows = true
  ↔ Exists (λ r, Words.has_title idx r = true) rows.
Proof.
  rewrite existsb_exists, Exists_exists. split; intros (r & Hin & Hr); exists r.
  - split; [by apply list_elem_of_In|done].
  - split; [by apply list_elem_of_In|done].
Qed.

End ValidatorOutcome.

(** X5: when the validator passes.  [validateExcelSchema] returns normally
    exactly when every mandatory name is among the trimmed headers, the
    priority of every row (its cell in the first priority column,
    upper-cased, when it is a string) is empty or one of P1, P2, P3, and
    the sheet has no data row or at least one row that states a scenario
    title. *)
Theorem validation_passes_iff {CM : CaseMapping} (headers : row) (dataRows : list row) :
  let cols := Validator.find_columns (trimHeaders headers) in
  (Validator.validateExcelSchema headers dataRows).2 = inr tt
  ↔ Forall (λ name, name ∈ trimHeaders headers) Validator.MANDATORY_HEADERS
    ∧ Forall (λ r, Words.priority_accepted cols r = true) dataRows
    ∧ (dataRows = []
       ∨ Exists (λ r, Words.has_title (Validator.testScenarioColIndex cols) r = true)
           dataRows).
Proof.
  intros cols. unfold Validator.validateExcelSchema. rewrite <- first_missing_None.
  destruct (Validator.first_missing _ _) as [m|]; [simpl; split; [done|by intros [? _]]|].
  fold cols.
  destruct (Validator.scan_rows cols 0 None false dataRows) as [ws res] eqn:E. split.
  - intros Hok. destruct res as [e|h]; [done|].
    pose proof (scan_rows_accepts _ _ _ _ _ _ _ E) as Hacc.
    destruct (scan_rows_passes cols dataRows 0 None false ltac:(done) Hacc) as [ws' E'].
    rewrite E in E'. injection E' as _ ->.
    split; [done|]. split; [done|].
    destruct dataRows as [|r rows]; [by left|right].
    apply existsb_has_title. unfold Words.scanned_has in Hok. simpl in Hok.
    simpl. by destruct (_ || _).
  - intros (_ & Hacc & Hrows).
    destruct (scan_rows_passes cols dataRows 0 None false ltac:(done) Hacc) as [ws' E'].
    rewrite E in E'. injection E' as _ ->. unfold Words.scanned_has.
    destruct Hrows as [->|Hex]; [done|].
    apply existsb_has_title in Hex. unfold cols in Hex.
    cbn [Validator.testScenarioColIndex Validator.find_columns] in Hex.
    rewrite Hex. by rewrite orb_true_r.
Qed.

(** X6: an unacceptable priority is a fatal error that names the row.  When
    the headers are complete and the first row whose priority is neither
    empty nor P1, P2 or P3 (in any letter case) is the data row of index
    [k], the validator throws the error of an invalid priority with the row
    number [k + 2] (the number of the row in the sheet, under the header
    row) and the upper-cased value, whatever the rows after it. *)
Theorem invalid_priority_names_the_row {CM : CaseMapping}
    (headers : row) (before : list row) (r : row) (after : list row) :
  let cols := Validator.find_columns (trimHeaders headers) in
  Forall (λ name, name ∈ trimHeaders headers) Validator.MANDATORY_HEADERS →
  Forall (λ r, Words.priority_accepted cols r = true) before →
  Words.priority_accepted cols r = false →
  (Validator.validateExcelSchema headers (before ++ r :: after)).2
  = inl (Validator.InvalidPriority (length before + 2) (Words.priority_read cols r))
  ∧ Parser.parseRows headers (before ++ r :: after)
    = inl (Parser.SchemaError
             (Validator.InvalidPriority (length before + 2) (Words.priority_read cols r))).
Proof.
  intros cols Hheaders Hbefore Hr.
  assert (H : (Validator.validateExcelSchema headers (before ++ r :: after)).2
              = inl (Validator.InvalidPriority (length before + 2)
                       (Words.priority_read cols r))).
  { unfold Validator.validateExcelSchema.
    rewrite (proj2 (first_missing_None _ _) Hheaders). fold cols.
    destruct (scan_rows_throws cols before r after 0 None false Hbefore Hr) as [ws ->].
    done. }
  split; [done|]. rewrite parseRows_headers by (by apply mandatory_headers).
  by rewrite H.
Qed.

(** ** The rows the grouping loop drops *)

Section DroppedRows.
Context {CM : CaseMapping}.

Lemma own_title_has_title (idx : option nat) (r : row) :
  Words.own_title idx r
  = if Words.has_title idx r then Some (trimmed_string (cell_at r idx)) else None.
Proof.
  unfold Words.own_title, Words.has_title, trimmed_string.
  by destruct (cell_at r idx).
Qed.

Lemma scenario_warnings_app (ws1 ws2 : list Validator.warning) :
  Words.scenario_warnings (ws1 ++ ws2)
  = Words.scenario_warnings ws1 ++ Words.scenario_warnings ws2.
Proof. apply omap_app. Qed.

Lemma skipped_for_scenario_app (c1 c2 : list Parser.diagnostic) :
  Words.skipped_for_scenario (c1 ++ c2)
  = Words.skipped_for_scenario c1 ++ Words.skipped_for_scenario c2.
Proof. apply omap_app. Qed.

Lemma incomplete_warning_no_scenario (cols : Validator.columns) (i : nat) (r : row) :
  Words.scenario_warnings (Words.incomplete_warning cols i r) = [].
Proof. unfold Words.incomplete_warning. by destruct (_ && _). Qed.

(** The warnings of the validator about a missing scenario are those of
    the rows before the first title. *)
Lemma scan_rows_scenario_warnings (cols : Validator.columns) (rows : list row) (i : nat)
    (last : option jsstr) (has : bool) (ws : list Validator.warning) (h : bool) :
  Words.titled last →
  Validator.scan_rows cols i last has rows = (ws, inr h) →
  Words.scenario_warnings ws
  = match last with
    | Some _ => []
    | None => seq (i + 2) (Words.leading_untitled (Validator.testScenarioColIndex cols) rows)
    end.
Proof.
  revert i last has ws. induction rows as [|r rows IH]; intros i last has ws Hlast.
  - simpl. intros [= <- _]. by destruct last.
  - rewrite scan_rows_cons. cbv zeta.
    destruct (Words.priority_accepted cols r); [|done].
    destruct (Validator.scan_rows cols (S i) _ _ rows) as [ws' res] eqn:E.
    intros [= <- ->]. apply IH in E; [|by apply titled_next].
    rewrite !scenario_warnings_app, incomplete_warning_no_scenario, E.
    rewrite truthy_current by done. cbn [Words.leading_untitled].
    unfold Words.has_title.
    destruct (truthy (trimmed_string (cell_at r (Validator.testScenarioColIndex cols))));
      destruct last; done.
Qed.

Lemma group_row_skipped (hs : list jsstr) (idx : option nat) (st : Parser.state)
    (i : nat) (r : row) :
  Words.skipped_for_scenario (Parser.console (Parser.group_row hs idx st i r))
  = Words.skipped_for_scenario (Parser.console st)
    ++ match Parser.determine r idx (Parser.lastValidScenarioTitle st) with
       | Some _ => []
       | None => [i + 2]
       end.
Proof.
  unfold Parser.group_row.
  destruct (Parser.determine r idx (Parser.lastValidScenarioTitle st)) as [T|]; simpl.
  - destruct (negb (truthy T)); simpl.
    { by rewrite skipped_for_scenario_app. }
    destruct (negb (truthy (Normalizer.toCamelCase T))); simpl.
    { by rewrite skipped_for_scenario_app. }
    by rewrite app_nil_r.
  - by rewrite skipped_for_scenario_app.
Qed.

Lemma group_rows_skipped (hs : list jsstr) (idx : option nat) (rows : list row)
    (st : Parser.state) (i : nat) :
  Words.skipped_for_scenario (Parser.console (Parser.group_rows hs idx st i rows))
  = Words.skipped_for_scenario (Parser.console st)
    ++ match Parser.lastValidScenarioTitle st with
       | Some _ => []
       | None => seq (i + 2) (Words.leading_untitled idx rows)
       end.
Proof.
  revert st i. induction rows as [|r rows IH]; intros st i; simpl.
  - destruct (Parser.lastValidScenarioTitle st); by rewrite app_nil_r.
  - rewrite IH, group_row_skipped, group_row_last, determine_own_title, own_title_has_title.
    rewrite <- app_assoc. f_equal.
    destruct (Words.has_title idx r); destruct (Parser.lastValidScenarioTitle st); done.
Qed.

End DroppedRows.

(** X7: the validator and the grouping loop agree on the rows that cannot
    be grouped for lack of a scenario.  When the validation passes, the
    rows the loop skips with the message of a missing scenario are the rows
    the validator has warned about, and they are the rows before the first
    row that states a title: the row numbers 2, 3, ... up to that row.  No
    later row is ever dropped for a missing scenario. *)
Theorem dropped_rows_are_the_leading_ones {CM : CaseMapping}
    (headers : row) (dataRows : list row) (ws : list Validator.warning) :
  Validator.validateExcelSchema headers dataRows = (ws, inr tt) →
  let idx := array_index_of (lit "Test Scenario") (trimHeaders headers) in
  ∃ st, Parser.parseRows headers dataRows = inr st
        ∧ Words.skipped_for_scenario (Parser.console st) = Words.scenario_warnings ws
        ∧ Words.scenario_warnings ws = seq 2 (Words.leading_untitled idx dataRows).
Proof.
  intros Hval idx.
  rewrite parseRows_headers by (eapply validated_headers; by rewrite Hval).
  rewrite Hval. simpl.
  eexists. split; [reflexivity|].
  rewrite group_rows_skipped. simpl. fold idx.
  unfold Validator.validateExcelSchema in Hval.
  destruct (Validator.first_missing _ _); [done|].
  destruct (Validator.scan_rows _ 0 None false dataRows) as [ws' res] eqn:E.
  destruct res as [e|h]; [by injection Hval|].
  assert (ws' = ws) as -> by (by destruct (_ && _); injection Hval).
  apply scan_rows_scenario_warnings in E; [|done].
  by rewrite E.
Qed.

(** ** Every row is accounted for *)

Section Conservation.
Context {CM : CaseMapping}.

Lemma total_tests_cons (g : ScenarioGroup) (m : list ScenarioGroup) :
  Words.total_tests (g :: m) = length (tests g) + Words.total_tests m.
Proof. reflexivity. Qed.

Lemma total_tests_push (key : jsstr) (tc : TestCase) (m : Parser.grouped) :
  is_Some (Parser.get key m) →
  Words.total_tests (Parser.push_test key tc m) = S (Words.total_tests m).
Proof.
  induction m as [|h t IH]; simpl; [by intros [? ?]|].
  destruct (JS.eqb (shortFeatureName h) key) eqn:E; intros Hsome.
  - rewrite !total_tests_cons. simpl. rewrite length_app. simpl. lia.
  - rewrite !total_tests_cons, IH by done. lia.
Qed.

Lemma total_tests_set (key : jsstr) (g : ScenarioGroup) (m : Parser.grouped) :
  Parser.get key m = None →
  Words.total_tests (Parser.set key g m) = Words.total_tests m + length (tests g).
Proof.
  induction m as [|h t IH]; simpl; [intros _; rewrite total_tests_cons; unfold Words.total_tests; simpl; lia|].
  destruct (JS.eqb (shortFeatureName h) key) eqn:E; [done|]. intros Hnone.
  rewrite !total_tests_cons, IH by done. lia.
Qed.

Lemma group_row_accounts (hs : list jsstr) (idx : option nat) (st : Parser.state)
    (i : nat) (r : row) :
  let st' := Parser.group_row hs idx st i r in
  Words.total_tests (Parser.groupedMap st') + length (Parser.console st')
  = S (Words.total_tests (Parser.groupedMap st) + length (Parser.console st)).
Proof.
  unfold Parser.group_row.
  destruct (Parser.determine r idx (Parser.lastValidScenarioTitle st)) as [T|]; simpl.
  2:{ rewrite length_app. simpl. lia. }
  destruct (negb (truthy T)); simpl; [rewrite length_app; simpl; lia|].
  destruct (negb (truthy (Normalizer.toCamelCase T))); simpl;
    [rewrite length_app; simpl; lia|].
  unfold Parser.has.
  destruct (Parser.get (Normalizer.toShortFeatureName T) (Parser.groupedMap st)) as [g|] eqn:Hget.
  - rewrite total_tests_push by (rewrite Hget; eauto). lia.
  - rewrite total_tests_push.
    + rewrite total_tests_set by done. simpl. lia.
    + rewrite get_set_fresh by done. eauto.
Qed.

End Conservation.

(** X8: no row is lost and none is counted twice.  After the grouping
    loop, the number of test cases in all the groups plus the number of
    messages about skipped rows is the number of data rows: every row has
    given exactly one test case or exactly one message. *)
Theorem every_row_is_accounted_for {CM : CaseMapping}
    (trimmedHeaders : list jsstr) (testScenarioColIndex : option nat) (dataRows : list row) :
  let st := Parser.group_rows trimmedHeaders testScenarioColIndex Parser.initial 0 dataRows in
  Words.total_tests (Parser.groupedMap st) + length (Parser.console st) = length dataRows.
Proof.
  cbv zeta.
  assert (H : ∀ rows st i,
            Words.total_tests (Parser.groupedMap
                                 (Parser.group_rows trimmedHeaders testScenarioColIndex st i rows))
            + length (Parser.console
                        (Parser.group_rows trimmedHeaders testScenarioColIndex st i rows))
            = Words.total_tests (Parser.groupedMap st) + length (Parser.console st)
              + length rows).
  { induction rows as [|r rows IH]; intros st i; simpl; [lia|].
    rewrite IH. pose proof (group_row_accounts trimmedHeaders testScenarioColIndex st i r) as H.
    cbv zeta in H. lia. }
  rewrite H. reflexivity.
Qed.

(** ** What the groups look like *)

Section GroupShape.
Context {CM : CaseMapping}.

Lemma drop_while_idemp (p : N → bool) (s : jsstr) :
  drop_while p (drop_while p s) = drop_while p s.
Proof.
  induction s as [|c t IH]; simpl; [done|].
  destruct (p c) eqn:E; [done|]. simpl. by rewrite E.
Qed.

Lemma drop_while_head (p : N → bool) (s : jsstr) :
  match drop_while p s with [] => True | c :: _ => p c = false end.
Proof.
  induction s as [|c t IH]; simpl; [done|].
  destruct (p c) eqn:E; [done|]. simpl. done.
Qed.

Lemma drop_while_app_last (p : N → bool) (l : jsstr) (c : N) :
  p c = false → drop_while p (l ++ [c]) = drop_while p l ++ [c].
Proof.
  intros Hc. induction l as [|x l IH]; simpl; [by rewrite Hc|].
  by destruct (p x).
Qed.

Lemma drop_while_elem (p : N → bool) (s : jsstr) (x : N) :
  x ∈ drop_while p s → x ∈ s.
Proof.
  induction s as [|c t IH]; simpl; [done|].
  destruct (p c); [|done]. intros H. right. auto.
Qed.

Lemma trim_elem (s : jsstr) (x : N) : x ∈ trim s → x ∈ s.
Proof.
  unfold trim. rewrite elem_of_reverse. intros H.
  apply drop_while_elem in H. rewrite elem_of_reverse in H.
  by apply drop_while_elem in H.
Qed.

(** Trimming a trimmed string changes nothing. *)
Lemma trim_idemp (s : jsstr) : trim (trim s) = trim s.
Proof.
  unfold trim.
  pose proof (drop_while_head is_space s) as Hhead.
  destruct (drop_while is_space s) as [|c a]; [done|].
  rewrite reverse_cons, drop_while_app_last by done.
  rewrite reverse_app, reverse_singleton. cbn [app drop_while]. rewrite Hhead.
  rewrite reverse_cons, reverse_involutive.
  rewrite drop_while_app_last by done.
  rewrite drop_while_idemp.
  by rewrite reverse_app, reverse_singleton.
Qed.

Lemma build_test_well_formed (hs : list jsstr) (r : row) (T : jsstr) (n : nat) :
  Words.well_formed_test (Parser.build_test hs r T n).
Proof.
  unfold Words.well_formed_test, Parser.build_test. cbn.
  split_and!.
  - unfold or_else. destruct (truthy (Parser.field hs r "Test Case Description")) eqn:E; done.
  - unfold or_else. destruct (Parser.field hs r "Test Case Description"); [by left|by right].
  - apply Forall_forall. intros s Hs.
    apply list_elem_of_filter in Hs as [Hs Hin].
    apply list_elem_of_fmap in Hin as (w & -> & Hw).
    split_and!; [done|apply trim_idemp|].
    intros H10. apply trim_elem in H10.
    by destruct (split_pieces _ _ _ _ Hw H10).
Qed.

Lemma keys_push_test (key : jsstr) (tc : TestCase) (m : Parser.grouped) :
  shortFeatureName <$> Parser.push_test key tc m = shortFeatureName <$> m.
Proof.
  induction m as [|h t IH]; simpl; [done|].
  destruct (JS.eqb (shortFeatureName h) key); [done|].
  rewrite !fmap_cons. by f_equal.
Qed.

Lemma get_None_keys (key : jsstr) (m : Parser.grouped) :
  Parser.get key m = None → key ∉ shortFeatureName <$> m.
Proof.
  induction m as [|h t IH]; simpl; [intros _; apply not_elem_of_nil|].
  destruct (JS.eqb (shortFeatureName h) key) eqn:E; [done|].
  intros Hnone. apply not_elem_of_cons. split; [|auto].
  apply eqb_neq in E. congruence.
Qed.

Lemma set_fresh (key : jsstr) (g : ScenarioGroup) (m : Parser.grouped) :
  Parser.get key m = None → Parser.set key g m = m ++ [g].
Proof.
  induction m as [|h t IH]; simpl; [done|].
  destruct (JS.eqb (shortFeatureName h) key); [done|]. intros H. by rewrite IH.
Qed.

Lemma push_test_fresh (key : jsstr) (tc : TestCase) (g : ScenarioGroup) (m : Parser.grouped) :
  Parser.get key m = None → shortFeatureName g = key →
  Parser.push_test key tc (m ++ [g])
  = m ++ [{| page := page g; scenario := scenario g;
             shortFeatureName := shortFeatureName g; tests := tests g ++ [tc] |}].
Proof.
  intros Hnone Hg. induction m as [|h t IH]; simpl in *.
  - by rewrite (proj2 (eqb_eq _ _) Hg).
  - destruct (JS.eqb (shortFeatureName h) key); [done|]. by rewrite IH.
Qed.

Lemma Forall_push_test_step (P : ScenarioGroup → Prop) (key : jsstr) (tc : TestCase)
    (m : Parser.grouped) :
  (∀ g, P g → P {| page := page g; scenario := scenario g;
                   shortFeatureName := shortFeatureName g; tests := tests g ++ [tc] |}) →
  Forall P m → Forall P (Parser.push_test key tc m).
Proof.
  intros Hstep. induction 1 as [|h t Hh Ht IH]; simpl; [done|].
  destruct (JS.eqb (shortFeatureName h) key); constructor; auto.
Qed.

Lemma well_formed_group_push (tc : TestCase) (g : ScenarioGroup) :
  Words.well_formed_test tc →
  truthy (scenario g) = true → trim (scenario g) = scenario g →
  page g = Normalizer.toCamelCase (scenario g) → truthy (page g) = true →
  shortFeatureName g = Normalizer.toShortFeatureName (scenario g) →
  Forall Words.well_formed_test (tests g) →
  Words.well_formed_group
    {| page := page g; scenario := scenario g;
       shortFeatureName := shortFeatureName g; tests := tests g ++ [tc] |}.
Proof.
  intros Htc ? ? ? ? ? Hts. unfold Words.well_formed_group. simpl.
  split_and!; try done.
  - rewrite length_app. simpl. apply Nat.ltb_lt. lia.
  - apply Forall_app. split; [done|]. by constructor.
Qed.

Lemma determine_trimmed (r : row) (idx : option nat) (last : option jsstr) (T : jsstr) :
  (∀ T, last = Some T → trim T = T) →
  Parser.determine r idx last = Some T → trim T = T.
Proof.
  intros Hlast. unfold Parser.determine.
  destruct (cell_at r idx); auto.
  destruct (truthy (trim s)); auto. intros [= <-]. apply trim_idemp.
Qed.

Lemma group_row_invariant (hs : list jsstr) (idx : option nat) (st : Parser.state)
    (i : nat) (r : row) :
  Words.loop_invariant st → Words.loop_invariant (Parser.group_row hs idx st i r).
Proof.
  intros (Hlast & Hwf & Hnd). unfold Parser.group_row.
  destruct (Parser.determine r idx (Parser.lastValidScenarioTitle st)) as [T|] eqn:HT.
  2:{ split_and!; simpl; done. }
  pose proof (determine_trimmed _ _ _ _ Hlast HT) as Htrim.
  assert (Hlast' : ∀ T', Some T = Some T' → trim T' = T') by (by intros ? [= <-]).
  destruct (truthy T) eqn:HtT; simpl; [|by split_and!].
  destruct (truthy (Normalizer.toCamelCase T)) eqn:Hpage; simpl; [|by split_and!].
  unfold Parser.has.
  destruct (Parser.get (Normalizer.toShortFeatureName T) (Parser.groupedMap st))
    as [g|] eqn:Hget.
  - split_and!; simpl; [done| |by rewrite keys_push_test].
    apply Forall_push_test_step; [|done].
    intros g' (? & ? & ? & ? & ? & ? & ?).
    apply well_formed_group_push; try done. apply build_test_well_formed.
  - rewrite set_fresh by done.
    rewrite push_test_fresh by done. simpl.
    split_and!; simpl; [done| |].
    + apply Forall_app. split; [done|]. constructor; [|done].
      unfold Words.well_formed_group. simpl. split_and!; try done.
      constructor; [|done]. apply build_test_well_formed.
    + rewrite fmap_app. simpl. apply NoDup_app. split_and!; [done| |apply NoDup_singleton].
      intros x Hx Hx'. apply list_elem_of_singleton in Hx'. subst x.
      by apply get_None_keys in Hget.
Qed.

Lemma group_rows_invariant (hs : list jsstr) (idx : option nat) (rows : list row)
    (st : Parser.state) (i : nat) :
  Words.loop_invariant st → Words.loop_invariant (Parser.group_rows hs idx st i rows).
Proof.
  revert st i. induction rows as [|r rows IH]; intros st i Hst; simpl; [done|].
  apply IH. by apply group_row_invariant.
Qed.

End GroupShape.

(** X9: what the grouping loop returns, whatever the rows.  Every group has
    a non-empty scenario title without white space around it, a page name
    that is the camelCase form of that title and is not empty, the title's
    short feature name as its key, and at least one test; every test has a
    non-empty title, which is its description whenever the description is
    not empty, and steps that are non-empty, trimmed and free of line
    breaks; and no two groups have the same key. *)
Theorem groups_are_well_formed {CM : CaseMapping}
    (trimmedHeaders : list jsstr) (testScenarioColIndex : option nat) (dataRows : list row) :
  let st := Parser.group_rows trimmedHeaders testScenarioColIndex Parser.initial 0 dataRows in
  Forall Words.well_formed_group (Parser.groupedMap st)
  ∧ NoDup (shortFeatureName <$> Parser.groupedMap st).
Proof.
  cbv zeta.
  destruct (group_rows_invariant trimmedHeaders testScenarioColIndex dataRows Parser.initial 0)
    as (_ & Hwf & Hnd); [|done].
  split_and!; simpl; [done|constructor|constructor].
Qed.

(** ** The priority of the grouped tests *)

Section GroupedPriority.
Context {CM : CaseMapping}.

Lemma all_tests_push (key : jsstr) (tc : TestCase) (m : Parser.grouped) (x : TestCase) :
  x ∈ Words.all_tests (Parser.push_test key tc m) → x = tc ∨ x ∈ Words.all_tests m.
Proof.
  unfold Words.all_tests. induction m as [|h t IH]; simpl; [by right|].
  destruct (JS.eqb (shortFeatureName h) key); simpl.
  - rewrite !elem_of_app, list_elem_of_singleton. tauto.
  - rewrite !elem_of_app. intros [?|?]; [tauto|]. destruct IH; tauto.
Qed.

Lemma all_tests_set (key : jsstr) (g : ScenarioGroup) (m : Parser.grouped) (x : TestCase) :
  tests g = [] → x ∈ Words.all_tests (Parser.set key g m) → x ∈ Words.all_tests m.
Proof.
  intros Hg. unfold Words.all_tests. induction m as [|h t IH]; simpl.
  - rewrite Hg. simpl. done.
  - destruct (JS.eqb (shortFeatureName h) key); simpl.
    + rewrite Hg. simpl. rewrite elem_of_app. tauto.
    + rewrite !elem_of_app. intros [?|?]; [tauto|]. right. auto.
Qed.

(** Every grouped test has been built from a data row. *)
Lemma group_rows_tests (hs : list jsstr) (idx : option nat) (rows : list row)
    (st : Parser.state) (i : nat) (x : TestCase) :
  x ∈ Words.all_tests (Parser.groupedMap (Parser.group_rows hs idx st i rows)) →
  x ∈ Words.all_tests (Parser.groupedMap st)
  ∨ ∃ r T n, r ∈ rows ∧ x = Parser.build_test hs r T n.
Proof.
  revert st i. induction rows as [|r rows IH]; intros st i; simpl; [by left|].
  intros Hx. apply IH in Hx as [Hx|(r' & T & n & Hr' & ->)].
  2:{ right. exists r', T, n. split; [by right|done]. }
  unfold Parser.group_row in Hx.
  destruct (Parser.determine r idx (Parser.lastValidScenarioTitle st)) as [T|];
    [|by left].
  destruct (negb (truthy T)); [by left|].
  destruct (negb (truthy (Normalizer.toCamelCase T))); [by left|].
  simpl in Hx. apply all_tests_push in Hx as [->|Hx].
  - right. eexists r, T, _. split; [left|done].
  - left. destruct (Parser.has _ _); [done|]. by apply all_tests_set in Hx.
Qed.

Lemma row_object_absent (hs : list jsstr) (k : nat) (r : row) (name : jsstr) :
  Words.header_count name hs = 0 → Parser.row_object hs k r name = None.
Proof.
  unfold Words.header_count. revert k.
  induction hs as [|h hs IH]; intros k; simpl; [done|].
  rewrite filter_cons. destruct (decide (JS.eqb h name = true)) as [E|E]; [done|].
  intros H0. rewrite IH by done. by destruct (JS.eqb h name).
Qed.

(** With one column of a name, the row object and [indexOf] read the same
    cell. *)
Lemma row_object_once (hs : list jsstr) (k : nat) (r : row) (name : jsstr) :
  Words.header_count name hs = 1 →
  ∃ i, array_index_of name hs = Some i
       ∧ Parser.row_object hs k r name
         = Some (Parser.cell_text (cell_at r (Some (k + i)))).
Proof.
  unfold Words.header_count. revert k.
  induction hs as [|h hs IH]; intros k; simpl; [done|].
  rewrite filter_cons. destruct (decide (JS.eqb h name = true)) as [E|E].
  - simpl. intros [= H0]. rewrite E. exists 0. split; [done|].
    rewrite row_object_absent by done. by rewrite Nat.add_0_r.
  - intros H1. destruct (IH (S k) H1) as (i & Hi & Hrow).
    apply not_true_is_false in E. rewrite E, Hi, Hrow. exists (S i).
    split; [done|]. by rewrite Nat.add_succ_r.
Qed.

Lemma validated_rows_accepted (headers : row) (dataRows : list row) :
  (Validator.validateExcelSchema headers dataRows).2 = inr tt →
  Forall (λ r, Words.priority_accepted (Validator.find_columns (trimHeaders headers)) r = true)
    dataRows.
Proof.
  intros Hval. unfold Validator.validateExcelSchema in Hval.
  destruct (Validator.first_missing _ _); [done|].
  destruct (Validator.scan_rows _ 0 None false dataRows) as [ws [e|h]] eqn:E; [done|].
  by eapply scan_rows_accepts.
Qed.

(** The priority of the test built from a row the validator accepts. *)
Lemma built_priority_valid (trimmedHeaders : list jsstr) (r : row) (T : jsstr) (n : nat) :
  Words.header_count (lit "Testcase Priority") trimmedHeaders = 1 →
  Words.priority_accepted (Validator.find_columns trimmedHeaders) r = true →
  Words.is_other (cell_at r (array_index_of (lit "Testcase Priority") trimmedHeaders)) = false →
  priority (Parser.build_test trimmedHeaders r T n) ∈ [] :: Validator.valid_priorities.
Proof.
  intros Honce Hacc Hcells.
  destruct (row_object_once trimmedHeaders 0 r (lit "Testcase Priority") Honce)
    as (i & Hi & Hrow).
  unfold Parser.build_test. cbn [priority]. unfold Parser.field. rewrite Hrow. simpl.
  unfold Words.priority_accepted, Words.priority_read in Hacc.
  cbn [Validator.testcasePriorityColIndex Validator.find_columns] in Hacc.
  rewrite Hi in Hacc, Hcells. simpl in Hacc, Hcells.
  destruct (default Undefined (r !! i)) as [| |s|shown]; simpl; [left|left| |done].
  destruct (truthy (trim s)); [|left].
  destruct (truthy (toUpperCase (trim s))) eqn:Hup; simpl in Hacc.
  - right. destruct (array_includes (toUpperCase (trim s)) Validator.valid_priorities) eqn:Hin;
      [|done].
    destruct (decide (toUpperCase (trim s) ∈ Validator.valid_priorities)) as [?|Hn]; [done|].
    apply array_includes_false in Hn. congruence.
  - destruct (toUpperCase (trim s)); [left|done].
Qed.

End GroupedPriority.

(** X10: the priority of the tests after a sheet has passed the validator.
    When the sheet has exactly one priority column and the priority cells
    are strings (or missing), the priority of every grouped test is the
    empty string, P1, P2 or P3. *)
Theorem grouped_priorities_are_valid {CM : CaseMapping}
    (headers : row) (dataRows : list row) (st : Parser.state) :
  Parser.parseRows headers dataRows = inr st →
  Words.header_count (lit "Testcase Priority") (trimHeaders headers) = 1 →
  Forall (λ r, Words.is_other
                 (cell_at r (array_index_of (lit "Testcase Priority") (trimHeaders headers)))
               = false) dataRows →
  Forall (λ tc, priority tc ∈ [] :: Validator.valid_priorities)
    (Words.all_tests (Parser.groupedMap st)).
Proof.
  intros Hparse Honce Hcells.
  apply parseRows_inr in Hparse as (_ & Hval & ->).
  pose proof (validated_rows_accepted headers dataRows Hval) as Hacc.
  apply Forall_forall. intros x Hx.
  apply group_rows_tests in Hx as [Hx|(r & T & n & Hr & ->)];
    [by apply elem_of_nil in Hx|].
  rewrite Forall_forall in Hacc, Hcells.
  apply built_priority_valid; [done|by apply Hacc|by apply Hcells].
Qed.

(** ** Test files and their groups *)

Section TestFiles.
Context {CM : CaseMapping}.

(** Splitting at a separator and joining with it gives the string back. *)
Lemma join_split (sep : N) (s : jsstr) : join [sep] (split sep s) = s.
Proof.
  induction s as [|c t IH]; [done|]. simpl split.
  destruct (c =? sep)%N eqn:E.
  - apply N.eqb_eq in E as ->.
    rewrite join_cons by apply split_nonempty. by rewrite IH.
  - destruct (split sep t) as [|w ws] eqn:Hs; [by apply split_nonempty in Hs|].
    destruct ws as [|w' ws]; simpl in *; by rewrite <- IH.
Qed.

Lemma starts_with_app (p s : jsstr) : starts_with p (p ++ s) = true.
Proof. induction p as [|c p IH]; simpl; [by destruct s|]. by rewrite N.eqb_refl. Qed.

Lemma ends_with_app (suffix s : jsstr) : ends_with suffix (s ++ suffix) = true.
Proof. unfold ends_with. rewrite reverse_app. apply starts_with_app. Qed.

Lemma starts_with_elem (p s : jsstr) (c : N) :
  starts_with p s = true → c ∈ p → c ∈ s.
Proof.
  revert s. induction p as [|a p IH]; intros s; [by intros _ ?%elem_of_nil|].
  destruct s as [|b s]; simpl; [done|].
  intros [Hab Hps]%andb_true_iff. apply N.eqb_eq in Hab as ->.
  intros [->|Hc]%elem_of_cons; [left|right; auto].
Qed.

Lemma ends_with_elem (suffix s : jsstr) (c : N) :
  ends_with suffix s = true → c ∈ suffix → c ∈ s.
Proof.
  unfold ends_with. intros H Hc. apply elem_of_reverse.
  eapply starts_with_elem; [exact H|]. by apply elem_of_reverse.
Qed.

Lemma strip_suffix_app (suffix s : jsstr) :
  PostProcessor.strip_suffix suffix (s ++ suffix) = s.
Proof.
  unfold PostProcessor.strip_suffix. rewrite ends_with_app.
  apply take_app_length'. rewrite length_app. lia.
Qed.

Lemma strip_suffix_without (suffix s : jsstr) (c : N) :
  c ∈ suffix → c ∉ s → PostProcessor.strip_suffix suffix s = s.
Proof.
  intros Hc Hs. unfold PostProcessor.strip_suffix.
  destruct (ends_with suffix s) eqn:E; [|done].
  destruct Hs. by eapply ends_with_elem.
Qed.

Lemma split_prefix (sep : N) (p s : jsstr) :
  sep ∉ p → split sep (p ++ sep :: s) = p :: split sep s.
Proof.
  induction p as [|c p IH]; simpl.
  - intros _. by rewrite N.eqb_refl.
  - intros [Hc Hp]%not_elem_of_cons.
    rewrite (proj2 (N.eqb_neq c sep)) by done. by rewrite IH.
Qed.

Lemma alnum_elem (s : jsstr) (c : N) :
  Words.alphanumeric s → Words.is_alnum c = false → c ∉ s.
Proof.
  intros Hs Hc Hin. unfold Words.alphanumeric in Hs. rewrite Forall_forall in Hs.
  apply Hs in Hin. congruence.
Qed.

Lemma endings_chars (ext : jsstr) :
  ext ∈ lit <$> [".spec.js"; ".test.js"; ".cy.js"]%string →
  (47%N ∉ ext) ∧ 46%N ∈ ext.
Proof.
  simpl. rewrite !elem_of_cons.
  intros [->|[->|[->|[]%elem_of_nil]]];
    (split; apply (bool_decide_unpack _); vm_compute; exact I).
Qed.

Lemma is_test_file_of (name ext : jsstr) :
  ext ∈ lit <$> [".spec.js"; ".test.js"; ".cy.js"]%string →
  PostProcessor.is_test_file (lit "tests/" ++ name ++ ext) = true.
Proof.
  intros Hext.
  unfold PostProcessor.is_test_file. rewrite starts_with_app, andb_true_l.
  rewrite (app_assoc (lit "tests/") name ext).
  simpl in Hext. rewrite !elem_of_cons in Hext.
  destruct Hext as [->|[->|[->|[]%elem_of_nil]]]; rewrite ends_with_app;
    by rewrite ?orb_true_r.
Qed.

Lemma file_name_of (name ext : jsstr) :
  Words.alphanumeric name →
  ext ∈ lit <$> [".spec.js"; ".test.js"; ".cy.js"]%string →
  PostProcessor.generatedFileNameWithoutExt (lit "tests/" ++ name ++ ext) = name.
Proof.
  intros Hname Hext.
  assert (Hdot : 46%N ∉ name) by (by apply alnum_elem).
  assert (Hslash : 47%N ∉ name) by (by apply alnum_elem).
  - unfold PostProcessor.generatedFileNameWithoutExt.
    change (lit "tests/" ++ name ++ ext) with (lit "tests" ++ 47%N :: name ++ ext).
    rewrite split_prefix by (apply (bool_decide_unpack _); vm_compute; exact I).
    assert (Hs : 47%N ∉ name ++ ext).
    { rewrite elem_of_app. intros [?|Hin]; [done|].
      by destruct (endings_chars ext Hext). }
    rewrite split_without_separator by done. simpl last. simpl default.
    assert (Hstrip : ∀ suffix, suffix ∈ lit <$> [".spec.js"; ".test.js"; ".cy.js"]%string →
              PostProcessor.strip_suffix suffix name = name).
    { intros suffix [_ Hsuf]%endings_chars. by apply (strip_suffix_without _ _ 46). }
    simpl in Hext. rewrite !elem_of_cons in Hext.
    destruct Hext as [->|[->|[->|[]%elem_of_nil]]].
    + rewrite strip_suffix_app.
      rewrite Hstrip by (simpl; rewrite !elem_of_cons; tauto).
      by rewrite Hstrip by (simpl; rewrite !elem_of_cons; tauto).
    + assert (E : ends_with (lit ".spec.js") (name ++ lit ".test.js") = false).
      { unfold ends_with. rewrite reverse_app. reflexivity. }
      unfold PostProcessor.strip_suffix at 3. rewrite E.
      rewrite strip_suffix_app.
      by rewrite Hstrip by (simpl; rewrite !elem_of_cons; tauto).
    + assert (E1 : ends_with (lit ".spec.js") (name ++ lit ".cy.js") = false).
      { unfold ends_with. rewrite reverse_app. reflexivity. }
      assert (E2 : ends_with (lit ".test.js") (name ++ lit ".cy.js") = false).
      { unfold ends_with. rewrite reverse_app. reflexivity. }
      unfold PostProcessor.strip_suffix at 3. rewrite E1.
      unfold PostProcessor.strip_suffix at 2. rewrite E2.
      by rewrite strip_suffix_app.
Qed.

Lemma toShortFeatureName_alnum (scenarioTitle : jsstr) :
  Words.alphanumeric (Normalizer.toShortFeatureName scenarioTitle).
Proof.
  unfold Normalizer.toShortFeatureName.
  destruct (Normalizer.significant_words scenarioTitle);
    repeat apply or_else_alnum;
    first [apply toCamelCase_alnum | apply genericFeature_alnum].
Qed.

Lemma find_scenario_unique (testDataArray : list ScenarioGroup) (g : ScenarioGroup) :
  NoDup (shortFeatureName <$> testDataArray) → g ∈ testDataArray →
  PostProcessor.find_scenario testDataArray (shortFeatureName g) = Some g.
Proof.
  unfold PostProcessor.find_scenario.
  induction testDataArray as [|h t IH]; [by intros _ ?%elem_of_nil|].
  rewrite fmap_cons, NoDup_cons. intros [Hh Ht] Hg. simpl.
  destruct (decide (shortFeatureName h = shortFeatureName g)) as [E|E]; simpl.
  - apply elem_of_cons in Hg as [->|Hg]; [done|].
    destruct Hh. rewrite E. apply list_elem_of_fmap. eauto.
  - apply elem_of_cons in Hg as [->|Hg]; [done|].
    specialize (IH Ht Hg).
    destruct (list_find _ t) as [[n x]|]; simpl in *; [done|done].
Qed.

End TestFiles.

(** X12: a test file without a group.  When no group has the name of the
    file and its first line is not the named import of the fixture, the
    post-processing gives the content back as it was, character for
    character (splitting at line breaks and joining again loses nothing),
    with a warning that names the file. *)
Theorem unmatched_test_file_is_kept {CM : CaseMapping}
    (testDataArray : list ScenarioGroup) (filePath fileContent : jsstr) :
  PostProcessor.find_scenario testDataArray
    (PostProcessor.generatedFileNameWithoutExt filePath) = None →
  Regex.test Regex.importBaseFixtureRegex (default [] (head (split 10 fileContent))) = false →
  PostProcessor.process_test_file testDataArray filePath fileContent
  = Some (fileContent, [PostProcessor.NoScenarioForFile filePath])
  ∧ PostProcessor.process_entry testDataArray filePath fileContent = fileContent.
Proof.
  intros Hfind Himport.
  assert (H : PostProcessor.process_test_file testDataArray filePath fileContent
              = Some (fileContent, [PostProcessor.NoScenarioForFile filePath])).
  { unfold PostProcessor.process_test_file. rewrite Hfind.
    unfold PostProcessor.fix_import.
    destruct (split 10 fileContent) as [|first rest] eqn:Hs;
      [by destruct (split_nonempty 10 fileContent)|].
    simpl in Himport. rewrite Himport, <- Hs.
    unfold PostProcessor.newline. by rewrite join_split. }
  split; [done|].
  unfold PostProcessor.process_entry. rewrite H. by destruct (PostProcessor.is_test_file _).
Qed.

(** X13: the name of a test file.  For a name of Basic Latin letters and
    digits, the file tests/<name> with one of the endings .spec.js, .test.js
    and .cy.js is taken for a test file, and the name the post-processing
    looks its group up by is <name>. *)
Theorem test_file_name_round_trip {CM : CaseMapping} (name ext : jsstr) :
  Words.alphanumeric name →
  ext ∈ lit <$> [".spec.js"; ".test.js"; ".cy.js"]%string →
  PostProcessor.is_test_file (lit "tests/" ++ name ++ ext) = true
  ∧ PostProcessor.generatedFileNameWithoutExt (lit "tests/" ++ name ++ ext) = name.
Proof.
  intros Hname Hext. split.
  - by apply is_test_file_of.
  - by apply file_name_of.
Qed.

Section GeneratedFrom.
Context {CM : CaseMapping}.

Lemma enriched_keys (testData processedData : list ScenarioGroup) :
  Words.enriched testData processedData →
  shortFeatureName <$> processedData = shortFeatureName <$> testData.
Proof.
  induction 1 as [|g g' l l' (_ & _ & Hkey & _) _ IH]; [done|].
  rewrite !fmap_cons, Hkey. by f_equal.
Qed.

Lemma enriched_elem (testData processedData : list ScenarioGroup) (g' : ScenarioGroup) :
  Words.enriched testData processedData → g' ∈ processedData →
  ∃ g, g ∈ testData ∧ page g' = page g ∧ scenario g' = scenario g
       ∧ shortFeatureName g' = shortFeatureName g.
Proof.
  induction 1 as [|g0 g0' l l' (Hp & Hs & Hkey & _) _ IH]; [by intros ?%elem_of_nil|].
  intros [->|Hin]%elem_of_cons.
  - exists g0. split; [left|done].
  - destruct (IH Hin) as (g & Hg & ?). exists g. split; [by right|done].
Qed.

(** The groups [generateCode] is given, when the plan sent to the route is
    the one the grouping loop has made: they have distinct keys, and each
    has the names of a group of the loop. *)
Lemma generated_from_parsed (trimmedHeaders : list jsstr) (testScenarioColIndex : option nat)
    (dataRows : list row) (testDataArray : list ScenarioGroup) :
  Words.enriched
    (Generate.filter_test_data
       (Parser.groupedMap
          (Parser.group_rows trimmedHeaders testScenarioColIndex Parser.initial 0 dataRows)))
    testDataArray →
  NoDup (shortFeatureName <$> testDataArray)
  ∧ ∀ g, g ∈ testDataArray →
      truthy (scenario g) = true
      ∧ page g = Normalizer.toCamelCase (scenario g)
      ∧ truthy (page g) = true
      ∧ shortFeatureName g = Normalizer.toShortFeatureName (scenario g).
Proof.
  intros Hen.
  destruct (group_rows_invariant trimmedHeaders testScenarioColIndex dataRows Parser.initial 0)
    as (_ & Hwf & Hnd).
  { split_and!; simpl; [done|constructor|constructor]. }
  split.
  - rewrite (enriched_keys _ _ Hen). eapply sublist_NoDup; [exact Hnd|].
    apply fmap_sublist. unfold Generate.filter_test_data. apply sublist_filter.
  - intros g' Hg'. destruct (enriched_elem _ _ _ Hen Hg') as (g & Hg & Hp & Hs & Hkey).
    unfold Generate.filter_test_data in Hg. apply list_elem_of_filter in Hg as [_ Hg].
    rewrite Forall_forall in Hwf.
    destruct (Hwf g Hg) as (Ht & _ & Hpage & Hpt & Hshort & _).
    rewrite Hp, Hs, Hkey. by split_and!.
Qed.

End GeneratedFrom.

(** X14: from the sheet to the generated file.  Let the plan sent to the
    generation route be the one the grouping loop has made.  The groups
    [generateCode] works on are those the filter of the route keeps, as the
    analysis step hands them on (the same groups and tests, each test with
    the analysis it has been given).  For every one of them, the test file
    named after it as the prompt asks (tests/<shortFeatureName>.spec.js, or
    with the ending .test.js or .cy.js) is post-processed, and the group
    the post-processing finds for it is that very group: the short feature
    names are file-safe and no two groups share one.  (A group the filter
    drops, such as one titled Generic Feature, is not among them.) *)
Theorem generated_file_finds_its_group {CM : CaseMapping}
    (trimmedHeaders : list jsstr) (testScenarioColIndex : option nat) (dataRows : list row)
    (testDataArray : list ScenarioGroup) (g : ScenarioGroup) (ext : jsstr) :
  let parsed :=
    Parser.groupedMap
      (Parser.group_rows trimmedHeaders testScenarioColIndex Parser.initial 0 dataRows) in
  let filePath := lit "tests/" ++ shortFeatureName g ++ ext in
  Words.enriched (Generate.filter_test_data parsed) testDataArray →
  g ∈ testDataArray →
  ext ∈ lit <$> [".spec.js"; ".test.js"; ".cy.js"]%string →
  PostProcessor.is_test_file filePath = true
  ∧ PostProcessor.find_scenario testDataArray
      (PostProcessor.generatedFileNameWithoutExt filePath) = Some g.
Proof.
  intros parsed filePath Hen Hg Hext.
  destruct (generated_from_parsed _ _ _ _ Hen) as [Hnd Hnames].
  assert (Hname : Words.alphanumeric (shortFeatureName g)).
  { destruct (Hnames g Hg) as (_ & _ & _ & ->). apply toShortFeatureName_alnum. }
  split; [by apply is_test_file_of|].
  unfold filePath. rewrite file_name_of by done. by apply find_scenario_unique.
Qed.

(** ** The page objects of the fixture *)

Section PageObjects.
Context {CM : CaseMapping}.

(** The names collected are the non-empty PascalCase forms of the scenario
    titles. *)
Lemma pageObjectNames_elem (testDataArray : list ScenarioGroup) (x : jsstr) :
  x ∈ PostProcessor.pageObjectNames testDataArray
  ↔ truthy x = true
    ∧ ∃ g, g ∈ testDataArray ∧ Normalizer.toPascalCase (scenario g) = x.
Proof.
  unfold PostProcessor.pageObjectNames.
  assert (H : ∀ acc : list jsstr,
            x ∈ foldl (λ names scenarioGroup,
                     let pascalCaseName := Normalizer.toPascalCase (scenario scenarioGroup) in
                     if truthy pascalCaseName && negb (bool_decide (pascalCaseName ∈ names))
                     then names ++ [pascalCaseName] else names) acc testDataArray
            ↔ x ∈ acc
              ∨ (truthy x = true
                 ∧ ∃ g, g ∈ testDataArray ∧ Normalizer.toPascalCase (scenario g) = x)).
  { induction testDataArray as [|h t IH]; intros acc; simpl.
    - split; [by left|]. intros [?|(_ & g & Hg & _)]; [done|by apply elem_of_nil in Hg].
    - rewrite IH. clear IH. split.
      + intros [Hacc|(Hx & g & Hg & Hname)].
        * destruct (truthy (Normalizer.toPascalCase (scenario h))) eqn:Ht; simpl in Hacc;
            [|by left].
          case_bool_decide; simpl in Hacc; [by left|].
          apply elem_of_app in Hacc as [?|Hsingle]; [by left|].
          apply list_elem_of_singleton in Hsingle as ->.
          right. split; [done|]. exists h. split; [left|done].
        * right. split; [done|]. exists g. split; [by right|done].
      + intros [Hacc|(Hx & g & Hg & Hname)].
        * left. destruct (_ && _); [|done]. apply elem_of_app. by left.
        * apply elem_of_cons in Hg as [->|Hg].
          -- left. rewrite Hname, Hx. simpl.
             case_bool_decide; simpl; [done|]. apply elem_of_app. right. left.
          -- right. split; [done|]. by exists g. }
  rewrite H. split; [|by right]. intros [Hnil|?]; [by apply elem_of_nil in Hnil|done].
Qed.

Lemma toPascalCase_truthy (str : jsstr) :
  truthy (Normalizer.toCamelCase str) = true → truthy (Normalizer.toPascalCase str) = true.
Proof. unfold Normalizer.toCamelCase. by destruct (Normalizer.toPascalCase str). Qed.

End PageObjects.

(** X15: from the sheet to the fixture.  Let the plan sent to the
    generation route be the one the grouping loop has made.  Every group
    [generateCode] works on (a group the filter of the route keeps, as the
    analysis step hands it on) has a page object in the content the fixture
    file is rebuilt with: the PascalCase form of its scenario title is
    among the names collected, which are distinct, and the fixture entry of
    that name, a line of the rebuilt content, is keyed by the page name of
    the group followed by Page.  (A group the filter drops, such as one
    titled Generic Feature, has none.) *)
Theorem every_group_has_a_fixture {CM : CaseMapping}
    (trimmedHeaders : list jsstr) (testScenarioColIndex : option nat) (dataRows : list row)
    (testDataArray : list ScenarioGroup) (g : ScenarioGroup) :
  let parsed :=
    Parser.groupedMap
      (Parser.group_rows trimmedHeaders testScenarioColIndex Parser.initial 0 dataRows) in
  let name := Normalizer.toPascalCase (scenario g) in
  Words.enriched (Generate.filter_test_data parsed) testDataArray →
  g ∈ testDataArray →
  name ∈ PostProcessor.pageObjectNames testDataArray
  ∧ NoDup (PostProcessor.pageObjectNames testDataArray)
  ∧ PostProcessor.fixture_definition name
    = lit "    " ++ page g ++ lit "Page: async ({ page }, use) => { await use(new "
        ++ name ++ lit "Page(page)); },"
  ∧ PostProcessor.fixture_definition name
    ∈ Words.fixture_lines (PostProcessor.pageObjectNames testDataArray).
Proof.
  intros parsed name Hen Hg.
  destruct (generated_from_parsed _ _ _ _ Hen) as [_ Hnames].
  destruct (Hnames g Hg) as (_ & Hpage & Hpt & _).
  assert (Hin : name ∈ PostProcessor.pageObjectNames testDataArray).
  { apply pageObjectNames_elem. split; [|by exists g].
    apply toPascalCase_truthy. by rewrite <- Hpage. }
  split; [done|]. split; [apply pageObjectNames_NoDup|]. split.
  - unfold PostProcessor.fixture_definition, name.
    assert (Hc : Normalizer.toCamelCase (Normalizer.toPascalCase (scenario g)) = page g).
    { rewrite Hpage. unfold Normalizer.toCamelCase. by rewrite toPascalCase_idempotent. }
    by rewrite Hc.
  - unfold Words.fixture_lines.
    destruct (PostProcessor.pageObjectNames testDataArray) as [|n0 names] eqn:Hn;
      [by apply elem_of_nil in Hin|].
    rewrite !elem_of_app. right. right. right. left.
    apply list_elem_of_fmap. by exists name.
Qed.

(** ** Adding the selected suggestions to the plan *)

Section AddSelected.
Context {CM : CaseMapping}.

Lemma add_one_cases (plan : list ScenarioGroup) (n : nat) (checkbox : Suggestions.selection) :
  let T := Suggestions.scenarioTitle checkbox in
  let tc := Suggestions.testCaseData checkbox in
  (∃ k g, list_find (λ s, scenario s = T) plan = Some (k, g)
          ∧ Suggestions.isDuplicate g tc = true
          ∧ Suggestions.add_one (plan, n) checkbox = (plan, n))
  ∨ (∃ k g, list_find (λ s, scenario s = T) plan = Some (k, g)
            ∧ Suggestions.isDuplicate g tc = false
            ∧ Suggestions.add_one (plan, n) checkbox
              = (<[k := Suggestions.push g tc]> plan, S n))
  ∨ (list_find (λ s, scenario s = T) plan = None
     ∧ Suggestions.add_one (plan, n) checkbox
       = (plan ++ [{| page := Client.toCamelCase T; scenario := T;
                      shortFeatureName := Client.toShortFeatureName T;
                      tests := [tc] |}], S n)).
Proof.
  intros T tc. unfold Suggestions.add_one. fold T tc.
  destruct (list_find (λ s, scenario s = T) plan) as [[k g]|] eqn:Hfind.
  - destruct (Suggestions.isDuplicate g tc) eqn:Hdup; [left|right; left]; eauto.
  - right. right. split; [done|]. cbn.
    rewrite insert_app_r_alt by done. by rewrite Nat.sub_diag.
Qed.

Lemma extends_refl (plan : list ScenarioGroup) : Words.extends plan plan.
Proof. intros k g Hg. exists g. by split_and!. Qed.

Lemma extends_trans (a b c : list ScenarioGroup) :
  Words.extends a b → Words.extends b c → Words.extends a c.
Proof.
  intros Hab Hbc k g Hg.
  destruct (Hab k g Hg) as (g1 & Hg1 & ? & ? & ? & ?).
  destruct (Hbc k g1 Hg1) as (g2 & Hg2 & ? & ? & ? & ?).
  exists g2. split_and!; try congruence. by etrans.
Qed.

Lemma add_one_extends (plan : list ScenarioGroup) (n : nat) (checkbox : Suggestions.selection) :
  Words.extends plan (Suggestions.add_one (plan, n) checkbox).1.
Proof.
  destruct (add_one_cases plan n checkbox)
    as [(k & g & _ & _ & ->)|[(k & g & Hfind & _ & ->)|(_ & ->)]]; simpl.
  - apply extends_refl.
  - apply list_find_Some in Hfind as (Hk & _ & _).
    intros j y Hy. destruct (decide (k = j)) as [->|Hne].
    + rewrite list_lookup_insert_eq by (by eapply lookup_lt_Some).
      assert (y = g) as -> by congruence.
      eexists. split; [done|]. simpl. split_and!; try done. by apply prefix_app_r.
    + rewrite list_lookup_insert_ne by done. exists y. by split_and!.
  - intros j y Hy. exists y. split; [by apply lookup_app_l_Some|]. by split_and!.
Qed.

Lemma isDuplicate_prefix (g g' : ScenarioGroup) (tc : TestCase) :
  tests g `prefix_of` tests g' →
  Suggestions.isDuplicate g tc = true → Suggestions.isDuplicate g' tc = true.
Proof.
  intros [more Hmore]. unfold Suggestions.isDuplicate. intros H.
  rewrite Hmore, existsb_app. by rewrite H.
Qed.

Lemma covered_extends (a b : list ScenarioGroup) (checkbox : Suggestions.selection) :
  Words.extends a b → Words.covered a checkbox → Words.covered b checkbox.
Proof.
  intros Hab (k & g & Hfind & Hdup).
  apply list_find_Some in Hfind as (Hk & HT & Hmin).
  destruct (Hab k g Hk) as (g' & Hk' & _ & Hs & _ & Hpre).
  exists k, g'. split; [|by eapply isDuplicate_prefix].
  apply list_find_Some. split_and!; [done|congruence|].
  intros j y' Hy' Hj.
  destruct (lookup_lt_is_Some_2 a j) as [y Hy].
  { apply lookup_lt_Some in Hk. lia. }
  destruct (Hab j y Hy) as (y'' & Hy'' & _ & Hs' & _).
  assert (y'' = y') as -> by congruence.
  rewrite Hs'. by eapply Hmin.
Qed.

Lemma isDuplicate_push (g : ScenarioGroup) (tc : TestCase) :
  Suggestions.isDuplicate (Suggestions.push g tc) tc = true.
Proof.
  unfold Suggestions.isDuplicate, Suggestions.push. simpl.
  rewrite existsb_app. cbn [existsb].
  rewrite (proj2 (eqb_eq (id tc) (id tc))) by done. by rewrite orb_true_r.
Qed.

Lemma add_one_covers (plan : list ScenarioGroup) (n : nat) (checkbox : Suggestions.selection) :
  Words.covered (Suggestions.add_one (plan, n) checkbox).1 checkbox.
Proof.
  destruct (add_one_cases plan n checkbox)
    as [(k & g & Hfind & Hdup & ->)|[(k & g & Hfind & _ & ->)|(Hfind & ->)]]; simpl.
  - by exists k, g.
  - exists k, (Suggestions.push g (Suggestions.testCaseData checkbox)).
    split; [|apply isDuplicate_push].
    apply list_find_Some in Hfind as (Hk & HT & Hmin).
    apply list_find_Some. split_and!.
    + apply list_lookup_insert_eq. by eapply lookup_lt_Some.
    + done.
    + intros j y Hy Hj. rewrite list_lookup_insert_ne in Hy by lia. by eapply Hmin.
  - eexists (length plan), _. split.
    + rewrite list_find_app_r by done. simpl.
      rewrite decide_True by done. simpl. done.
    + unfold Suggestions.isDuplicate. cbn [tests existsb].
      by rewrite (proj2 (eqb_eq _ _)) by done.
Qed.

Lemma add_one_covered (plan : list ScenarioGroup) (n : nat) (checkbox : Suggestions.selection) :
  Words.covered plan checkbox → Suggestions.add_one (plan, n) checkbox = (plan, n).
Proof.
  intros (k & g & Hfind & Hdup). unfold Suggestions.add_one. by rewrite Hfind, Hdup.
Qed.

Lemma total_tests_app (a b : list ScenarioGroup) :
  Words.total_tests (a ++ b) = Words.total_tests a + Words.total_tests b.
Proof. unfold Words.total_tests. by rewrite fmap_app, sum_list_with_app. Qed.

Lemma total_tests_insert (plan : list ScenarioGroup) (k : nat) (g g' : ScenarioGroup) :
  plan !! k = Some g →
  Words.total_tests (<[k := g']> plan) + length (tests g)
  = Words.total_tests plan + length (tests g').
Proof.
  intros Hk. rewrite insert_take_drop by (by eapply lookup_lt_Some).
  rewrite <- (take_drop_middle plan k g Hk) at 3.
  rewrite !total_tests_app, !total_tests_cons. lia.
Qed.

Lemma add_one_counts (plan : list ScenarioGroup) (n : nat) (checkbox : Suggestions.selection) :
  let st := Suggestions.add_one (plan, n) checkbox in
  Words.total_tests st.1 + n = Words.total_tests plan + st.2 ∧ n ≤ st.2 ≤ S n.
Proof.
  destruct (add_one_cases plan n checkbox)
    as [(k & g & _ & _ & ->)|[(k & g & Hfind & _ & ->)|(_ & ->)]]; simpl.
  - lia.
  - apply list_find_Some in Hfind as (Hk & _ & _).
    pose proof (total_tests_insert plan k g
                  (Suggestions.push g (Suggestions.testCaseData checkbox)) Hk) as H.
    simpl in H. rewrite length_app in H. simpl in H. lia.
  - rewrite total_tests_app, total_tests_cons. simpl. unfold Words.total_tests at 2. simpl. lia.
Qed.

Lemma foldl_add_one (selected : list Suggestions.selection) (plan : list ScenarioGroup)
    (n : nat) :
  let st := foldl Suggestions.add_one (plan, n) selected in
  Words.extends plan st.1
  ∧ Forall (Words.covered st.1) selected
  ∧ Words.total_tests st.1 + n = Words.total_tests plan + st.2
  ∧ n ≤ st.2 ≤ n + length selected.
Proof.
  revert plan n. induction selected as [|checkbox selected IH]; intros plan n;
    cbn [foldl].
  - simpl. split_and!; [apply extends_refl|constructor|done|lia|lia].
  - pose proof (add_one_extends plan n checkbox) as Hext.
    pose proof (add_one_covers plan n checkbox) as Hcov.
    pose proof (add_one_counts plan n checkbox) as Hcount. cbv zeta in Hcount.
    destruct (Suggestions.add_one (plan, n) checkbox) as [plan1 n1].
    simpl in Hext, Hcov, Hcount.
    destruct (IH plan1 n1) as (Hext' & Hcov' & Hcount' & Hn'). cbv zeta in *.
    split_and!.
    + exact (extends_trans _ _ _ Hext Hext').
    + constructor; [|done]. exact (covered_extends _ _ _ Hext' Hcov).
    + lia.
    + lia.
    + simpl. lia.
Qed.

Lemma foldl_add_one_covered (selected : list Suggestions.selection)
    (plan : list ScenarioGroup) (n : nat) :
  Forall (Words.covered plan) selected →
  foldl Suggestions.add_one (plan, n) selected = (plan, n).
Proof.
  induction 1 as [|checkbox selected Hc Hs IH]; cbn [foldl]; [done|].
  by rewrite add_one_covered.
Qed.

End AddSelected.

(** X16: adding the selected suggestions only adds.  After the click,
    every group of the plan is where it was, under the same names, and the
    tests it had are the first of its tests, in their order; the number of
    tests of the plan has grown by exactly the count the status message
    shows, which is at most the number of boxes checked. *)
Theorem add_selected_only_adds {CM : CaseMapping}
    (currentParsedExcelData : list ScenarioGroup)
    (selectedCheckboxes : list Suggestions.selection) :
  let st := Suggestions.add_selected currentParsedExcelData selectedCheckboxes in
  Words.extends currentParsedExcelData st.1
  ∧ Words.total_tests st.1 = Words.total_tests currentParsedExcelData + st.2
  ∧ st.2 ≤ length selectedCheckboxes.
Proof.
  cbv zeta. unfold Suggestions.add_selected.
  destruct (foldl_add_one selectedCheckboxes currentParsedExcelData 0)
    as (Hext & _ & Hcount & Hn).
  split_and!; [done|lia|lia].
Qed.

(** X17: a second click adds nothing.  After the selected suggestions
    have been added, each of them is a duplicate in the plan (the first
    group with its title has a test with its id or its title), so adding
    the same selection again leaves the plan as it is and counts 0. *)
Theorem add_selected_twice {CM : CaseMapping}
    (currentParsedExcelData : list ScenarioGroup)
    (selectedCheckboxes : list Suggestions.selection) :
  let st := Suggestions.add_selected currentParsedExcelData selectedCheckboxes in
  Forall (Words.covered st.1) selectedCheckboxes
  ∧ Suggestions.add_selected st.1 selectedCheckboxes = (st.1, 0).
Proof.
  cbv zeta. unfold Suggestions.add_selected.
  destruct (foldl_add_one selectedCheckboxes currentParsedExcelData 0)
    as (_ & Hcov & _ & _).
  split; [done|]. by apply foldl_add_one_covered.
Qed.

(** ** From the grouped sheet to the files on disk *)

Section Generation.
Context {CM : CaseMapping}.

Lemma kept_well_formed (g : ScenarioGroup) :
  Words.well_formed_group g →
  Generate.kept g = negb (JS.eqb (page g) (lit "genericFeature")).
Proof.
  intros (Ht & Htrim & Hpage & _). unfold Generate.kept, Generate.scenarioTitle.
  rewrite Ht, Htrim, <- Hpage.
  rewrite (proj2 (eqb_neq (scenario g) [])) by (intros E; by rewrite E in Ht).
  rewrite orb_false_r.
  destruct (JS.eqb (page g) (lit "genericFeature")) eqn:E; [by rewrite orb_true_r|].
  rewrite orb_false_r.
  destruct (JS.eqb (scenario g) (lit "Generic Feature")) eqn:E'; [|done].
  apply eqb_eq in E'. rewrite Hpage, E' in E. by vm_compute in E.
Qed.

Lemma drop_while_app_head (p : N → bool) (a b : jsstr) (c : N) :
  head b = Some c → p c = false →
  ∃ a', drop_while p (a ++ b) = a' ++ b.
Proof.
  intros Hb Hc. induction a as [|x a IH]; simpl.
  - exists []. destruct b as [|y b]; [done|]. injection Hb as ->. simpl. by rewrite Hc.
  - destruct (p x); [done|]. by exists (x :: a).
Qed.

(** Trimming keeps a head that begins and ends with something else than
    white space. *)
Lemma length_trim_head (h s : jsstr) (c d : N) :
  head h = Some c → is_space c = false →
  last h = Some d → is_space d = false →
  length h ≤ length (trim (h ++ s)).
Proof.
  intros Hc Hcs Hd Hds. unfold trim.
  assert (Hfront : drop_while is_space (h ++ s) = h ++ s).
  { destruct h as [|x h]; [done|]. injection Hc as ->. simpl. by rewrite Hcs. }
  rewrite Hfront, reverse_app, length_reverse.
  destruct (drop_while_app_head is_space (reverse s) (reverse h) d) as [a' ->]; [|done|].
  - rewrite head_reverse. done.
  - rewrite length_app, length_reverse. lia.
Qed.

Lemma baseFixture_head (names : list jsstr) :
  ∃ rest, PostProcessor.baseFixture names
          = lit "import { test as baseTest } from '@playwright/test';" ++ rest.
Proof. unfold PostProcessor.baseFixture. destruct (0 <? length names); eauto. Qed.

End Generation.

(** X18: the groups the generation route works on.  Of the groups the
    grouping loop has made, the route drops those whose page name is
    genericFeature and keeps every other, in their order: the group of a
    scenario titled Generic Feature passes the validator and the parser and
    is then left out of the generation. *)
Theorem generation_keeps_the_grouped_scenarios {CM : CaseMapping}
    (trimmedHeaders : list jsstr) (testScenarioColIndex : option nat) (dataRows : list row) :
  let testData :=
    Parser.groupedMap
      (Parser.group_rows trimmedHeaders testScenarioColIndex Parser.initial 0 dataRows) in
  Generate.filter_test_data testData
  = filter (λ g, JS.eqb (page g) (lit "genericFeature") = false) testData
  ∧ Normalizer.toCamelCase (lit "Generic Feature") = lit "genericFeature".
Proof.
  intros testData. split; [|by vm_compute].
  destruct (group_rows_invariant trimmedHeaders testScenarioColIndex dataRows Parser.initial 0)
    as (_ & Hwf & _).
  { split_and!; simpl; [done|constructor|constructor]. }
  fold testData in Hwf. unfold Generate.filter_test_data.
  induction Hwf as [|g l Hg Hl IH]; [done|].
  rewrite (filter_cons (λ group, Generate.kept group = true)).
  rewrite (filter_cons (λ g, JS.eqb (page g) (lit "genericFeature") = false)).
  rewrite IH, (kept_well_formed g Hg).
  destruct (JS.eqb (page g) (lit "genericFeature")); simpl;
    repeat case_decide; done.
Qed.

(** X19: a rebuilt fixture file is written to disk.  When the generated
    file set has a non-empty entry at the fixture path, the content the
    post-processing gives it passes the test of the writer (more than ten
    characters once trimmed), whatever the names and however short the
    generated content was. *)
Theorem rebuilt_fixture_is_written {CM : CaseMapping}
    (testDataArray : list ScenarioGroup) (names : list jsstr)
    (aiGeneratedStructure : gmap jsstr jsstr) (content : jsstr) :
  aiGeneratedStructure !! PostProcessor.fixturePath = Some content →
  truthy content = true →
  ∃ rebuilt,
    PostProcessor.postProcess testDataArray names aiGeneratedStructure
      !! PostProcessor.fixturePath = Some rebuilt
    ∧ Generate.written rebuilt = true.
Proof.
  intros Hfile Hcontent. exists (PostProcessor.baseFixture names). split.
  - rewrite postProcess_lookup, bool_decide_eq_true_2 by done.
    rewrite Hfile. simpl. by rewrite Hcontent.
  - unfold Generate.written. rewrite baseFixture_truthy. simpl.
    destruct (baseFixture_head names) as [rest ->].
    apply Nat.ltb_lt.
    pose proof (length_trim_head
                  (lit "import { test as baseTest } from '@playwright/test';") rest
                  (ch "i") (ch ";") eq_refl eq_refl eq_refl eq_refl) as H.
    etrans; [|exact H]. vm_compute. lia.
Qed.

(** * Further evaluations on the sample inputs *)

Section FurtherEvaluations.
#[local] Existing Instance BasicLatin.

Lemma short_feature_name_bounded_witness :
  Words.only_plain_spaces (toLowerCase Samples.verify_login_title)
  ∧ length (Normalizer.toShortFeatureName Samples.verify_login_title) ≤ 25
  ∧ Client.toShortFeatureName Samples.verify_login_title
    = Normalizer.toShortFeatureName Samples.verify_login_title.
Proof.
  assert (H : Words.only_plain_spaces (toLowerCase Samples.verify_login_title)).
  { apply (bool_decide_unpack _). vm_compute. exact I. }
  split; [exact H|].
  exact (short_feature_name_bounded Samples.verify_login_title H).
Defined.

Lemma invalid_priority_names_the_row_witness :
  Forall (λ name, name ∈ trimHeaders Samples.headers_all) Validator.MANDATORY_HEADERS
  ∧ Forall (λ r, Words.priority_accepted
                   (Validator.find_columns (trimHeaders Samples.headers_all)) r = true)
      Samples.login_rows
  ∧ Words.priority_accepted (Validator.find_columns (trimHeaders Samples.headers_all))
      Samples.row_with_bad_priority = false
  ∧ (Validator.validateExcelSchema Samples.headers_all
       (Samples.login_rows ++ Samples.row_with_bad_priority :: [])).2
    = inl (Validator.InvalidPriority (length Samples.login_rows + 2)
             (Words.priority_read (Validator.find_columns (trimHeaders Samples.headers_all))
                Samples.row_with_bad_priority))
  ∧ Parser.parseRows Samples.headers_all
      (Samples.login_rows ++ Samples.row_with_bad_priority :: [])
    = inl (Parser.SchemaError
             (Validator.InvalidPriority (length Samples.login_rows + 2)
                (Words.priority_read (Validator.find_columns (trimHeaders Samples.headers_all))
                   Samples.row_with_bad_priority))).
Proof.
  assert (H1 : Forall (λ name, name ∈ trimHeaders Samples.headers_all)
                 Validator.MANDATORY_HEADERS).
  { apply (bool_decide_unpack _). vm_compute. exact I. }
  assert (H2 : Forall (λ r, Words.priority_accepted
                              (Validator.find_columns (trimHeaders Samples.headers_all)) r
                            = true) Samples.login_rows).
  { repeat constructor. }
  split; [exact H1|]. split; [exact H2|]. split; [reflexivity|].
  exact (invalid_priority_names_the_row Samples.headers_all Samples.login_rows
           Samples.row_with_bad_priority [] H1 H2 eq_refl).
Defined.

Lemma dropped_rows_are_the_leading_ones_witness :
  Validator.validateExcelSchema Samples.headers_all
    (Samples.row_without_scenario :: Samples.login_rows)
  = ([Validator.ScenarioEmpty 2], inr tt)
  ∧ ∃ st, Parser.parseRows Samples.headers_all
            (Samples.row_without_scenario :: Samples.login_rows) = inr st
          ∧ Words.skipped_for_scenario (Parser.console st)
            = Words.scenario_warnings [Validator.ScenarioEmpty 2]
          ∧ Words.scenario_warnings [Validator.ScenarioEmpty 2]
            = seq 2 (Words.leading_untitled
                       (array_index_of (lit "Test Scenario") (trimHeaders Samples.headers_all))
                       (Samples.row_without_scenario :: Samples.login_rows)).
Proof.
  assert (H : Validator.validateExcelSchema Samples.headers_all
                (Samples.row_without_scenario :: Samples.login_rows)
              = ([Validator.ScenarioEmpty 2], inr tt)) by (vm_compute; reflexivity).
  split; [exact H|].
  exact (dropped_rows_are_the_leading_ones Samples.headers_all
           (Samples.row_without_scenario :: Samples.login_rows)
           [Validator.ScenarioEmpty 2] H).
Defined.

Lemma grouped_priorities_are_valid_witness :
  Parser.parseRows Samples.headers_all Samples.login_rows = inr Samples.login_state
  ∧ Words.header_count (lit "Testcase Priority") (trimHeaders Samples.headers_all) = 1
  ∧ Forall (λ r, Words.is_other
                   (cell_at r (array_index_of (lit "Testcase Priority")
                                 (trimHeaders Samples.headers_all))) = false)
      Samples.login_rows
  ∧ Forall (λ tc, priority tc ∈ [] :: Validator.valid_priorities)
      (Words.all_tests (Parser.groupedMap Samples.login_state)).
Proof.
  assert (H1 : Parser.parseRows Samples.headers_all Samples.login_rows
               = inr Samples.login_state) by (vm_compute; reflexivity).
  assert (H2 : Words.header_count (lit "Testcase Priority") (trimHeaders Samples.headers_all)
               = 1) by (vm_compute; reflexivity).
  assert (H3 : Forall (λ r, Words.is_other
                              (cell_at r (array_index_of (lit "Testcase Priority")
                                            (trimHeaders Samples.headers_all))) = false)
                 Samples.login_rows) by (repeat constructor).
  split; [exact H1|]. split; [exact H2|]. split; [exact H3|].
  exact (grouped_priorities_are_valid Samples.headers_all Samples.login_rows
           Samples.login_state H1 H2 H3).
Defined.

(** With two priority columns the validator reads the first and the
    grouping loop the last: the sheet passes, and the test has a priority
    that is none of the three. *)
Example priority_of_the_last_column :
  Validator.validateExcelSchema Samples.headers_two_priorities Samples.rows_two_priorities
  = ([], inr tt)
  ∧ (priority <$> Words.all_tests
       (Parser.groupedMap
          (Parser.group_rows (trimHeaders Samples.headers_two_priorities)
             (array_index_of (lit "Test Scenario") (trimHeaders Samples.headers_two_priorities))
             Parser.initial 0 Samples.rows_two_priorities)))
    = [lit "URGENT"].
Proof. vm_compute. by split. Qed.

Lemma unmatched_test_file_is_kept_witness :
  PostProcessor.find_scenario [Samples.login_group]
    (PostProcessor.generatedFileNameWithoutExt (lit "tests/checkout.spec.js")) = None
  ∧ Regex.test Regex.importBaseFixtureRegex
      (default [] (head (split 10 Samples.login_spec))) = false
  ∧ PostProcessor.process_test_file [Samples.login_group] (lit "tests/checkout.spec.js")
      Samples.login_spec
    = Some (Samples.login_spec,
            [PostProcessor.NoScenarioForFile (lit "tests/checkout.spec.js")])
  ∧ PostProcessor.process_entry [Samples.login_group] (lit "tests/checkout.spec.js")
      Samples.login_spec
    = Samples.login_spec.
Proof.
  assert (H1 : PostProcessor.find_scenario [Samples.login_group]
                 (PostProcessor.generatedFileNameWithoutExt (lit "tests/checkout.spec.js"))
               = None) by (vm_compute; reflexivity).
  assert (H2 : Regex.test Regex.importBaseFixtureRegex
                 (default [] (head (split 10 Samples.login_spec))) = false)
    by (vm_compute; reflexivity).
  split; [exact H1|]. split; [exact H2|].
  exact (unmatched_test_file_is_kept [Samples.login_group] (lit "tests/checkout.spec.js")
           Samples.login_spec H1 H2).
Defined.

Lemma test_file_name_round_trip_witness :
  Words.alphanumeric (lit "login")
  ∧ lit ".cy.js" ∈ lit <$> [".spec.js"; ".test.js"; ".cy.js"]%string
  ∧ PostProcessor.is_test_file (lit "tests/" ++ lit "login" ++ lit ".cy.js") = true
  ∧ PostProcessor.generatedFileNameWithoutExt (lit "tests/" ++ lit "login" ++ lit ".cy.js")
    = lit "login".
Proof.
  assert (H1 : Words.alphanumeric (lit "login")).
  { apply (bool_decide_unpack _). vm_compute. exact I. }
  assert (H2 : lit ".cy.js" ∈ lit <$> [".spec.js"; ".test.js"; ".cy.js"]%string).
  { apply (bool_decide_unpack _). vm_compute. exact I. }
  split; [exact H1|]. split; [exact H2|].
  exact (test_file_name_round_trip (lit "login") (lit ".cy.js") H1 H2).
Defined.

Lemma login_group_analysed :
  Words.enriched (Generate.filter_test_data (Parser.groupedMap Samples.login_state))
    [Samples.login_group_analysed].
Proof.
  assert (H : Generate.filter_test_data (Parser.groupedMap Samples.login_state)
              = [Samples.login_group]) by (vm_compute; reflexivity).
  rewrite H. repeat constructor.
Defined.

Lemma generated_file_finds_its_group_witness :
  Words.enriched (Generate.filter_test_data (Parser.groupedMap Samples.login_state))
    [Samples.login_group_analysed]
  ∧ Samples.login_group_analysed ∈ [Samples.login_group_analysed]
  ∧ lit ".spec.js" ∈ lit <$> [".spec.js"; ".test.js"; ".cy.js"]%string
  ∧ PostProcessor.is_test_file
      (lit "tests/" ++ shortFeatureName Samples.login_group_analysed ++ lit ".spec.js") = true
  ∧ PostProcessor.find_scenario [Samples.login_group_analysed]
      (PostProcessor.generatedFileNameWithoutExt
         (lit "tests/" ++ shortFeatureName Samples.login_group_analysed ++ lit ".spec.js"))
    = Some Samples.login_group_analysed.
Proof.
  assert (H1 : Samples.login_group_analysed ∈ [Samples.login_group_analysed]) by left.
  assert (H2 : lit ".spec.js" ∈ lit <$> [".spec.js"; ".test.js"; ".cy.js"]%string).
  { apply (bool_decide_unpack _). vm_compute. exact I. }
  split; [exact login_group_analysed|]. split; [exact H1|]. split; [exact H2|].
  exact (generated_file_finds_its_group (trimHeaders Samples.headers_all)
           (array_index_of (lit "Test Scenario") (trimHeaders Samples.headers_all))
           Samples.login_rows [Samples.login_group_analysed] Samples.login_group_analysed
           (lit ".spec.js") login_group_analysed H1 H2).
Defined.

Lemma every_group_has_a_fixture_witness :
  Words.enriched (Generate.filter_test_data (Parser.groupedMap Samples.login_state))
    [Samples.login_group_analysed]
  ∧ Samples.login_group_analysed ∈ [Samples.login_group_analysed]
  ∧ Normalizer.toPascalCase (scenario Samples.login_group_analysed)
    ∈ PostProcessor.pageObjectNames [Samples.login_group_analysed]
  ∧ NoDup (PostProcessor.pageObjectNames [Samples.login_group_analysed])
  ∧ PostProcessor.fixture_definition
      (Normalizer.toPascalCase (scenario Samples.login_group_analysed))
    = lit "    " ++ page Samples.login_group_analysed
        ++ lit "Page: async ({ page }, use) => { await use(new "
        ++ Normalizer.toPascalCase (scenario Samples.login_group_analysed)
        ++ lit "Page(page)); },"
  ∧ PostProcessor.fixture_definition
      (Normalizer.toPascalCase (scenario Samples.login_group_analysed))
    ∈ Words.fixture_lines (PostProcessor.pageObjectNames [Samples.login_group_analysed]).
Proof.
  assert (H1 : Samples.login_group_analysed ∈ [Samples.login_group_analysed]) by left.
  split; [exact login_group_analysed|]. split; [exact H1|].
  exact (every_group_has_a_fixture (trimHeaders Samples.headers_all)
           (array_index_of (lit "Test Scenario") (trimHeaders Samples.headers_all))
           Samples.login_rows [Samples.login_group_analysed] Samples.login_group_analysed
           login_group_analysed H1).
Defined.

(** A scenario titled Generic Feature is grouped by the loop and dropped by
    the filter of the route: [generateCode] never sees its group. *)
Example generic_feature_is_dropped :
  (shortFeatureName <$>
     Parser.groupedMap
       (Parser.group_rows (trimHeaders Samples.headers_all)
          (array_index_of (lit "Test Scenario") (trimHeaders Samples.headers_all))
          Parser.initial 0 [Samples.generic_feature_row]))
  = [lit "genericFeature"]
  ∧ Generate.filter_test_data
      (Parser.groupedMap
         (Parser.group_rows (trimHeaders Samples.headers_all)
            (array_index_of (lit "Test Scenario") (trimHeaders Samples.headers_all))
            Parser.initial 0 [Samples.generic_feature_row]))
    = [].
Proof. vm_compute. by split. Qed.

Lemma rebuilt_fixture_is_written_witness :
  Samples.files_with_fixture !! PostProcessor.fixturePath = Some (lit "// to be filled in")
  ∧ truthy (lit "// to be filled in") = true
  ∧ ∃ rebuilt,
      PostProcessor.postProcess [Samples.login_group] [lit "Login"] Samples.files_with_fixture
        !! PostProcessor.fixturePath = Some rebuilt
      ∧ Generate.written rebuilt = true.
Proof.
  assert (H1 : Samples.files_with_fixture !! PostProcessor.fixturePath
               = Some (lit "// to be filled in")) by (vm_compute; reflexivity).
  split; [exact H1|]. split; [reflexivity|].
  exact (rebuilt_fixture_is_written [Samples.login_group] [lit "Login"]
           Samples.files_with_fixture (lit "// to be filled in") H1 eq_refl).
Defined.

(** A suggestion under a new title with the short feature name of a group
    of the plan: the plan then has two groups under one key, and the group
    found for the test file of that key is the old one. *)
Example suggested_group_shares_a_key :
  (shortFeatureName <$>
     (Suggestions.add_selected [Samples.login_group] [Samples.login_page_suggestion]).1)
  = [lit "login"; lit "login"]
  ∧ (Suggestions.add_selected [Samples.login_group] [Samples.login_page_suggestion]).2 = 1
  ∧ PostProcessor.find_scenario
      (Suggestions.add_selected [Samples.login_group] [Samples.login_page_suggestion]).1
      (PostProcessor.generatedFileNameWithoutExt (lit "tests/login.spec.js"))
    = Some Samples.login_group.
Proof. vm_compute. by split_and!. Qed.

End FurtherEvaluations.

(** * The rows of the updated Excel file, read back *)

Section RoundTrip.
Context {CM : CaseMapping}.

Lemma drop_while_last (p : N → bool) (s : jsstr) :
  drop_while p s ≠ [] → last (drop_while p s) = last s.
Proof.
  induction s as [|c t IH]; simpl; [done|].
  destruct (p c); [|done]. intros Hne. rewrite IH by done.
  destruct t; [done|done].
Qed.

(** What a trimmed string begins and ends with. *)
Lemma trim_ends (s : jsstr) :
  match head (trim s) with Some c => is_space c = false | None => True end
  ∧ match last (trim s) with Some c => is_space c = false | None => True end.
Proof.
  unfold trim. rewrite head_reverse, last_reverse. split.
  - pose proof (drop_while_head is_space s) as Ha.
    destruct (drop_while is_space (reverse (drop_while is_space s))) as [|x r] eqn:E;
      [done|].
    rewrite <- E, drop_while_last by (by rewrite E).
    rewrite last_reverse. by destruct (drop_while is_space s).
  - pose proof (drop_while_head is_space (reverse (drop_while is_space s))) as Hb.
    by destruct (drop_while is_space (reverse (drop_while is_space s))).
Qed.

Lemma trim_fixed (s : jsstr) :
  match head s with Some c => is_space c = false | None => True end →
  match last s with Some c => is_space c = false | None => True end →
  trim s = s.
Proof.
  intros Hh Hl. unfold trim.
  assert (Hs : drop_while is_space s = s).
  { destruct s as [|c t]; [done|]. simpl in *. by rewrite Hh. }
  rewrite Hs.
  assert (Hr : drop_while is_space (reverse s) = reverse s).
  { rewrite <- head_reverse in Hl. destruct (reverse s) as [|c t]; [done|].
    simpl in *. by rewrite Hl. }
  by rewrite Hr, reverse_involutive.
Qed.

(** The steps joined by line breaks are a trimmed string. *)
Lemma trim_join_steps (steps : list jsstr) :
  Forall (λ s, truthy s = true ∧ trim s = s ∧ (10%N ∉ s)) steps →
  trim (join [10%N] steps) = join [10%N] steps.
Proof.
  intros Hsteps. apply trim_fixed.
  - destruct Hsteps as [|s rest (Ht & Htrim & _) _]; [done|].
    pose proof (proj1 (trim_ends s)) as Hh. rewrite Htrim in Hh.
    destruct s as [|c s]; [done|]. by destruct rest.
  - induction Hsteps as [|s rest (Ht & Htrim & _) Hrest IH]; [done|].
    destruct rest as [|s' rest].
    + pose proof (proj2 (trim_ends s)) as Hl. by rewrite Htrim in Hl.
    + rewrite join_cons by done.
      apply Forall_cons in Hrest as [(Ht' & _) _].
      rewrite !last_app.
      destruct (last (join [10%N] (s' :: rest))) as [c|] eqn:E; [done|].
      apply last_None in E. destruct s'; [done|]. by destruct rest.
Qed.

(** Splitting the joined steps gives the steps back. *)
Lemma split_join_steps (steps : list jsstr) :
  steps ≠ [] → Forall (λ s, 10%N ∉ s) steps →
  split 10 (join [10%N] steps) = steps.
Proof.
  intros Hne Hsteps. destruct steps as [|s rest]; [done|]. clear Hne.
  revert s Hsteps. induction rest as [|s' rest IH]; intros s Hsteps;
    apply Forall_cons in Hsteps as [Hs Hrest].
  - simpl. by apply split_without_separator.
  - rewrite join_cons by done.
    change ([10%N] ++ join [10%N] (s' :: rest)) with (10%N :: join [10%N] (s' :: rest)).
    rewrite split_prefix by done. by rewrite IH.
Qed.

Lemma steps_round_trip (steps : list jsstr) :
  Forall (λ s, truthy s = true ∧ trim s = s ∧ (10%N ∉ s)) steps →
  filter (λ s, truthy s = true) (trim <$> split 10 (trim (join [10%N] steps))) = steps.
Proof.
  intros Hsteps. rewrite trim_join_steps by done.
  destruct steps as [|s rest]; [done|].
  rewrite split_join_steps; [|done|].
  2:{ eapply Forall_impl; [exact Hsteps|]. by intros ? (_ & _ & ?). }
  assert (Htrim : trim <$> (s :: rest) = s :: rest).
  { clear -Hsteps. induction Hsteps as [|x l (_ & Hx & _) _ IH]; [done|].
    rewrite fmap_cons, Hx. by f_equal. }
  rewrite Htrim. apply filter_all.
  eapply Forall_impl; [exact Hsteps|]. by intros ? (? & _).
Qed.

Lemma or_else_nil (s : jsstr) : or_else s [] = s.
Proof. by destruct s. Qed.

End RoundTrip.

Section ReadBack.
Context {CM : CaseMapping}.
Hypothesis Hcase : Words.agrees_on_basic_latin.

Lemma download_columns :
  array_index_of (lit "Test Scenario") (trimHeaders Download.headers) = Some 0
  ∧ Validator.find_columns (trimHeaders Download.headers)
    = {| Validator.testScenarioColIndex := Some 0;
         Validator.testCaseDescriptionColIndex := Some 2;
         Validator.detailStepsColIndex := Some 3;
         Validator.expectedResultColIndex := Some 5;
         Validator.testcasePriorityColIndex := Some 6 |}
  ∧ Validator.first_missing Validator.MANDATORY_HEADERS (trimHeaders Download.headers) = None.
Proof. vm_compute. by split_and!. Qed.

Lemma fields_of_row (g : ScenarioGroup) (tc : TestCase) :
  let f := Parser.field (trimHeaders Download.headers) (Download.row_of g tc) in
  f "Test Case ID"%string = trim (id tc)
  ∧ f "Test Case Description"%string = trim (title tc)
  ∧ f "Detail Steps"%string = trim (join [10%N] (steps tc))
  ∧ f "Test Data"%string = trim (data tc)
  ∧ f "Expected Result"%string = trim (expected tc)
  ∧ f "Testcase Priority"%string = trim (priority tc).
Proof.
  cbv zeta. unfold Download.row_of. rewrite !or_else_nil.
  split_and!; reflexivity.
Qed.

Lemma priority_upper (p : jsstr) :
  p ∈ [] :: Validator.valid_priorities → trim p = p ∧ toUpperCase p = p.
Proof.
  intros Hp.
  assert (Hup : ∀ s, Words.is_basic_latin s = true → upper_unit <$> s = s → toUpperCase s = s).
  { intros s Hs Hu. destruct (Hcase s Hs) as [_ ->]. done. }
  unfold Validator.valid_priorities in Hp. simpl in Hp. rewrite !elem_of_cons in Hp.
  destruct Hp as [->|[->|[->|[->|[]%elem_of_nil]]]];
    (split; [reflexivity|by apply Hup]).
Qed.

Lemma build_test_exported (g : ScenarioGroup) (tc : TestCase) (T : jsstr) (n : nat) :
  Words.exportable_test tc →
  Parser.build_test (trimHeaders Download.headers) (Download.row_of g tc) T n
  = Words.reimported_test tc.
Proof.
  intros ((Ht & _ & Hsteps) & Htitle & Hid & Hdata & Hexp & Hp).
  destruct (fields_of_row g tc) as (F1 & F2 & F3 & F4 & F5 & F6). cbv zeta in *.
  destruct (priority_upper _ Hp) as [Hptrim Hpup].
  unfold Parser.build_test, Words.reimported_test. cbv zeta.
  rewrite F1, F2, F3, F4, F5, F6.
  rewrite Hid, Htitle, Hdata, Hexp, Hptrim, Hpup, steps_round_trip by done.
  unfold or_else. rewrite Ht. by destruct (priority tc).
Qed.

Lemma group_row_exported (st : Parser.state) (i : nat) (g : ScenarioGroup) (tc : TestCase) :
  Words.well_formed_group g → Words.exportable_test tc →
  Parser.group_row (trimHeaders Download.headers)
    (array_index_of (lit "Test Scenario") (trimHeaders Download.headers)) st i
    (Download.row_of g tc)
  = {| Parser.groupedMap :=
         Parser.push_test (shortFeatureName g) (Words.reimported_test tc)
           (if Parser.has (shortFeatureName g) (Parser.groupedMap st)
            then Parser.groupedMap st
            else Parser.set (shortFeatureName g)
                   {| page := page g; scenario := scenario g;
                      shortFeatureName := shortFeatureName g; tests := [] |}
                   (Parser.groupedMap st));
       Parser.lastValidScenarioTitle := Some (scenario g);
       Parser.console := Parser.console st |}.
Proof.
  intros (Hs & Htrim & Hpage & Hpt & Hkey & _) Htc.
  rewrite (proj1 download_columns). unfold Parser.group_row.
  assert (Hd : Parser.determine (Download.row_of g tc) (Some 0)
                 (Parser.lastValidScenarioTitle st) = Some (scenario g)).
  { unfold Parser.determine. simpl. by rewrite Htrim, Hs. }
  rewrite Hd, Hs. cbn [negb]. rewrite <- Hpage, Hpt, <- Hkey. cbn [negb].
  by rewrite !build_test_exported.
Qed.

(** The rows of the tests of a group whose first tests are in the map. *)
Lemma group_rows_pushes (g : ScenarioGroup) (ts : list TestCase) (m : Parser.grouped)
    (done_ : list TestCase) (c : list Parser.diagnostic) (i : nat) :
  Words.well_formed_group g → Forall Words.exportable_test ts →
  Parser.get (shortFeatureName g) m = None →
  Parser.group_rows (trimHeaders Download.headers)
    (array_index_of (lit "Test Scenario") (trimHeaders Download.headers))
    {| Parser.groupedMap :=
         m ++ [{| page := page g; scenario := scenario g;
                  shortFeatureName := shortFeatureName g; tests := done_ |}];
       Parser.lastValidScenarioTitle := Some (scenario g);
       Parser.console := c |} i (Download.row_of g <$> ts)
  = {| Parser.groupedMap :=
         m ++ [{| page := page g; scenario := scenario g;
                  shortFeatureName := shortFeatureName g;
                  tests := done_ ++ (Words.reimported_test <$> ts) |}];
       Parser.lastValidScenarioTitle := Some (scenario g);
       Parser.console := c |}.
Proof.
  intros Hg Hts Hm. revert done_ i.
  induction Hts as [|tc ts Htc Hts IH]; intros done_ i.
  - simpl. by rewrite app_nil_r.
  - rewrite fmap_cons. cbn [Parser.group_rows].
    rewrite group_row_exported by done. cbn [Parser.groupedMap Parser.console].
    assert (Hhas : Parser.has (shortFeatureName g)
                     (m ++ [{| page := page g; scenario := scenario g;
                               shortFeatureName := shortFeatureName g;
                               tests := done_ |}]) = true).
    { apply has_get. rewrite <- (set_fresh _ _ m Hm).
      rewrite get_set_fresh by done. eauto. }
    rewrite Hhas, push_test_fresh by done. cbn [page scenario shortFeatureName tests].
    rewrite IH. by rewrite <- app_assoc.
Qed.

(** The rows of a group that the map does not have yet. *)
Lemma group_rows_group (g : ScenarioGroup) (st : Parser.state) (i : nat) :
  Words.well_formed_group g → Forall Words.exportable_test (tests g) →
  Parser.get (shortFeatureName g) (Parser.groupedMap st) = None →
  Parser.group_rows (trimHeaders Download.headers)
    (array_index_of (lit "Test Scenario") (trimHeaders Download.headers))
    st i (Download.row_of g <$> tests g)
  = {| Parser.groupedMap := Parser.groupedMap st ++ [Words.reimported g];
       Parser.lastValidScenarioTitle := Some (scenario g);
       Parser.console := Parser.console st |}.
Proof.
  intros Hg Hts Hm.
  assert (Hne : (0 <? length (tests g)) = true) by apply Hg.
  destruct (tests g) as [|tc ts] eqn:Htests; [done|].
  apply Forall_cons in Hts as [Htc Hts].
  rewrite fmap_cons. cbn [Parser.group_rows].
  rewrite group_row_exported by done.
  unfold Parser.has. rewrite Hm, set_fresh, push_test_fresh by done.
  cbn [page scenario shortFeatureName tests app].
  rewrite group_rows_pushes by done.
  unfold Words.reimported. by rewrite Htests.
Qed.

Lemma get_app_None (key : jsstr) (m1 m2 : Parser.grouped) :
  Parser.get key m1 = None → Parser.get key m2 = None →
  Parser.get key (m1 ++ m2) = None.
Proof.
  intros H1 H2. induction m1 as [|h t IH]; simpl in *; [done|].
  destruct (JS.eqb (shortFeatureName h) key); [done|]. auto.
Qed.

Lemma get_not_key (key : jsstr) (m : Parser.grouped) :
  key ∉ shortFeatureName <$> m → Parser.get key m = None.
Proof.
  induction m as [|h t IH]; cbn [Parser.get]; [done|].
  rewrite fmap_cons, not_elem_of_cons. intros [Hne Ht].
  rewrite (proj2 (eqb_neq (shortFeatureName h) key)) by done. auto.
Qed.

Lemma group_rows_exported (testData : list ScenarioGroup) (st : Parser.state) (i : nat) :
  NoDup ((shortFeatureName <$> Parser.groupedMap st) ++ (shortFeatureName <$> testData)) →
  Forall (λ g, Words.well_formed_group g ∧ Forall Words.exportable_test (tests g)) testData →
  let st' := Parser.group_rows (trimHeaders Download.headers)
               (array_index_of (lit "Test Scenario") (trimHeaders Download.headers))
               st i (Download.rows testData) in
  Parser.groupedMap st' = Parser.groupedMap st ++ (Words.reimported <$> testData)
  ∧ Parser.console st' = Parser.console st.
Proof.
  intros Hnd Hall. revert st i Hnd.
  induction Hall as [|g testData [Hg Hts] Hall IH]; intros st i Hnd; cbv zeta.
  - simpl. by rewrite app_nil_r.
  - unfold Download.rows. rewrite bind_cons. fold (Download.rows testData).
    rewrite group_rows_app, group_rows_group; try done.
    2:{ apply get_not_key. rewrite fmap_cons in Hnd.
        apply NoDup_app in Hnd as (_ & Hdis & _). intros Hin.
        apply (Hdis _ Hin). left. }
    set (st1 := {| Parser.groupedMap := Parser.groupedMap st ++ [Words.reimported g];
                   Parser.lastValidScenarioTitle := Some (scenario g);
                   Parser.console := Parser.console st |}).
    destruct (IH st1 (i + length (Download.row_of g <$> tests g))) as [Hm Hc].
    + unfold st1. cbn [Parser.groupedMap]. rewrite fmap_app, <- app_assoc.
      by rewrite fmap_cons in Hnd.
    + rewrite Hm, Hc. unfold st1. cbn [Parser.groupedMap Parser.console].
      by rewrite <- app_assoc.
Qed.

Lemma exported_rows_pass (testData : list ScenarioGroup) :
  Forall (λ g, Words.well_formed_group g ∧ Forall Words.exportable_test (tests g)) testData →
  (Validator.validateExcelSchema Download.headers (Download.rows testData)).2 = inr tt.
Proof.
  intros Hall. unfold Validator.validateExcelSchema.
  rewrite (proj2 (proj2 download_columns)).
  set (cols := Validator.find_columns (trimHeaders Download.headers)).
  assert (Hrows : Forall (λ r, Words.priority_accepted cols r = true
                               ∧ Words.has_title (Validator.testScenarioColIndex cols) r = true)
                    (Download.rows testData)).
  { unfold cols. rewrite (proj1 (proj2 download_columns)).
    unfold Download.rows. apply Forall_bind.
    eapply Forall_impl; [exact Hall|]. intros g [Hg Hts]. apply Forall_fmap.
    eapply Forall_impl; [exact Hts|]. intros tc (_ & _ & _ & _ & _ & Hp). simpl.
    destruct Hg as (Hs & Htrim & _). split.
    - unfold Words.priority_accepted, Words.priority_read. simpl.
      rewrite or_else_nil. destruct (priority_upper _ Hp) as [-> ->].
      apply elem_of_cons in Hp as [->|Hp]; [done|].
      destruct (array_includes (priority tc) Validator.valid_priorities) eqn:E;
        [by rewrite orb_true_r|].
      by apply array_includes_false in E.
    - unfold Words.has_title. simpl. by rewrite Htrim. }
  destruct (scan_rows_passes cols (Download.rows testData) 0 None false) as [ws ->];
    [done| |].
  { eapply Forall_impl; [exact Hrows|]. by intros r [? _]. }
  unfold Words.scanned_has.
  destruct (Download.rows testData) as [|r rows]; [done|].
  apply Forall_cons in Hrows as [[_ Hr] _]. cbn [existsb]. by rewrite Hr.
Qed.

End ReadBack.

(** X20: the updated Excel file read back.  For a plan as the parser makes
    it of a valid sheet (well-formed groups under distinct keys, tests with
    trimmed fields and a priority that is empty or one of the three), the
    rows the download route puts under its header row pass the validator,
    and the grouping loop makes of them the groups of the plan, in their
    order, with every test as it was but for its description, which is now
    its title; no row is skipped.  (The rows are those handed to the
    spreadsheet library, taken as read back cell for cell; the case mapping
    is that of Unicode on Basic Latin.) *)
Theorem downloaded_rows_read_back {CM : CaseMapping} (testData : list ScenarioGroup) :
  Words.agrees_on_basic_latin →
  Words.exportable testData →
  ∃ st, Parser.parseRows Download.headers (Download.rows testData) = inr st
        ∧ Parser.groupedMap st = Words.reimported <$> testData
        ∧ Parser.console st = [].
Proof.
  intros Hcase [Hnd Hall]. rewrite parseRows_headers by done.
  rewrite (exported_rows_pass Hcase testData Hall).
  eexists. split; [reflexivity|].
  by destruct (group_rows_exported Hcase testData Parser.initial 0 Hnd Hall).
Qed.

Section ReadBackEvaluation.
#[local] Existing Instance BasicLatin.

Lemma downloaded_rows_read_back_witness :
  Words.agrees_on_basic_latin
  ∧ Words.exportable [Samples.login_group]
  ∧ ∃ st, Parser.parseRows Download.headers (Download.rows [Samples.login_group]) = inr st
          ∧ Parser.groupedMap st = Words.reimported <$> [Samples.login_group]
          ∧ Parser.console st = [].
Proof.
  assert (H1 : Words.agrees_on_basic_latin) by (intros s _; split; reflexivity).
  assert (H2 : Words.exportable [Samples.login_group]).
  { unfold Words.exportable, Words.well_formed_group, Words.exportable_test,
      Words.well_formed_test.
    apply (bool_decide_unpack _). vm_compute. exact I. }
  split; [exact H1|]. split; [exact H2|].
  exact (downloaded_rows_read_back [Samples.login_group] H1 H2).
Defined.

(** A test without a description comes back with the placeholder title as
    its description. *)
Example placeholder_becomes_the_description :
  (description <$> Words.all_tests
     (Parser.groupedMap
        (Parser.group_rows (trimHeaders Samples.headers_all)
           (array_index_of (lit "Test Scenario") (trimHeaders Samples.headers_all))
           Parser.initial 0 [Samples.row_without_description])))
  = [[]]
  ∧ (description <$> Words.all_tests
       (Parser.groupedMap
          (Parser.group_rows (trimHeaders Download.headers)
             (array_index_of (lit "Test Scenario") (trimHeaders Download.headers))
             Parser.initial 0
             (Download.rows
                (Parser.groupedMap
                   (Parser.group_rows (trimHeaders Samples.headers_all)
                      (array_index_of (lit "Test Scenario") (trimHeaders Samples.headers_all))
                      Parser.initial 0 [Samples.row_without_description]))))))
    = [lit "Test for Login - Case 1"].
Proof. vm_compute. by split. Qed.

End ReadBackEvaluation.

(** * From the sheet to the updated Excel file and back *)

Section ParsedPlan.
Context {CM : CaseMapping}.

Lemma cell_text_trimmed (v : cell) : trim (Parser.cell_text v) = Parser.cell_text v.
Proof. destruct v; simpl; [done|done|apply trim_idemp|apply trim_idemp]. Qed.

Lemma row_object_trimmed (hs : list jsstr) (k : nat) (r : row) (header v : jsstr) :
  Parser.row_object hs k r header = Some v → trim v = v.
Proof.
  revert k. induction hs as [|h hs IH]; intros k; simpl; [done|].
  destruct (Parser.row_object hs (S k) r header) as [v'|] eqn:E.
  - intros [= <-]. by eapply IH.
  - destruct (JS.eqb h header); [|done]. intros [= <-]. apply cell_text_trimmed.
Qed.

Lemma field_trimmed (hs : list jsstr) (r : row) (header : string) :
  trim (Parser.field hs r header) = Parser.field hs r header.
Proof.
  unfold Parser.field.
  destruct (Parser.row_object hs 0 r (lit header)) as [v|] eqn:E; simpl; [|done].
  by eapply row_object_trimmed.
Qed.

Lemma dec_digits_last (fuel n : nat) (acc : jsstr) (c : N) :
  last acc = Some c → last (dec_digits fuel n acc) = Some c.
Proof.
  revert n acc. induction fuel as [|fuel IH]; intros n acc Hacc;
    cbn [dec_digits]; [done|]. cbv zeta.
  assert (H : last ((48 + N.of_nat (n mod 10))%N :: acc) = Some c).
  { rewrite last_cons. by rewrite Hacc. }
  destruct (n / 10 =? 0); [done|]. by apply IH.
Qed.

(** A number in decimal ends with a digit. *)
Lemma of_nat_last (n : nat) :
  ∃ d, last (JS.of_nat n) = Some d ∧ is_space d = false.
Proof.
  exists (48 + N.of_nat (n mod 10))%N. split.
  - unfold JS.of_nat. cbn [dec_digits]. cbv zeta.
    destruct (n / 10 =? 0); [done|]. by apply dec_digits_last.
  - assert (Hlt : n mod 10 < 10) by (apply Nat.mod_upper_bound; lia).
    destruct (n mod 10) as [|[|[|[|[|[|[|[|[|[|k]]]]]]]]]]; try reflexivity. lia.
Qed.

Lemma placeholder_trimmed (T : jsstr) (n : nat) :
  trim (lit "Test for " ++ T ++ lit " - Case " ++ JS.of_nat n)
  = lit "Test for " ++ T ++ lit " - Case " ++ JS.of_nat n.
Proof.
  apply trim_fixed; [reflexivity|].
  destruct (of_nat_last n) as (d & Hd & Hs).
  rewrite !last_app, Hd. done.
Qed.

Lemma build_test_exportable (hs : list jsstr) (r : row) (T : jsstr) (n : nat) :
  priority (Parser.build_test hs r T n) ∈ [] :: Validator.valid_priorities →
  Words.exportable_test (Parser.build_test hs r T n).
Proof.
  intros Hp. split; [apply build_test_well_formed|].
  split_and!; try done; unfold Parser.build_test; cbn [title id data expected].
  - unfold or_else. destruct (truthy (Parser.field hs r "Test Case Description"));
      [apply field_trimmed|apply placeholder_trimmed].
  - apply field_trimmed.
  - apply field_trimmed.
  - apply field_trimmed.
Qed.

Lemma all_tests_elem (m : list ScenarioGroup) (g : ScenarioGroup) (tc : TestCase) :
  g ∈ m → tc ∈ tests g → tc ∈ Words.all_tests m.
Proof. intros Hg Htc. unfold Words.all_tests. apply list_elem_of_bind. eauto. Qed.

End ParsedPlan.

(** X21: download and upload again.  When a sheet with one priority column
    and string priority cells has been parsed, the plan is one the download
    route can write and the parser can read back: the rows the route makes
    of it pass the validator and are grouped into the same groups, in the
    same order, with the same tests, but that a test without a description
    comes back with its placeholder title for a description.  (The case
    mapping is that of Unicode on Basic Latin.) *)
Theorem parsed_plan_reads_back {CM : CaseMapping}
    (headers : row) (dataRows : list row) (st : Parser.state) :
  Words.agrees_on_basic_latin →
  Parser.parseRows headers dataRows = inr st →
  Words.header_count (lit "Testcase Priority") (trimHeaders headers) = 1 →
  Forall (λ r, Words.is_other
                 (cell_at r (array_index_of (lit "Testcase Priority") (trimHeaders headers)))
               = false) dataRows →
  Words.exportable (Parser.groupedMap st)
  ∧ ∃ st', Parser.parseRows Download.headers (Download.rows (Parser.groupedMap st)) = inr st'
           ∧ Parser.groupedMap st' = Words.reimported <$> Parser.groupedMap st
           ∧ Parser.console st' = [].
Proof.
  intros Hcase Hparse Honce Hcells.
  apply parseRows_inr in Hparse as (_ & Hval & ->).
  pose proof (validated_rows_accepted headers dataRows Hval) as Hacc.
  set (st := Parser.group_rows (trimHeaders headers)
               (array_index_of (lit "Test Scenario") (trimHeaders headers))
               Parser.initial 0 dataRows).
  destruct (group_rows_invariant (trimHeaders headers)
              (array_index_of (lit "Test Scenario") (trimHeaders headers))
              dataRows Parser.initial 0) as (_ & Hwf & Hnd).
  { split_and!; simpl; [done|constructor|constructor]. }
  fold st in Hwf, Hnd.
  assert (Hall : Forall (λ g, Words.well_formed_group g
                              ∧ Forall Words.exportable_test (tests g))
                   (Parser.groupedMap st)).
  { apply Forall_forall. intros g Hg. rewrite Forall_forall in Hwf.
    split; [by apply Hwf|]. apply Forall_forall. intros tc Htc.
    pose proof (all_tests_elem _ _ _ Hg Htc) as Hin.
    apply group_rows_tests in Hin as [Hin|(r & T & n & Hr & ->)];
      [by apply elem_of_nil in Hin|].
    rewrite Forall_forall in Hacc, Hcells.
    apply build_test_exportable, built_priority_valid;
      [done|by apply Hacc|by apply Hcells]. }
  split; [by split|].
  rewrite parseRows_headers by done.
  rewrite (exported_rows_pass Hcase (Parser.groupedMap st) Hall).
  eexists. split; [reflexivity|].
  by destruct (group_rows_exported Hcase (Parser.groupedMap st) Parser.initial 0 Hnd Hall).
Qed.

Section ParsedPlanEvaluation.
#[local] Existing Instance BasicLatin.

Lemma parsed_plan_reads_back_witness :
  Words.agrees_on_basic_latin
  ∧ Parser.parseRows Samples.headers_all Samples.login_rows = inr Samples.login_state
  ∧ Words.header_count (lit "Testcase Priority") (trimHeaders Samples.headers_all) = 1
  ∧ Forall (λ r, Words.is_other
                   (cell_at r (array_index_of (lit "Testcase Priority")
                                 (trimHeaders Samples.headers_all))) = false)
      Samples.login_rows
  ∧ Words.exportable (Parser.groupedMap Samples.login_state)
  ∧ ∃ st', Parser.parseRows Download.headers
             (Download.rows (Parser.groupedMap Samples.login_state)) = inr st'
           ∧ Parser.groupedMap st' = Words.reimported <$> Parser.groupedMap Samples.login_state
           ∧ Parser.console st' = [].
Proof.
  assert (H1 : Words.agrees_on_basic_latin) by (intros s _; split; reflexivity).
  assert (H2 : Parser.parseRows Samples.headers_all Samples.login_rows
               = inr Samples.login_state) by (vm_compute; reflexivity).
  assert (H3 : Words.header_count (lit "Testcase Priority") (trimHeaders Samples.headers_all)
               = 1) by (vm_compute; reflexivity).
  assert (H4 : Forall (λ r, Words.is_other
                              (cell_at r (array_index_of (lit "Testcase Priority")
                                            (trimHeaders Samples.headers_all))) = false)
                 Samples.login_rows) by (repeat constructor).
  split; [exact H1|]. split; [exact H2|]. split; [exact H3|]. split; [exact H4|].
  exact (parsed_plan_reads_back Samples.headers_all Samples.login_rows Samples.login_state
           H1 H2 H3 H4).
Defined.

End ParsedPlanEvaluation.

(** * What the loop over the lines hands on *)

Section HandedOn.
Context {CM : CaseMapping}.

Lemma handed_lines_snoc (sc : ScenarioGroup) (kept : list jsstr) (x : jsstr)
    (k0 k : nat) (ls : list jsstr) :
  Words.handed_lines sc k0 kept = (ls, k) →
  Words.handed_lines sc k0 (kept ++ [x])
  = (ls ++ [(Words.handed_line sc k x).1], (Words.handed_line sc k x).2).
Proof.
  revert k0 ls. induction kept as [|y kept IH]; intros k0 ls; cbn [Words.handed_lines app].
  - intros [= <- <-]. by destruct (Words.handed_line sc k0 x).
  - destruct (Words.handed_line sc k0 y) as [l k1].
    destruct (Words.handed_lines sc k1 kept) as [ls1 k2] eqn:E.
    intros [= <- <-]. by rewrite (IH _ _ E).
Qed.

Lemma length_handed_lines (sc : ScenarioGroup) (kept : list jsstr) (k : nat) :
  length (Words.handed_lines sc k kept).1 = length kept.
Proof.
  revert k. induction kept as [|x kept IH]; intros k; cbn [Words.handed_lines]; [done|].
  destruct (Words.handed_line sc k x) as [l k1]. specialize (IH k1).
  destruct (Words.handed_lines sc k1 kept). simpl in *. by rewrite IH.
Qed.

Lemma handed_on_next (sc : ScenarioGroup) (lines0 : list jsstr)
    (st : PostProcessor.loop_state) (x : jsstr) (lines' : list jsstr) (i' m : nat)
    (ws : list PostProcessor.warning) :
  Words.handed_on sc lines0 st →
  PostProcessor.lines st !! PostProcessor.i st = Some x →
  i' ≤ length lines' →
  drop i' lines' = drop (S m) (drop (PostProcessor.i st) (PostProcessor.lines st)) →
  Words.handed_on sc lines0
    {| PostProcessor.lines := lines';
       PostProcessor.newLines :=
         PostProcessor.newLines st
           ++ [(Words.handed_line sc (PostProcessor.testCaseCounter st) x).1];
       PostProcessor.i := i';
       PostProcessor.testCaseCounter :=
         (Words.handed_line sc (PostProcessor.testCaseCounter st) x).2;
       PostProcessor.warnings := ws |}.
Proof.
  intros (k & kept & Hle & Hdrop & Hsub & Hlines) Hx Hi' Hd.
  exists (k + S m), (kept ++ [x]). simpl. split_and!.
  - done.
  - by rewrite Hd, Hdrop, drop_drop.
  - rewrite <- take_take_drop. apply sublist_app; [done|].
    assert (Hk : drop k lines0 !! 0 = Some x).
    { rewrite <- Hdrop, lookup_drop. by rewrite Nat.add_0_r. }
    destruct (drop k lines0) as [|y rest]; [done|]. injection Hk as ->.
    simpl. apply sublist_skip, sublist_nil_l.
  - by apply handed_lines_snoc.
Qed.

Lemma iteration_handed_on (sc : ScenarioGroup) (lines0 : list jsstr)
    (st : PostProcessor.loop_state) :
  PostProcessor.i st < length (PostProcessor.lines st) →
  Words.handed_on sc lines0 st →
  Words.handed_on sc lines0 (PostProcessor.iteration sc st).
Proof.
  intros Hi Hinv.
  destruct (lookup_lt_is_Some_2 _ _ Hi) as [x Hx].
  pose proof (λ lines' i' m ws, handed_on_next sc lines0 st x lines' i' m ws Hinv Hx)
    as Hnext.
  unfold Words.handed_line in Hnext. cbv zeta in Hnext.
  unfold PostProcessor.iteration. rewrite Hx. simpl default.
  destruct (Regex.exec Regex.testRegex _) as [testMatch|].
  2:{ apply (Hnext _ _ 0); [lia|]. rewrite drop_drop. f_equal. }
  destruct (tests sc !! PostProcessor.testCaseCounter st) as [tc|] eqn:Htc.
  2:{ apply (Hnext _ _ 0); [lia|]. rewrite drop_drop. f_equal. }
  destruct (inject_cases tc (PostProcessor.lines st) (PostProcessor.i st))
    as [[ws ->]|(j & Hj & ->)].
  { apply (Hnext _ _ 0); [lia|]. rewrite drop_drop. f_equal. }
  apply find_closing_bounds in Hj. rewrite length_drop in Hj.
  apply (Hnext _ _ (j - 2 - PostProcessor.i st)).
  - rewrite length_splice. lia.
  - unfold PostProcessor.splice.
    rewrite drop_app_ge by (rewrite length_take; lia).
    rewrite length_take.
    replace (j - 1 + 1 - (j - 1) `min` length (PostProcessor.lines st)) with 1 by lia.
    simpl. rewrite drop_0, drop_drop. f_equal. lia.
Qed.

Lemma for_loop_handed_on (sc : ScenarioGroup) (lines0 : list jsstr) (fuel : nat)
    (st st' : PostProcessor.loop_state) :
  PostProcessor.for_loop fuel sc st = Some st' →
  Words.handed_on sc lines0 st → Words.handed_on sc lines0 st'.
Proof.
  revert st. induction fuel as [|fuel IH]; intros st; simpl;
    destruct (length (PostProcessor.lines st) <=? PostProcessor.i st) eqn:E.
  - by intros [= <-].
  - done.
  - by intros [= <-].
  - apply Nat.leb_gt in E. intros Hloop Hinv.
    apply (IH _ Hloop). by apply iteration_handed_on.
Qed.

Lemma length_fix_import (lines : list jsstr) :
  length (PostProcessor.fix_import lines) = length lines.
Proof.
  unfold PostProcessor.fix_import. destruct lines as [|first rest]; [done|].
  by destruct (Regex.test _ _).
Qed.

(** *** Line breaks *)

Lemma index_of_elem (pat s : jsstr) (i : nat) (c : N) :
  index_of pat s = Some i → c ∈ pat → c ∈ s.
Proof.
  revert i. induction s as [|x s IH]; intros i; cbn [index_of].
  - destruct (starts_with pat []) eqn:E; [|done]. intros _. by apply starts_with_elem.
  - destruct (starts_with pat (x :: s)) eqn:E.
    + intros _. by apply starts_with_elem.
    + destruct (index_of pat s) as [i'|]; [|done]. intros _ Hc. right. by eapply IH.
Qed.

Lemma get_substitution_elem (matched before after repl : jsstr) (c : N) :
  c ∈ get_substitution matched before after repl →
  c ∈ repl ∨ c ∈ matched ∨ c ∈ before ∨ c ∈ after.
Proof.
  assert (H : ∀ n repl, length repl ≤ n →
            c ∈ get_substitution matched before after repl →
            c ∈ repl ∨ c ∈ matched ∨ c ∈ before ∨ c ∈ after).
  { clear repl. induction n as [|n IH]; intros repl Hn.
    { destruct repl; [by intros ?%elem_of_nil|simpl in Hn; lia]. }
    destruct repl as [|x t]; [by intros ?%elem_of_nil|]. simpl in Hn.
    assert (Hcopy : c ∈ x :: get_substitution matched before after t →
                    c ∈ x :: t ∨ c ∈ matched ∨ c ∈ before ∨ c ∈ after).
    { intros [->|Hc]%elem_of_cons; [left; left|].
      destruct (IH t ltac:(lia) Hc) as [?|?]; [left; by right|by right]. }
    cbn [get_substitution]. destruct (x =? 36)%N eqn:Ex; [|done].
    apply N.eqb_eq in Ex as ->.
    destruct t as [|d t']; [by left|]. simpl in Hn.
    assert (Hrest : c ∈ get_substitution matched before after t' →
                    c ∈ 36%N :: d :: t' ∨ c ∈ matched ∨ c ∈ before ∨ c ∈ after).
    { intros Hc. destruct (IH t' ltac:(lia) Hc) as [?|?]; [|by right].
      left. right. by right. }
    destruct (d =? 36)%N.
    { intros [->|Hc]%elem_of_cons; [|by apply Hrest]. left. left. }
    destruct (d =? 38)%N.
    { intros [?|Hc]%elem_of_app; [|by apply Hrest]. right. by left. }
    destruct (d =? 96)%N.
    { intros [?|Hc]%elem_of_app; [|by apply Hrest]. right. right. by left. }
    destruct (d =? 39)%N.
    { intros [?|Hc]%elem_of_app; [|by apply Hrest]. right. right. by right. }
    done. }
  by apply (H (length repl)).
Qed.

Lemma replace_one_line (pat repl s : jsstr) :
  10%N ∉ s → 10%N ∉ repl → 10%N ∉ JS.replace pat repl s.
Proof.
  intros Hs Hrepl. unfold JS.replace.
  destruct (index_of pat s) as [i|] eqn:Hi; [|done]. cbv zeta.
  rewrite !elem_of_app. intros [Hc|[Hc|Hc]].
  - apply Hs. apply elem_of_take in Hc as (j & Hj & _). by eapply list_elem_of_lookup_2.
  - apply get_substitution_elem in Hc as [?|[Hc|[Hc|Hc]]]; [done| | |].
    + apply Hs. by eapply index_of_elem.
    + apply Hs. apply elem_of_take in Hc as (j & Hj & _). by eapply list_elem_of_lookup_2.
    + apply Hs. apply list_elem_of_lookup_1 in Hc as [j Hj].
      rewrite lookup_drop in Hj. by eapply list_elem_of_lookup_2.
  - apply Hs. apply list_elem_of_lookup_1 in Hc as [j Hj].
    rewrite lookup_drop in Hj. by eapply list_elem_of_lookup_2.
Qed.

Lemma handed_line_one_line (sc : ScenarioGroup) (k : nat) (x : jsstr) :
  Words.titles_on_one_line sc → 10%N ∉ x → 10%N ∉ (Words.handed_line sc k x).1.
Proof.
  intros [Hs Hts] Hx. unfold Words.handed_line. cbv zeta.
  assert (Hd : 10%N ∉ PostProcessor.correct_describe (scenario sc) x).
  { unfold PostProcessor.correct_describe.
    destruct (Regex.exec Regex.describeRegex x); [|done].
    destruct (negb _); [|done]. by apply replace_one_line. }
  destruct (Regex.exec Regex.testRegex _) as [testMatch|]; [|done].
  destruct (tests sc !! k) as [tc|] eqn:Htc; [|done]. simpl.
  unfold PostProcessor.correct_test.
  destruct (PostProcessor.title_needs_correction _ _); [|done].
  apply replace_one_line; [done|].
  rewrite Forall_forall in Hts. apply Hts. by eapply list_elem_of_lookup_2.
Qed.

Lemma handed_lines_one_line (sc : ScenarioGroup) (kept : list jsstr) (k : nat) :
  Words.titles_on_one_line sc → Forall (λ x, 10%N ∉ x) kept →
  Forall (λ l, 10%N ∉ l) (Words.handed_lines sc k kept).1.
Proof.
  intros Hsc Hkept. revert k.
  induction Hkept as [|x kept Hx Hkept IH]; intros k; cbn [Words.handed_lines];
    [constructor|].
  pose proof (handed_line_one_line sc k x Hsc Hx) as Hl.
  destruct (Words.handed_line sc k x) as [l k1]. specialize (IH k1).
  destruct (Words.handed_lines sc k1 kept). simpl in *. by constructor.
Qed.

Lemma fix_import_one_line (lines : list jsstr) :
  Forall (λ x, 10%N ∉ x) lines → Forall (λ x, 10%N ∉ x) (PostProcessor.fix_import lines).
Proof.
  intros Hlines. unfold PostProcessor.fix_import.
  destruct Hlines as [|first rest Hfirst Hrest]; [constructor|].
  destruct (Regex.test _ _); [|by constructor]. constructor; [|done].
  unfold Regex.replace. destruct (Regex.exec _ first) as [m|]; [|done].
  rewrite !elem_of_app. intros [Hc|[Hc|Hc]].
  - apply Hfirst. apply elem_of_take in Hc as (j & Hj & _). by eapply list_elem_of_lookup_2.
  - revert Hc. by apply (bool_decide_unpack _).
  - apply Hfirst. apply list_elem_of_lookup_1 in Hc as [j Hj].
    rewrite lookup_drop in Hj. by eapply list_elem_of_lookup_2.
Qed.

Lemma split_one_line (s : jsstr) : Forall (λ x, 10%N ∉ x) (split 10 s).
Proof.
  apply Forall_forall. intros w Hw Hc. by destruct (split_pieces 10 s w 10%N Hw Hc).
Qed.

End HandedOn.

(** X11: what a post-processed test file is made of.  For a test file
    whose group is found, the content returned is, joined by line breaks,
    what the turns of the loop without the injection hand on, in order, for
    some of the lines of the file (after the correction of the import),
    taken in their order: each piece is one such line with the title of its
    describe block corrected and, when it is a case declaration that is
    given a test of the group, with the title the pattern captures
    corrected for that test, the tests being taken in their order.  Nothing
    else is in the content: no assertion line spliced into the array of
    lines reaches it.  The pieces are as many as the lines they are made
    of, so at most as many as the lines of the file; and when neither the
    scenario title nor an exact test title of the group has a line break,
    the content has at most as many lines as the file.  (A test title with
    a line break, which the parser keeps, makes a piece of several
    lines.) *)
Theorem output_lines_come_from_the_file {CM : CaseMapping}
    (testDataArray : list ScenarioGroup) (filePath fileContent : jsstr)
    (correspondingScenario : ScenarioGroup) :
  PostProcessor.find_scenario testDataArray
    (PostProcessor.generatedFileNameWithoutExt filePath) = Some correspondingScenario →
  ∃ kept ws,
    let pieces := (Words.handed_lines correspondingScenario 0 kept).1 in
    PostProcessor.process_test_file testDataArray filePath fileContent
    = Some (join PostProcessor.newline pieces, ws)
    ∧ kept `sublist_of` PostProcessor.fix_import (split 10 fileContent)
    ∧ length pieces = length kept
    ∧ length kept ≤ length (split 10 fileContent)
    ∧ (Words.titles_on_one_line correspondingScenario →
       length (split 10 (join PostProcessor.newline pieces))
       ≤ length (split 10 fileContent)).
Proof.
  intros Hfind. unfold PostProcessor.process_test_file. rewrite Hfind.
  set (lines0 := PostProcessor.fix_import (split 10 fileContent)).
  set (st0 := {| PostProcessor.lines := lines0 |}).
  destruct (for_loop_total correspondingScenario (length lines0) st0) as [st Hst].
  { unfold Words.remaining, st0. simpl. lia. }
  rewrite Hst. simpl.
  destruct (for_loop_handed_on correspondingScenario lines0 _ _ _ Hst)
    as (k & kept & _ & _ & Hsub & Hlines).
  { exists 0, []. unfold st0. simpl. split_and!; [lia|done|by rewrite take_0|done]. }
  assert (Hsub' : kept `sublist_of` lines0).
  { etrans; [exact Hsub|apply sublist_take]. }
  assert (Hlen : length kept ≤ length (split 10 fileContent)).
  { pose proof (sublist_length _ _ Hsub') as Hkept.
    unfold lines0 in Hkept. by rewrite length_fix_import in Hkept. }
  exists kept, (PostProcessor.warnings st). cbv zeta.
  pose proof (length_handed_lines correspondingScenario kept 0) as Hpieces.
  rewrite Hlines in *. cbn [fst] in *.
  split; [done|]. split; [done|]. split; [done|]. split; [done|].
  intros Htitles.
  assert (Hone : Forall (λ l, 10%N ∉ l) (PostProcessor.newLines st)).
  { change (PostProcessor.newLines st)
      with (PostProcessor.newLines st, PostProcessor.testCaseCounter st).1.
    rewrite <- Hlines. apply handed_lines_one_line; [done|].
    apply Forall_forall. intros x Hx.
    pose proof (fix_import_one_line _ (split_one_line fileContent)) as Hall.
    rewrite Forall_forall in Hall. apply Hall. by eapply elem_of_sublist. }
  destruct (PostProcessor.newLines st) as [|l ls] eqn:Hnew.
  - simpl. pose proof (split_nonempty 10 fileContent).
    destruct (split 10 fileContent); [done|]. simpl. lia.
  - unfold PostProcessor.newline. rewrite split_join_steps by done. lia.
Qed.

Section HandedOnEvaluation.
#[local] Existing Instance BasicLatin.

Lemma output_lines_come_from_the_file_witness :
  PostProcessor.find_scenario [Samples.login_group]
    (PostProcessor.generatedFileNameWithoutExt (lit "tests/login.spec.js"))
  = Some Samples.login_group
  ∧ ∃ kept ws,
      PostProcessor.process_test_file [Samples.login_group] (lit "tests/login.spec.js")
        Samples.login_spec
      = Some (join PostProcessor.newline (Words.handed_lines Samples.login_group 0 kept).1,
              ws)
      ∧ kept `sublist_of` PostProcessor.fix_import (split 10 Samples.login_spec)
      ∧ length (Words.handed_lines Samples.login_group 0 kept).1 = length kept
      ∧ length kept ≤ length (split 10 Samples.login_spec)
      ∧ (Words.titles_on_one_line Samples.login_group →
         length (split 10 (join PostProcessor.newline
                             (Words.handed_lines Samples.login_group 0 kept).1))
         ≤ length (split 10 Samples.login_spec)).
Proof.
  assert (H : PostProcessor.find_scenario [Samples.login_group]
                (PostProcessor.generatedFileNameWithoutExt (lit "tests/login.spec.js"))
              = Some Samples.login_group) by (vm_compute; reflexivity).
  split; [exact H|].
  exact (output_lines_come_from_the_file [Samples.login_group] (lit "tests/login.spec.js")
           Samples.login_spec Samples.login_group H).
Defined.

(** A title with a line break: the piece of its declaration has two
    lines, and the content has more lines than the file. *)
Example title_with_a_line_break :
  length (split 10 Samples.two_line_spec) = 4
  ∧ (length ∘ split 10 ∘ fst <$>
       PostProcessor.process_test_file [Samples.two_line_group] (lit "tests/login.spec.js")
         Samples.two_line_spec)
    = Some 5.
Proof. vm_compute. by split. Qed.

End HandedOnEvaluation.
